(** * Marvin swap layer of the ART runtime: reclamation table, app-thread
    handshake, stub indirection in [mirror::Object] accessors, free
    notification in the large object spaces and the no-swap marking sites.

    Sources embedded here:
    - [niel_reclamation_table.h]   (class [TableEntry])
    - [runtime/mirror/object-inl.h]   (field accessors)
    - [runtime/gc/space/large_object_space.cc]   (Free / FreeList / SweepCallback)
    - [runtime/gc/heap-inl.h]   (Heap::AllocObjectWithAllocator)
    - [runtime/jni/java_vm_ext.cc]   (AddGlobalRef / AddWeakGlobalRef) *)

From stdpp Require Import base gmap list.
From Stdlib Require Import ZArith Lia Bool.

Local Open Scope Z_scope.

(** ** Machine integers *)

(** Conversion of an [int] to [uint8_t]: reduction modulo 2^8. *)
Definition to_uint8 (z : Z) : Z := z mod 256.

(** Conversion to [uint32_t], as in [static_cast<uint32_t>(...)]. *)
Definition to_uint32 (z : Z) : Z := z mod 4294967296.

(** Conversion to [uint16_t]. *)
Definition to_uint16 (z : Z) : Z := z mod 65536.

(** Conversion to the signed types [int8_t], [int16_t], [int32_t] and
    [int64_t]: the value of the same residue in the signed range. *)
Definition to_int8 (z : Z) : Z := (z + 128) mod 256 - 128.
Definition to_int16 (z : Z) : Z := (z + 32768) mod 65536 - 32768.
Definition to_int32 (z : Z) : Z := (z + 2147483648) mod 4294967296 - 2147483648.
Definition to_int64 (z : Z) : Z :=
  (z + 9223372036854775808) mod 18446744073709551616 - 9223372036854775808.

(** ** niel::swap::TableEntry *)

Definition OCCUPIED_BIT_OFFSET : Z := 0.
Definition KERNEL_LOCK_BIT_OFFSET : Z := 1.
Definition RESIDENT_BIT_OFFSET : Z := 2.

(** The five data members of [TableEntry], in declaration order.
    [bit_flags_] and [app_lock_counter_] are [std::atomic<uint8_t>]; every
    member function below is one atomic read-modify-write or one load, and
    is modelled as one state transition on the entry. *)
Record TableEntry : Type := mkTableEntry {
  bit_flags_ : Z;
  app_lock_counter_ : Z;
  num_pages_ : Z;
  object_address_ : Z;
  stub_back_pointer_ : Z
}.

Definition with_bit_flags (f : Z) (e : TableEntry) : TableEntry :=
  mkTableEntry f (app_lock_counter_ e) (num_pages_ e) (object_address_ e)
               (stub_back_pointer_ e).

Definition with_app_lock_counter (c : Z) (e : TableEntry) : TableEntry :=
  mkTableEntry (bit_flags_ e) c (num_pages_ e) (object_address_ e)
               (stub_back_pointer_ e).

(** [return ((bit_flags_.load() >> offset) & 0x1);] *)
Definition GetBit (offset : Z) (e : TableEntry) : bool :=
  negb (Z.land (Z.shiftr (bit_flags_ e) offset) 1 =? 0).

(** [bit_flags_.fetch_or(1 << offset);] *)
Definition SetBit (offset : Z) (e : TableEntry) : TableEntry :=
  with_bit_flags
    (to_uint8 (Z.lor (bit_flags_ e) (to_uint8 (Z.shiftl 1 offset)))) e.

(** [bit_flags_.fetch_and(~(1 << offset));] *)
Definition ClearBit (offset : Z) (e : TableEntry) : TableEntry :=
  with_bit_flags
    (to_uint8 (Z.land (bit_flags_ e) (to_uint8 (Z.lnot (Z.shiftl 1 offset))))) e.

Definition GetOccupiedBit := GetBit OCCUPIED_BIT_OFFSET.
Definition SetOccupiedBit := SetBit OCCUPIED_BIT_OFFSET.
Definition ClearOccupiedBit := ClearBit OCCUPIED_BIT_OFFSET.
Definition GetKernelLockBit := GetBit KERNEL_LOCK_BIT_OFFSET.
Definition SetKernelLockBit := SetBit KERNEL_LOCK_BIT_OFFSET.
Definition ClearKernelLockBit := ClearBit KERNEL_LOCK_BIT_OFFSET.
Definition GetResidentBit := GetBit RESIDENT_BIT_OFFSET.
Definition SetResidentBit := SetBit RESIDENT_BIT_OFFSET.
Definition ClearResidentBit := ClearBit RESIDENT_BIT_OFFSET.

Definition GetAppLockCounter (e : TableEntry) : Z := app_lock_counter_ e.

(** [app_lock_counter_++;] on a [std::atomic<uint8_t>]. *)
Definition IncrAppLockCounter (e : TableEntry) : TableEntry :=
  with_app_lock_counter (to_uint8 (app_lock_counter_ e + 1)) e.

(** [app_lock_counter_--;] *)
Definition DecrAppLockCounter (e : TableEntry) : TableEntry :=
  with_app_lock_counter (to_uint8 (app_lock_counter_ e - 1)) e.

(** [app_lock_counter_ = 0;] *)
Definition ZeroAppLockCounter (e : TableEntry) : TableEntry :=
  with_app_lock_counter 0 e.

Definition GetNumPages (e : TableEntry) : Z := num_pages_ e.

(** [num_pages_ = num;] with [num] and the member both [uint16_t]. *)
Definition SetNumPages (num : Z) (e : TableEntry) : TableEntry :=
  mkTableEntry (bit_flags_ e) (app_lock_counter_ e) (to_uint16 num)
               (object_address_ e) (stub_back_pointer_ e).

Definition GetObjectAddress (e : TableEntry) : Z := object_address_ e.

Definition SetObjectAddress (obj : Z) (e : TableEntry) : TableEntry :=
  mkTableEntry (bit_flags_ e) (app_lock_counter_ e) (num_pages_ e)
               (to_uint32 obj) (stub_back_pointer_ e).

(** The three flags, to state properties of the nine bit accessors at once. *)
Inductive FlagBit : Type := Occupied | KernelLock | Resident.

#[global] Instance FlagBit_eq_dec : EqDecision FlagBit.
Proof. solve_decision. Defined.

Definition flag_offset (b : FlagBit) : Z :=
  match b with
  | Occupied => OCCUPIED_BIT_OFFSET
  | KernelLock => KERNEL_LOCK_BIT_OFFSET
  | Resident => RESIDENT_BIT_OFFSET
  end.

Definition GetFlag (b : FlagBit) : TableEntry -> bool :=
  match b with
  | Occupied => GetOccupiedBit
  | KernelLock => GetKernelLockBit
  | Resident => GetResidentBit
  end.

Definition SetFlag (b : FlagBit) : TableEntry -> TableEntry :=
  match b with
  | Occupied => SetOccupiedBit
  | KernelLock => SetKernelLockBit
  | Resident => SetResidentBit
  end.

Definition ClearFlag (b : FlagBit) : TableEntry -> TableEntry :=
  match b with
  | Occupied => ClearOccupiedBit
  | KernelLock => ClearKernelLockBit
  | Resident => ClearResidentBit
  end.

(** *** The app-thread handshake

    [LockFromAppThread] is two busy-wait loops on the kernel-lock bit, each
    followed by an increment.  The bit is written by another actor (the
    fault-driven swap-in path), so the function is modelled as a small-step
    machine whose steps interleave with that actor: before every step of
    the application thread the kernel side transforms the entry by
    [kernel t], where [t] counts the steps taken so far. *)

Inductive LockPc : Type :=
| AtFirstWait      (* while (GetKernelLockBit()) continue;   (first loop)  *)
| AtFirstIncr      (* IncrAppLockCounter();                  (first)       *)
| AtSecondWait     (* while (GetKernelLockBit()) continue;   (second loop) *)
| AtSecondIncr     (* IncrAppLockCounter();                  (second)      *)
| Returned.

Definition lock_step (pc : LockPc) (e : TableEntry) : LockPc * TableEntry :=
  match pc with
  | AtFirstWait =>
      if GetKernelLockBit e then (AtFirstWait, e) else (AtFirstIncr, e)
  | AtFirstIncr => (AtSecondWait, IncrAppLockCounter e)
  | AtSecondWait =>
      if GetKernelLockBit e then (AtSecondWait, e) else (AtSecondIncr, e)
  | AtSecondIncr => (Returned, IncrAppLockCounter e)
  | Returned => (Returned, e)
  end.

(** The behaviour of the kernel-side actor: what it does to the entry
    before the application thread's step number [t]. *)
Definition Kernel : Type := nat -> TableEntry -> TableEntry.

(** No kernel-side activity at all. *)
Definition idle_kernel : Kernel := fun _ e => e.

(** The kernel side holds the lock: it never clears a lock bit that is
    set. *)
Definition kernel_holds_lock (kernel : Kernel) : Prop :=
  forall t e, GetKernelLockBit e = true -> GetKernelLockBit (kernel t e) = true.

(** The kernel side stays away: it never sets a lock bit that is clear. *)
Definition kernel_stays_away (kernel : Kernel) : Prop :=
  forall t e, GetKernelLockBit e = false -> GetKernelLockBit (kernel t e) = false.

(** A kernel side that takes the lock and keeps it. *)
Definition stuck_kernel : Kernel := fun _ e => SetKernelLockBit e.

(** [n] steps of the application thread from time [t]; once the function
    has returned the run stops. *)
Fixpoint lock_run (kernel : Kernel) (n : nat) (t : nat)
         (pc : LockPc) (e : TableEntry) : LockPc * TableEntry :=
  match n with
  | O => (pc, e)
  | S n' =>
      match pc with
      | Returned => (Returned, e)
      | _ =>
          let '(pc', e') := lock_step pc (kernel t e) in
          lock_run kernel n' (S t) pc' e'
      end
  end.

(** [LockFromAppThread] run for at most [fuel] steps: the entry at return,
    or [None] if the call has not returned within [fuel] steps. *)
Definition LockFromAppThread (kernel : Kernel) (fuel : nat) (e : TableEntry)
  : option TableEntry :=
  match lock_run kernel fuel 0%nat AtFirstWait e with
  | (Returned, e') => Some e'
  | _ => None
  end.

(** [DecrAppLockCounter();] *)
Definition UnlockFromAppThread (e : TableEntry) : TableEntry :=
  DecrAppLockCounter e.

(** [k] consecutive Lock/Unlock pairs with an idle kernel side. *)
Fixpoint lock_unlock_pairs (fuel : nat) (k : nat) (e : TableEntry)
  : option TableEntry :=
  match k with
  | O => Some e
  | S k' =>
      match LockFromAppThread idle_kernel fuel e with
      | Some e' => lock_unlock_pairs fuel k' (UnlockFromAppThread e')
      | None => None
      end
  end.

(** ** Managed heap, stubs and the swap state *)

(** What lies at one heap address.  [mirror::Object] carries the Marvin flag
    bits in its header ([GetStubFlag], [SetNoSwapFlag], [GetIgnoreReadFlag],
    [SetReadBit], [SetWriteBit], [SetDirtyBit] are called by the code below);
    a [niel::swap::Stub] overlays the same address, so one record stands for
    both views: [stub_table_entry] is the stub's association with its
    [TableEntry] (an index into the reclamation table) and [obj_fields] is
    the memory at the address, field offset to stored value (zero-filled
    where the map has no binding, as freshly allocated objects are).  Heap
    references are kept decompressed: [PtrCompression::Compress] and
    [Decompress] are inverse to each other. *)
Record ObjectRep : Type := mkObjectRep {
  x_stub_flag : bool;
  x_no_swap_flag : bool;
  x_ignore_read_flag : bool;
  x_read_bit : bool;
  x_write_bit : bool;
  x_dirty_bit : bool;
  stub_table_entry : nat;
  obj_fields : gmap Z Z
}.

(** Calls that the accessors make and that the properties below order or
    count.  Every operation of the model that stands for one of these calls
    appends its event to the log of the state when it runs. *)
Inductive Event : Type :=
| EvGetStubFlag (obj : Z)
| EvLockTableEntry (stub : Z)
| EvSwapInOnDemand (stub : Z)
| EvLoad (obj offset : Z)
| EvStore (obj offset value : Z)
| EvPopulateFrom (stub payload : Z)
| EvUnlockTableEntry (stub : Z)
| EvRecordWrite (obj offset old_value : Z)
| EvWriteBarrier (obj offset new_value : Z).

Record State : Type := mkState {
  heap : gmap Z ObjectRep;        (* address to object or stub *)
  table : list TableEntry;        (* the reclamation table, base to end *)
  storage : gmap nat ObjectRep;   (* secondary storage: entry index to image *)
  log : list Event                (* oldest event first *)
}.

(** State and failure: [None] is a call that does not return (a spin that
    outlives the fuel, a fatal abort, an access through a dangling pointer). *)
Definition M (A : Type) : Type := State -> option (A * State).

Definition ret {A : Type} (a : A) : M A := fun s => Some (a, s).

Definition bind {A B : Type} (m : M A) (f : A -> M B) : M B := fun s =>
  match m s with
  | Some (a, s') => f a s'
  | None => None
  end.

Notation "'let*' x := m 'in' k" := (bind m (fun x => k))
  (at level 10, x name, m at level 100, k at level 200).
Notation "m >> k" := (bind m (fun _ => k))
  (at level 100, k at level 200, right associativity).

Definition stuck {A : Type} : M A := fun _ => None.

Definition emit (ev : Event) : M unit := fun s =>
  Some (tt, mkState (heap s) (table s) (storage s) (log s ++ [ev])).

Definition read_object (addr : Z) : M ObjectRep := fun s =>
  match heap s !! addr with
  | Some o => Some (o, s)
  | None => None
  end.

Definition write_object (addr : Z) (o : ObjectRep) : M unit := fun s =>
  Some (tt, mkState (<[addr := o]> (heap s)) (table s) (storage s) (log s)).

Definition read_entry (i : nat) : M TableEntry := fun s =>
  match table s !! i with
  | Some e => Some (e, s)
  | None => None
  end.

Definition write_entry (i : nat) (e : TableEntry) : M unit := fun s =>
  Some (tt, mkState (heap s) (<[i := e]> (table s)) (storage s) (log s)).

Definition with_fields (f : gmap Z Z) (o : ObjectRep) : ObjectRep :=
  mkObjectRep (x_stub_flag o) (x_no_swap_flag o) (x_ignore_read_flag o)
              (x_read_bit o) (x_write_bit o) (x_dirty_bit o)
              (stub_table_entry o) f.

Definition field_value (o : ObjectRep) (offset : Z) : Z :=
  default 0 (obj_fields o !! offset).

(** [this->GetStubFlag()] *)
Definition GetStubFlag (this : Z) : M bool :=
  emit (EvGetStubFlag this) >>
  let* o := read_object this in
  ret (x_stub_flag o).

Definition GetIgnoreReadFlag (this : Z) : M bool :=
  let* o := read_object this in ret (x_ignore_read_flag o).

Definition SetReadBit (this : Z) : M unit :=
  let* o := read_object this in
  write_object this
    (mkObjectRep (x_stub_flag o) (x_no_swap_flag o) (x_ignore_read_flag o)
                 true (x_write_bit o) (x_dirty_bit o)
                 (stub_table_entry o) (obj_fields o)).

Definition SetWriteBit (this : Z) : M unit :=
  let* o := read_object this in
  write_object this
    (mkObjectRep (x_stub_flag o) (x_no_swap_flag o) (x_ignore_read_flag o)
                 (x_read_bit o) true (x_dirty_bit o)
                 (stub_table_entry o) (obj_fields o)).

Definition SetDirtyBit (this : Z) : M unit :=
  let* o := read_object this in
  write_object this
    (mkObjectRep (x_stub_flag o) (x_no_swap_flag o) (x_ignore_read_flag o)
                 (x_read_bit o) (x_write_bit o) true
                 (stub_table_entry o) (obj_fields o)).

(** Modelled from the spec: [Object::SetNoSwapFlag] (object.h is not in
    src) sets the sticky flag that excludes the object from swapping. *)
Definition SetNoSwapFlag (o : ObjectRep) : ObjectRep :=
  mkObjectRep (x_stub_flag o) true (x_ignore_read_flag o)
              (x_read_bit o) (x_write_bit o) (x_dirty_bit o)
              (stub_table_entry o) (obj_fields o).

(** The raw load at [this + field_offset] that [GetFieldPrimitive] and the
    reference load of [ReadBarrier::Barrier] perform. *)
Definition load_field (this field_offset : Z) : M Z :=
  emit (EvLoad this field_offset) >>
  let* o := read_object this in
  ret (field_value o field_offset).

(** The raw store at [this + field_offset] of [SetFieldPrimitive] and
    [HeapReference::Assign]. *)
Definition store_field (this field_offset value : Z) : M unit :=
  emit (EvStore this field_offset value) >>
  let* o := read_object this in
  write_object this (with_fields (<[field_offset := value]> (obj_fields o)) o).

(** *** The stub side (niel_stub.h and niel_swap.h are not in src) *)

(** Modelled from the spec: [Stub::GetTableEntry] follows the stub's
    association to its entry of the reclamation table. *)
Definition GetTableEntry (stub : Z) : M TableEntry :=
  let* o := read_object stub in read_entry (stub_table_entry o).

(** Modelled from the spec: [Stub::LockTableEntry] acquires the entry by
    the app-thread handshake, [GetTableEntry()->LockFromAppThread()].  The
    accessors are run sequentially, with no kernel-side activity while they
    run; a handshake that is still spinning after [fuel] steps does not
    return. *)
Definition LockTableEntry (fuel : nat) (stub : Z) : M unit :=
  emit (EvLockTableEntry stub) >>
  let* o := read_object stub in
  let* e := read_entry (stub_table_entry o) in
  match LockFromAppThread idle_kernel fuel e with
  | Some e' => write_entry (stub_table_entry o) e'
  | None => stuck
  end.

(** Modelled from the spec: [Stub::UnlockTableEntry] releases the
    handshake, [GetTableEntry()->UnlockFromAppThread()]. *)
Definition UnlockTableEntry (stub : Z) : M unit :=
  emit (EvUnlockTableEntry stub) >>
  let* o := read_object stub in
  let* e := read_entry (stub_table_entry o) in
  write_entry (stub_table_entry o) (UnlockFromAppThread e).

(** Modelled from the spec: [Stub::GetObjectAddress] is the entry's
    [object_address]. *)
Definition StubGetObjectAddress (stub : Z) : M Z :=
  let* e := GetTableEntry stub in ret (GetObjectAddress e).

(** Modelled from the spec: [niel::swap::SwapInOnDemand] repopulates the
    payload from secondary storage, at the entry's object address, and sets
    the resident bit.  A swap-in with nothing to read back does not
    return. *)
Definition SwapInOnDemand (stub : Z) : M unit :=
  emit (EvSwapInOnDemand stub) >>
  let* o := read_object stub in
  let* e := read_entry (stub_table_entry o) in
  fun s =>
    match storage s !! stub_table_entry o with
    | Some image =>
        (write_object (GetObjectAddress e) image >>
         write_entry (stub_table_entry o) (SetResidentBit e)) s
    | None => None
    end.

(** Modelled from the spec: [Stub::PopulateFrom] refreshes the stub's own
    cached copy of the object data from the resident payload; the stub flag
    and the association with the entry stay. *)
Definition PopulateFrom (stub payload : Z) : M unit :=
  emit (EvPopulateFrom stub payload) >>
  let* o := read_object stub in
  let* p := read_object payload in
  write_object stub (with_fields (obj_fields p) o).

(** Modelled from the spec: the SWAP_PREAMBLE macros of niel_swap.h, after
    section 4.3 and the hand-written expansion in
    [SetFieldObjectWithoutWriteBarrier]: when the stub flag of [this] is
    set, lock the entry, swap in unless resident, forward the call to the
    payload, refresh the stub, unlock and return the forwarded result;
    otherwise fall through to the rest of the function. *)
Definition SWAP_PREAMBLE {A : Type} (fuel : nat) (this : Z)
           (forward : Z -> M A) (rest : M A) : M A :=
  let* is_stub := GetStubFlag this in
  if is_stub : bool then
    LockTableEntry fuel this >>
    let* e := GetTableEntry this in
    (if negb (GetResidentBit e) then SwapInOnDemand this else ret tt) >>
    let* payload := StubGetObjectAddress this in
    let* r := forward payload in
    let* payload' := StubGetObjectAddress this in
    PopulateFrom this payload' >>
    UnlockTableEntry this >>
    ret r
  else rest.

(** ** Field accessors of mirror::Object (object-inl.h)

    Template parameters: [kTransactionActive] is kept as a boolean argument;
    [kVerifyFlags], [kCheckTransaction] and [kIsVolatile] select debug
    verification and the memory order of the raw access and do not change
    what a sequential run computes.  [fuel] bounds the depth of forwarding
    from a stub to its payload and the length of a handshake spin.

    [field_offset] is the value of the [MemberOffset], which
    [Uint32Value()] and [Int32Value()] return (offsets.h is not in src).

    A field holds the integer last stored at its offset.  The primitive
    accessors convert at their boundary as the types of the source do: a
    getter returns the field as a value of its return type
    ([GetFieldPrimitive<T>]), a setter stores its argument as a value of
    its parameter type ([SetFieldPrimitive<T>]). *)

Section Accessors.

(** [sizeof(Object)], the size of the object header (object.h is not in
    src). *)
Variable sizeof_Object : Z.

(** [GetFieldBoolean], [GetField32] and [GetField64] are defined in
    object.h, which is not in src.  [SetFieldBoolean], [SetField32] and
    [SetField64] call them to read the old value of the field inside a
    transaction: they are parameters of these setters, applied to [this]
    and the offset. *)
Variable GetFieldBoolean : Z -> Z -> M Z.
Variable GetField32 : Z -> Z -> M Z.
Variable GetField64 : Z -> Z -> M Z.

Fixpoint GetFieldByte (fuel : nat) (this field_offset : Z) : M Z :=
  match fuel with
  | O => stuck
  | S fuel' =>
      let rest := let* v := load_field this field_offset in ret (to_int8 v) in
      if sizeof_Object <=? field_offset
      then SWAP_PREAMBLE fuel this
             (fun payload => GetFieldByte fuel' payload field_offset) rest
      else rest
  end.

Fixpoint GetFieldChar (fuel : nat) (this field_offset : Z) : M Z :=
  match fuel with
  | O => stuck
  | S fuel' =>
      let rest := let* v := load_field this field_offset in ret (to_uint16 v) in
      if sizeof_Object <=? field_offset
      then SWAP_PREAMBLE fuel this
             (fun payload => GetFieldChar fuel' payload field_offset) rest
      else rest
  end.

Fixpoint GetFieldShort (fuel : nat) (this field_offset : Z) : M Z :=
  match fuel with
  | O => stuck
  | S fuel' =>
      let rest := let* v := load_field this field_offset in ret (to_int16 v) in
      if sizeof_Object <=? field_offset
      then SWAP_PREAMBLE fuel this
             (fun payload => GetFieldShort fuel' payload field_offset) rest
      else rest
  end.

(** The body shared by the primitive setters after their preamble:
    [if (kTransactionActive) Runtime::Current()->RecordWriteField...(this,
    field_offset, <getter>(field_offset), kIsVolatile);] and then
    [SetFieldPrimitive(field_offset, new_value)]. *)
Definition set_primitive_body (kTransactionActive : bool)
           (getter : Z -> Z -> M Z) (this field_offset new_value : Z) : M unit :=
  (if kTransactionActive
   then let* old := getter this field_offset in
        emit (EvRecordWrite this field_offset old)
   else ret tt) >>
  store_field this field_offset new_value.

Fixpoint SetFieldBoolean (fuel : nat) (kTransactionActive : bool)
         (this field_offset new_value : Z) : M unit :=
  match fuel with
  | O => stuck
  | S fuel' =>
      let rest := set_primitive_body kTransactionActive GetFieldBoolean
                                     this field_offset (to_uint8 new_value) in
      if sizeof_Object <=? field_offset
      then SWAP_PREAMBLE fuel this
             (fun payload => SetFieldBoolean fuel' kTransactionActive payload
                                            field_offset new_value) rest
      else rest
  end.

Fixpoint SetFieldByte (fuel : nat) (kTransactionActive : bool)
         (this field_offset new_value : Z) : M unit :=
  match fuel with
  | O => stuck
  | S fuel' =>
      let rest := set_primitive_body kTransactionActive (GetFieldByte fuel)
                                     this field_offset (to_int8 new_value) in
      if sizeof_Object <=? field_offset
      then SWAP_PREAMBLE fuel this
             (fun payload => SetFieldByte fuel' kTransactionActive payload
                                         field_offset new_value) rest
      else rest
  end.

Fixpoint SetFieldChar (fuel : nat) (kTransactionActive : bool)
         (this field_offset new_value : Z) : M unit :=
  match fuel with
  | O => stuck
  | S fuel' =>
      let rest := set_primitive_body kTransactionActive (GetFieldChar fuel)
                                     this field_offset (to_uint16 new_value) in
      if sizeof_Object <=? field_offset
      then SWAP_PREAMBLE fuel this
             (fun payload => SetFieldChar fuel' kTransactionActive payload
                                         field_offset new_value) rest
      else rest
  end.

Fixpoint SetFieldShort (fuel : nat) (kTransactionActive : bool)
         (this field_offset new_value : Z) : M unit :=
  match fuel with
  | O => stuck
  | S fuel' =>
      let rest := set_primitive_body kTransactionActive (GetFieldShort fuel)
                                     this field_offset (to_int16 new_value) in
      if sizeof_Object <=? field_offset
      then SWAP_PREAMBLE fuel this
             (fun payload => SetFieldShort fuel' kTransactionActive payload
                                          field_offset new_value) rest
      else rest
  end.

Fixpoint SetField32 (fuel : nat) (kTransactionActive : bool)
         (this field_offset new_value : Z) : M unit :=
  match fuel with
  | O => stuck
  | S fuel' =>
      let rest := set_primitive_body kTransactionActive GetField32
                                     this field_offset (to_int32 new_value) in
      if sizeof_Object <=? field_offset
      then SWAP_PREAMBLE fuel this
             (fun payload => SetField32 fuel' kTransactionActive payload
                                       field_offset new_value) rest
      else rest
  end.

Fixpoint SetField64 (fuel : nat) (kTransactionActive : bool)
         (this field_offset new_value : Z) : M unit :=
  match fuel with
  | O => stuck
  | S fuel' =>
      let rest := set_primitive_body kTransactionActive GetField64
                                     this field_offset (to_int64 new_value) in
      if sizeof_Object <=? field_offset
      then SWAP_PREAMBLE fuel this
             (fun payload => SetField64 fuel' kTransactionActive payload
                                       field_offset new_value) rest
      else rest
  end.

(** [return SetField64<kTransactionActive, kCheckTransaction, kVerifyFlags,
    true>(field_offset, new_value);] behind its own preamble. *)
Fixpoint SetField64Volatile (fuel : nat) (kTransactionActive : bool)
         (this field_offset new_value : Z) : M unit :=
  match fuel with
  | O => stuck
  | S fuel' =>
      let rest := SetField64 fuel kTransactionActive this field_offset
                             new_value in
      if sizeof_Object <=? field_offset
      then SWAP_PREAMBLE fuel this
             (fun payload => SetField64Volatile fuel' kTransactionActive
                                                payload field_offset new_value)
             rest
      else rest
  end.

(** The atomic compare-and-set on the raw field.  [spurious] is the one
    degree of freedom of a weak compare-and-set: it may fail although the
    field holds the expected value. *)
Definition compare_and_set (spurious : bool)
           (this field_offset old_value new_value : Z) : M bool :=
  let* cur := load_field this field_offset in
  if (cur =? old_value) && negb spurious
  then store_field this field_offset new_value >> ret true
  else ret false.

(** The same on an [Atomic<int64_t>] with [int64_t] operands. *)
Definition compare_and_set64 (spurious : bool)
           (this field_offset old_value new_value : Z) : M bool :=
  let* cur := load_field this field_offset in
  if (to_int64 cur =? to_int64 old_value) && negb spurious
  then store_field this field_offset (to_int64 new_value) >> ret true
  else ret false.

Fixpoint CasFieldWeakSequentiallyConsistent64 (fuel : nat)
         (kTransactionActive spurious : bool)
         (this field_offset old_value new_value : Z) : M bool :=
  match fuel with
  | O => stuck
  | S fuel' =>
      let rest :=
        (if kTransactionActive
         then emit (EvRecordWrite this field_offset (to_int64 old_value))
         else ret tt) >>
        compare_and_set64 spurious this field_offset old_value new_value in
      if sizeof_Object <=? field_offset
      then SWAP_PREAMBLE fuel this
             (fun payload =>
                CasFieldWeakSequentiallyConsistent64
                  fuel' kTransactionActive spurious payload field_offset
                  old_value new_value) rest
      else rest
  end.

Fixpoint CasFieldStrongSequentiallyConsistent64 (fuel : nat)
         (kTransactionActive : bool)
         (this field_offset old_value new_value : Z) : M bool :=
  match fuel with
  | O => stuck
  | S fuel' =>
      let rest :=
        (if kTransactionActive
         then emit (EvRecordWrite this field_offset (to_int64 old_value))
         else ret tt) >>
        compare_and_set64 false this field_offset old_value new_value in
      if sizeof_Object <=? field_offset
      then SWAP_PREAMBLE fuel this
             (fun payload =>
                CasFieldStrongSequentiallyConsistent64
                  fuel' kTransactionActive payload field_offset
                  old_value new_value) rest
      else rest
  end.

(** [GetFieldObject]: the guarded preamble, then the read-bit update and the
    reference load through [ReadBarrier::Barrier]. *)
Fixpoint GetFieldObject (fuel : nat) (this field_offset : Z) : M Z :=
  match fuel with
  | O => stuck
  | S fuel' =>
      let rest :=
        let* ignore := GetIgnoreReadFlag this in
        (if negb ignore then SetReadBit this else ret tt) >>
        load_field this field_offset in
      if sizeof_Object <=? field_offset
      then SWAP_PREAMBLE fuel this
             (fun payload => GetFieldObject fuel' payload field_offset) rest
      else rest
  end.

Definition GetFieldObjectVolatile := GetFieldObject.

(** [SetFieldObjectWithoutWriteBarrier]: the stub redirection is written
    out by hand in the source, without the offset test of the macro sites. *)
Fixpoint SetFieldObjectWithoutWriteBarrier (fuel : nat)
         (kTransactionActive : bool)
         (this field_offset new_value : Z) : M unit :=
  match fuel with
  | O => stuck
  | S fuel' =>
      let* is_stub := GetStubFlag this in
      if is_stub : bool then
        let stub := this in
        LockTableEntry fuel stub >>
        let* e := GetTableEntry stub in
        (if negb (GetResidentBit e) then SwapInOnDemand stub else ret tt) >>
        let* payload := StubGetObjectAddress stub in
        SetFieldObjectWithoutWriteBarrier fuel' kTransactionActive payload
                                          field_offset new_value >>
        let* payload' := StubGetObjectAddress stub in
        PopulateFrom stub payload' >>
        UnlockTableEntry stub
      else
        (if kTransactionActive
         then let* obj := GetFieldObject fuel this field_offset in
              emit (EvRecordWrite this field_offset obj)
         else ret tt) >>
        store_field this field_offset new_value >>
        SetWriteBit this >>
        SetDirtyBit this
  end.

(** [SetFieldObject]: the store, then the write barrier for a non-null
    value. *)
Definition SetFieldObject (fuel : nat) (kTransactionActive : bool)
           (this field_offset new_value : Z) : M unit :=
  SetFieldObjectWithoutWriteBarrier fuel kTransactionActive this field_offset
                                    new_value >>
  if new_value =? 0 then ret tt
  else emit (EvWriteBarrier this field_offset new_value).

(** [GetFieldObjectReferenceAddr]: the address of the reference field, as
    the object it lies in and the offset. *)
Fixpoint GetFieldObjectReferenceAddr (fuel : nat) (this field_offset : Z)
  : M (Z * Z) :=
  match fuel with
  | O => stuck
  | S fuel' =>
      let rest := ret (this, field_offset) in
      if sizeof_Object <=? field_offset
      then SWAP_PREAMBLE fuel this
             (fun payload =>
                GetFieldObjectReferenceAddr fuel' payload field_offset) rest
      else rest
  end.

(** [CasFieldObjectWithoutWriteBarrier]: transaction record, then the
    compare-and-set on [this + field_offset].  [weak_fails] is a weak-mode
    spurious failure. *)
Definition CasFieldObjectWithoutWriteBarrier (kTransactionActive : bool)
           (weak_fails : bool)
           (this field_offset old_value new_value : Z) : M bool :=
  (if kTransactionActive
   then emit (EvRecordWrite this field_offset old_value)
   else ret tt) >>
  compare_and_set weak_fails this field_offset old_value new_value.

Definition CasFieldObject (kTransactionActive : bool) (weak_fails : bool)
           (this field_offset old_value new_value : Z) : M bool :=
  let* success := CasFieldObjectWithoutWriteBarrier
                    kTransactionActive weak_fails this field_offset
                    old_value new_value in
  (if success : bool
   then emit (EvWriteBarrier this field_offset new_value)
   else ret tt) >>
  ret success.

(** [CompareAndExchangeFieldObject]: [compare_exchange_strong] on
    [this + field_offset]; returns the witness value. *)
Definition CompareAndExchangeFieldObject (kTransactionActive : bool)
           (this field_offset old_value new_value : Z) : M Z :=
  let* witness_value := load_field this field_offset in
  let success := witness_value =? old_value in
  (if success
   then store_field this field_offset new_value >>
        (if kTransactionActive
         then emit (EvRecordWrite this field_offset witness_value)
         else ret tt) >>
        emit (EvWriteBarrier this field_offset new_value)
   else ret tt) >>
  ret witness_value.

(** [ExchangeFieldObject]: [exchange] on [this + field_offset]; returns the
    old value. *)
Definition ExchangeFieldObject (kTransactionActive : bool)
           (this field_offset new_value : Z) : M Z :=
  let* old_value := load_field this field_offset in
  store_field this field_offset new_value >>
  (if kTransactionActive
   then emit (EvRecordWrite this field_offset old_value)
   else ret tt) >>
  emit (EvWriteBarrier this field_offset new_value) >>
  ret old_value.

End Accessors.

(** The guarded accessors of object-inl.h, that is, the field accessors
    whose body starts with
    [if (field_offset.Uint32Value() >= sizeof(Object)) { SWAP_PREAMBLE... }],
    as one type, to quantify over them. *)
Inductive GuardedAccessor : Type :=
| AccGetFieldByte
| AccSetFieldBoolean (kTransactionActive : bool) (new_value : Z)
| AccSetFieldByte (kTransactionActive : bool) (new_value : Z)
| AccGetFieldChar
| AccGetFieldShort
| AccSetFieldChar (kTransactionActive : bool) (new_value : Z)
| AccSetFieldShort (kTransactionActive : bool) (new_value : Z)
| AccSetField32 (kTransactionActive : bool) (new_value : Z)
| AccSetField64 (kTransactionActive : bool) (new_value : Z)
| AccSetField64Volatile (kTransactionActive : bool) (new_value : Z)
| AccCasFieldWeakSequentiallyConsistent64
    (kTransactionActive spurious : bool) (old_value new_value : Z)
| AccCasFieldStrongSequentiallyConsistent64
    (kTransactionActive : bool) (old_value new_value : Z)
| AccGetFieldObject
| AccGetFieldObjectReferenceAddr.

Inductive AccessorResult : Type :=
| ResVoid
| ResValue (v : Z)
| ResBool (b : bool)
| ResAddr (obj offset : Z).

(** The getters that are parameters of the setters: for the setters that
    read the old value of the field through one of them inside a
    transaction, that getter. *)
Definition outside_getter (GetFieldBoolean GetField32 GetField64 : Z -> Z -> M Z)
           (a : GuardedAccessor) : option (Z -> Z -> M Z) :=
  match a with
  | AccSetFieldBoolean true _ => Some GetFieldBoolean
  | AccSetField32 true _ => Some GetField32
  | AccSetField64 true _ | AccSetField64Volatile true _ => Some GetField64
  | _ => None
  end.

Definition call_accessor (sizeof_Object : Z)
           (GetFieldBoolean GetField32 GetField64 : Z -> Z -> M Z)
           (fuel : nat) (a : GuardedAccessor)
           (this field_offset : Z) : M AccessorResult :=
  match a with
  | AccGetFieldByte =>
      let* v := GetFieldByte sizeof_Object fuel this field_offset in
      ret (ResValue v)
  | AccSetFieldBoolean tx nv =>
      SetFieldBoolean sizeof_Object GetFieldBoolean fuel tx this field_offset
                      nv >>
      ret ResVoid
  | AccSetFieldByte tx nv =>
      SetFieldByte sizeof_Object fuel tx this field_offset nv >> ret ResVoid
  | AccGetFieldChar =>
      let* v := GetFieldChar sizeof_Object fuel this field_offset in
      ret (ResValue v)
  | AccGetFieldShort =>
      let* v := GetFieldShort sizeof_Object fuel this field_offset in
      ret (ResValue v)
  | AccSetFieldChar tx nv =>
      SetFieldChar sizeof_Object fuel tx this field_offset nv >> ret ResVoid
  | AccSetFieldShort tx nv =>
      SetFieldShort sizeof_Object fuel tx this field_offset nv >> ret ResVoid
  | AccSetField32 tx nv =>
      SetField32 sizeof_Object GetField32 fuel tx this field_offset nv >>
      ret ResVoid
  | AccSetField64 tx nv =>
      SetField64 sizeof_Object GetField64 fuel tx this field_offset nv >>
      ret ResVoid
  | AccSetField64Volatile tx nv =>
      SetField64Volatile sizeof_Object GetField64 fuel tx this field_offset
                         nv >>
      ret ResVoid
  | AccCasFieldWeakSequentiallyConsistent64 tx sp ov nv =>
      let* b := CasFieldWeakSequentiallyConsistent64
                  sizeof_Object fuel tx sp this field_offset ov nv in
      ret (ResBool b)
  | AccCasFieldStrongSequentiallyConsistent64 tx ov nv =>
      let* b := CasFieldStrongSequentiallyConsistent64
                  sizeof_Object fuel tx this field_offset ov nv in
      ret (ResBool b)
  | AccGetFieldObject =>
      let* v := GetFieldObject sizeof_Object fuel this field_offset in
      ret (ResValue v)
  | AccGetFieldObjectReferenceAddr =>
      let* a := GetFieldObjectReferenceAddr sizeof_Object fuel this
                                            field_offset in
      ret (ResAddr (fst a) (snd a))
  end.

(** Events of the stub protocol: the flag test and everything behind it. *)
Definition is_stub_protocol_event (ev : Event) : bool :=
  match ev with
  | EvGetStubFlag _ | EvLockTableEntry _ | EvSwapInOnDemand _
  | EvPopulateFrom _ _ | EvUnlockTableEntry _ => true
  | _ => false
  end.

(** Events that touch the memory of an object other than [this]. *)
Definition touches_other_object (this : Z) (ev : Event) : bool :=
  match ev with
  | EvLoad o _ | EvStore o _ _ | EvRecordWrite o _ _ | EvWriteBarrier o _ _ =>
      negb (o =? this)
  | _ => false
  end.

(** *** What a run on a resident object looks like

    The object left by a reference store that went straight to [p], and the
    events of a direct reference load and store; used to state what the
    forwarded call of a stub redirection does to the payload. *)
Definition after_read (p : ObjectRep) : ObjectRep :=
  mkObjectRep (x_stub_flag p) (x_no_swap_flag p) (x_ignore_read_flag p)
              (if x_ignore_read_flag p then x_read_bit p else true)
              (x_write_bit p) (x_dirty_bit p)
              (stub_table_entry p) (obj_fields p).

Definition after_store (kTransactionActive : bool) (offset value : Z)
           (p : ObjectRep) : ObjectRep :=
  let q := if kTransactionActive then after_read p else p in
  mkObjectRep (x_stub_flag q) (x_no_swap_flag q) (x_ignore_read_flag q)
              (x_read_bit q) true true
              (stub_table_entry q) (<[offset := value]> (obj_fields q)).

Definition direct_load_events (sizeof_Object : Z) (obj offset : Z)
  : list Event :=
  (if sizeof_Object <=? offset then [EvGetStubFlag obj] else []) ++
  [EvLoad obj offset].

Definition direct_store_events (sizeof_Object : Z) (kTransactionActive : bool)
           (obj offset old_value value : Z) : list Event :=
  [EvGetStubFlag obj] ++
  (if kTransactionActive
   then direct_load_events sizeof_Object obj offset ++
        [EvRecordWrite obj offset old_value]
   else []) ++
  [EvStore obj offset value].

(** *** What a redirected access looks like

    The entry after one pass through the protocol (handshake taken, swap-in
    if it was not resident, handshake released) and the events of the pass
    around the events [forwarded] of the forwarded call. *)
Definition entry_after_access (e : TableEntry) : TableEntry :=
  let locked := IncrAppLockCounter (IncrAppLockCounter e) in
  UnlockFromAppThread
    (if GetResidentBit e then locked else SetResidentBit locked).

Definition stub_protocol_events (stub : Z) (e : TableEntry)
           (forwarded : list Event) : list Event :=
  [EvGetStubFlag stub; EvLockTableEntry stub] ++
  (if GetResidentBit e then [] else [EvSwapInOnDemand stub]) ++
  forwarded ++
  [EvPopulateFrom stub (GetObjectAddress e); EvUnlockTableEntry stub].

(** [this] is a stub whose entry [e] is free of the kernel and whose payload
    [p] is either resident at the entry's object address or evicted to
    secondary storage. *)
Definition stub_of (s : State) (this : Z) (o : ObjectRep) (e : TableEntry)
           (p : ObjectRep) : Prop :=
  heap s !! this = Some o /\
  x_stub_flag o = true /\
  table s !! stub_table_entry o = Some e /\
  GetKernelLockBit e = false /\
  GetObjectAddress e <> this /\
  (if GetResidentBit e
   then heap s !! GetObjectAddress e = Some p
   else storage s !! stub_table_entry o = Some p) /\
  x_stub_flag p = false.

(** The state in which the forwarded call of a redirection starts. *)
Definition at_forward (s : State) (this : Z) (o : ObjectRep) (e : TableEntry)
           (p : ObjectRep) : State :=
  let locked := IncrAppLockCounter (IncrAppLockCounter e) in
  mkState
    (if GetResidentBit e then heap s else <[GetObjectAddress e := p]> (heap s))
    (<[stub_table_entry o :=
         if GetResidentBit e then locked else SetResidentBit locked]> (table s))
    (storage s)
    (log s ++ [EvGetStubFlag this; EvLockTableEntry this] ++
     (if GetResidentBit e then [] else [EvSwapInOnDemand this])).

(** *** A small heap to run the accessors on

    One stub at address 256 bound to entry 0 of a one-entry table; the
    entry is occupied, not resident and free of the kernel; its payload,
    whose field at offset 8 holds 41, is on secondary storage and belongs at
    address 4096. *)
Definition example_stub : ObjectRep :=
  mkObjectRep true false false false false false 0%nat ∅.

Definition example_image : ObjectRep :=
  mkObjectRep false false false false false false 0%nat {[ 8 := 41 ]}.

Definition example_entry : TableEntry := mkTableEntry 1 0 1 4096 256.

Definition example_state : State :=
  mkState {[ 256 := example_stub ]} [example_entry]
          {[ 0%nat := example_image ]} [].

(** The value a setter stores: its argument as a value of the parameter
    type of the source. *)
Definition stored_value (a : GuardedAccessor) : option Z :=
  match a with
  | AccSetFieldBoolean _ v => Some (to_uint8 v)
  | AccSetFieldByte _ v => Some (to_int8 v)
  | AccSetFieldChar _ v => Some (to_uint16 v)
  | AccSetFieldShort _ v => Some (to_int16 v)
  | AccSetField32 _ v => Some (to_int32 v)
  | AccSetField64 _ v | AccSetField64Volatile _ v => Some (to_int64 v)
  | _ => None
  end.

(** What an accessor that goes straight to the memory of [this] returns and
    leaves there: [o] is the object at [this] before the call, [o'] after. *)
Definition direct_result (a : GuardedAccessor) (this field_offset : Z)
           (o : ObjectRep) (r : AccessorResult) (o' : ObjectRep) : Prop :=
  match a with
  | AccGetFieldByte => r = ResValue (to_int8 (field_value o field_offset))
  | AccGetFieldChar => r = ResValue (to_uint16 (field_value o field_offset))
  | AccGetFieldShort => r = ResValue (to_int16 (field_value o field_offset))
  | AccGetFieldObject => r = ResValue (field_value o field_offset)
  | AccSetFieldBoolean _ _ | AccSetFieldByte _ _ | AccSetFieldChar _ _
  | AccSetFieldShort _ _ | AccSetField32 _ _ | AccSetField64 _ _
  | AccSetField64Volatile _ _ =>
      r = ResVoid /\ Some (field_value o' field_offset) = stored_value a
  | AccCasFieldWeakSequentiallyConsistent64 _ spurious ov nv =>
      let success := (to_int64 (field_value o field_offset) =? to_int64 ov)
                     && negb spurious in
      r = ResBool success /\
      field_value o' field_offset
      = if success then to_int64 nv else field_value o field_offset
  | AccCasFieldStrongSequentiallyConsistent64 _ ov nv =>
      let success := to_int64 (field_value o field_offset) =? to_int64 ov in
      r = ResBool success /\
      field_value o' field_offset
      = if success then to_int64 nv else field_value o field_offset
  | AccGetFieldObjectReferenceAddr => r = ResAddr this field_offset
  end.

(** An event of the fast path on [this]: not part of the stub protocol and
    not an access to another object. *)
Definition fast_path_event (this : Z) (ev : Event) : bool :=
  negb (is_stub_protocol_event ev) && negb (touches_other_object this ev).

(** ** Large object spaces (large_object_space.cc) *)

Definition to_uint64 (z : Z) : Z := z mod 18446744073709551616.

(** Calls and bookkeeping steps of the spaces that the free-notification
    property orders. *)
Inductive LosEvent : Type :=
| LosGcRecordFree (self ptr : Z)   (* niel::swap::GcRecordFree(self, ptr) *)
| LosMadvise (obj size : Z)        (* madvise(obj, size, MADV_DONTNEED) *)
| LosRelease (self ptr : Z)        (* the space gives up the memory of ptr:
                                      large_objects_.erase(it), resp.
                                      info->SetByteSize(size, true) *)
| LosInstRecordFree (size count : Z)   (* NIEL_INST_RECORD_FREE *)
| LosBitmapClear (ptr : Z)         (* bitmap->Clear(ptr) *)
| LosFatal.                        (* LOG(FATAL) or a failed CHECK *)

(** The members of the base class [LargeObjectSpace] that [Free] and the
    sweep touch, and the log. *)
Record LargeObjectSpace : Type := mkLargeObjectSpace {
  num_bytes_allocated_ : Z;
  num_objects_allocated_ : Z;
  begin_ : Z;
  end_ : Z;
  live_bitmap_ : gset Z;
  los_log : list LosEvent
}.

Definition los_emit (ev : LosEvent) (b : LargeObjectSpace) : LargeObjectSpace :=
  mkLargeObjectSpace (num_bytes_allocated_ b) (num_objects_allocated_ b)
                     (begin_ b) (end_ b) (live_bitmap_ b) (los_log b ++ [ev]).

(** [--num_objects_allocated_; num_bytes_allocated_ -= allocation_size;] on
    the two [uint64_t] counters. *)
Definition los_account_free (allocation_size : Z) (b : LargeObjectSpace)
  : LargeObjectSpace :=
  mkLargeObjectSpace (to_uint64 (num_bytes_allocated_ b - allocation_size))
                     (to_uint64 (num_objects_allocated_ b - 1))
                     (begin_ b) (end_ b) (live_bitmap_ b) (los_log b).

(** Modelled from the spec: [niel::swap::GcRecordFree(self, ptr)]
    (niel_swap.h is not in src) is the free-notification hook; the state of
    the swap layer is not part of the space, so the call is its event. *)
Definition GcRecordFree (self ptr : Z) (b : LargeObjectSpace) : LargeObjectSpace :=
  los_emit (LosGcRecordFree self ptr) b.

(** *** LargeObjectMapSpace *)

Record LargeObject : Type := mkLargeObject {
  mem_map_BaseSize : Z;
  is_zygote : bool
}.

Record LargeObjectMapSpace : Type := mkLargeObjectMapSpace {
  map_base : LargeObjectSpace;
  large_objects_ : gmap Z LargeObject
}.

(** [LargeObjectMapSpace::Free].  The result is the freed size, or [None]
    when the call dies in [LOG(FATAL)]; the space is returned in both
    cases. *)
Definition LargeObjectMapSpace_Free (self ptr : Z) (sp : LargeObjectMapSpace)
  : option Z * LargeObjectMapSpace :=
  let b := GcRecordFree self ptr (map_base sp) in
  match large_objects_ sp !! ptr with
  | None =>
      (None, mkLargeObjectMapSpace (los_emit LosFatal b) (large_objects_ sp))
  | Some it =>
      let map_size := mem_map_BaseSize it in
      let allocation_size := map_size in
      let b := los_account_free allocation_size b in
      let b := los_emit (LosRelease self ptr) b in
      let b := los_emit (LosInstRecordFree allocation_size 1) b in
      (Some allocation_size,
       mkLargeObjectMapSpace b (delete ptr (large_objects_ sp)))
  end.

(** *** FreeListSpace *)

Definition kFlagFree : Z := 0x80000000.
Definition kFlagZygote : Z := 0x40000000.
Definition kFlagsMask : Z := to_uint32 (Z.lnot (Z.lor kFlagFree kFlagZygote)).

(** One [AllocationInfo]: two [uint32_t] words. *)
Record AllocationInfo : Type := mkAllocationInfo {
  prev_free_ : Z;
  alloc_size_ : Z
}.

Definition AlignSize (i : AllocationInfo) : Z := Z.land (alloc_size_ i) kFlagsMask.
Definition IsFree (i : AllocationInfo) : bool :=
  negb (Z.land (alloc_size_ i) kFlagFree =? 0).
Definition GetPrevFree (i : AllocationInfo) : Z := prev_free_ i.

Section FreeListSpaces.

(** [kPageSize] (globals.h is not in src); [FreeListSpace::kAlignment] is
    defined as [kPageSize]. *)
Variable kPageSize : Z.

Definition kAlignment : Z := kPageSize.

Definition ByteSize (i : AllocationInfo) : Z := AlignSize i * kAlignment.

Definition SetByteSize (size : Z) (free : bool) (i : AllocationInfo)
  : AllocationInfo :=
  mkAllocationInfo (prev_free_ i)
    (to_uint32 (Z.lor (size / kAlignment) (if free then kFlagFree else 0))).

Definition GetPrevFreeBytes (i : AllocationInfo) : Z :=
  GetPrevFree i * kAlignment.

Definition SetPrevFreeBytes (bytes : Z) (i : AllocationInfo) : AllocationInfo :=
  mkAllocationInfo (to_uint32 (bytes / kAlignment)) (alloc_size_ i).

(** The side table [allocation_info_] is indexed by slot; a pointer to an
    [AllocationInfo] is its slot index.  The table lives in an anonymous
    mapping, so a slot never written reads as zero.  [free_blocks_] is an
    ordered set of such pointers; the code only tests membership of a known
    element in it ([lower_bound] followed by a [CHECK_EQ] against the
    element), inserts and erases. *)
Record FreeListSpace : Type := mkFreeListSpace {
  fl_base : LargeObjectSpace;
  allocation_info_ : gmap Z AllocationInfo;
  free_end_ : Z;
  free_blocks_ : gset Z
}.

Definition info_at (sp : FreeListSpace) (slot : Z) : AllocationInfo :=
  default (mkAllocationInfo 0 0) (allocation_info_ sp !! slot).

Definition set_info (slot : Z) (i : AllocationInfo) (sp : FreeListSpace)
  : FreeListSpace :=
  mkFreeListSpace (fl_base sp) (<[slot := i]> (allocation_info_ sp))
                  (free_end_ sp) (free_blocks_ sp).

Definition fl_with_base (b : LargeObjectSpace) (sp : FreeListSpace)
  : FreeListSpace :=
  mkFreeListSpace b (allocation_info_ sp) (free_end_ sp) (free_blocks_ sp).

Definition fl_emit (ev : LosEvent) (sp : FreeListSpace) : FreeListSpace :=
  fl_with_base (los_emit ev (fl_base sp)) sp.

(** [(address - Begin()) / kAlignment] *)
Definition GetSlotIndexForAddress (sp : FreeListSpace) (address : Z) : Z :=
  to_uint64 (address - begin_ (fl_base sp)) / kAlignment.

Definition GetAllocationInfoForAddress := GetSlotIndexForAddress.

(** [Begin() + slot * kAlignment] *)
Definition GetAddressForAllocationInfo (sp : FreeListSpace) (info : Z) : Z :=
  to_uint64 (begin_ (fl_base sp) + info * kAlignment).

(** [this + AlignSize()] *)
Definition GetNextInfo (sp : FreeListSpace) (info : Z) : Z :=
  info + AlignSize (info_at sp info).

(** [this - prev_free_] *)
Definition GetPrevFreeInfo (sp : FreeListSpace) (info : Z) : Z :=
  info - GetPrevFree (info_at sp info).

(** [RemoveFreePrev]: three CHECKs, then the erase; [None] when a CHECK
    fails. *)
Definition RemoveFreePrev (info : Z) (sp : FreeListSpace) : option FreeListSpace :=
  if (0 <? GetPrevFree (info_at sp info)) && bool_decide (info ∈ free_blocks_ sp)
  then Some (mkFreeListSpace (fl_base sp) (allocation_info_ sp) (free_end_ sp)
                             (free_blocks_ sp ∖ {[ info ]}))
  else None.

(** The tail of [FreeListSpace::Free] once the block is coalesced with its
    neighbours: the counters, the instrumentation record and the return. *)
Definition FreeListSpace_Free_finish (allocation_size : Z) (sp : FreeListSpace)
  : option Z * FreeListSpace :=
  let b := los_account_free allocation_size (fl_base sp) in
  let b := los_emit (LosInstRecordFree allocation_size 1) b in
  (Some allocation_size, fl_with_base b sp).

(** [FreeListSpace::Free]. *)
Definition FreeListSpace_Free (self obj : Z) (sp : FreeListSpace)
  : option Z * FreeListSpace :=
  let sp := fl_with_base (GcRecordFree self obj (fl_base sp)) sp in
  let info := GetAllocationInfoForAddress sp obj in
  let allocation_size := ByteSize (info_at sp info) in
  (* madvise the pages without lock *)
  let sp := fl_emit (LosMadvise obj allocation_size) sp in
  (* MutexLock mu(self, lock_); *)
  let sp := set_info info (SetByteSize allocation_size true (info_at sp info)) sp in
  let sp := fl_emit (LosRelease self obj) sp in
  let next_info := GetNextInfo sp info in
  let free_end_start := to_uint64 (end_ (fl_base sp) - free_end_ sp) in
  let prev_free_bytes := GetPrevFreeBytes (info_at sp info) in
  let new_free_size := allocation_size in
  let coalesced :=
    if prev_free_bytes =? 0 then Some (sp, info, new_free_size)
    else match RemoveFreePrev info sp with
         | Some sp' =>
             Some (sp', GetPrevFreeInfo sp' info,
                   to_uint64 (new_free_size + prev_free_bytes))
         | None => None
         end in
  match coalesced with
  | None => (None, fl_emit LosFatal sp)
  | Some (sp, info, new_free_size) =>
      let next_addr := GetAddressForAllocationInfo sp next_info in
      if free_end_start <=? next_addr then
        if next_addr =? free_end_start then
          FreeListSpace_Free_finish allocation_size
            (mkFreeListSpace (fl_base sp) (allocation_info_ sp)
                             (to_uint64 (free_end_ sp + new_free_size))
                             (free_blocks_ sp))
        else (None, fl_emit LosFatal sp)
      else
        let merged :=
          if IsFree (info_at sp next_info) then
            let next_next_info := GetNextInfo sp next_info in
            match RemoveFreePrev next_next_info sp with
            | Some sp' =>
                Some (sp', next_next_info,
                      to_uint64 (new_free_size +
                                 GetPrevFreeBytes (info_at sp next_next_info)))
            | None => None
            end
          else Some (sp, next_info, new_free_size) in
        match merged with
        | None => (None, fl_emit LosFatal sp)
        | Some (sp, new_free_info, new_free_size) =>
            let sp := set_info new_free_info
                        (SetPrevFreeBytes new_free_size
                                          (info_at sp new_free_info)) sp in
            let sp := mkFreeListSpace (fl_base sp) (allocation_info_ sp)
                                      (free_end_ sp)
                                      ({[ new_free_info ]} ∪ free_blocks_ sp) in
            let sp := set_info info
                        (SetByteSize new_free_size true (info_at sp info)) sp in
            FreeListSpace_Free_finish allocation_size sp
        end
  end.

(** *** The two spaces behind the virtual [Free] *)

Inductive Space : Type :=
| MapSpace (m : LargeObjectMapSpace)
| FreeListSpaceOf (f : FreeListSpace).

Definition base_of (sp : Space) : LargeObjectSpace :=
  match sp with
  | MapSpace m => map_base m
  | FreeListSpaceOf f => fl_base f
  end.

Definition with_base (b : LargeObjectSpace) (sp : Space) : Space :=
  match sp with
  | MapSpace m => MapSpace (mkLargeObjectMapSpace b (large_objects_ m))
  | FreeListSpaceOf f => FreeListSpaceOf (fl_with_base b f)
  end.

(** [virtual size_t Free(Thread* self, mirror::Object* obj)] *)
Definition Free (self ptr : Z) (sp : Space) : option Z * Space :=
  match sp with
  | MapSpace m =>
      let '(r, m') := LargeObjectMapSpace_Free self ptr m in (r, MapSpace m')
  | FreeListSpaceOf f =>
      let '(r, f') := FreeListSpace_Free self ptr f in (r, FreeListSpaceOf f')
  end.

(** [LargeObjectSpace::FreeList]: [total += Free(self, ptrs[i])] over the
    array; a fatal [Free] ends the run. *)
Fixpoint FreeList_from (total : Z) (self : Z) (ptrs : list Z) (sp : Space)
  : option Z * Space :=
  match ptrs with
  | [] => (Some total, sp)
  | ptr :: rest =>
      match Free self ptr sp with
      | (Some size, sp') => FreeList_from (to_uint64 (total + size)) self rest sp'
      | (None, sp') => (None, sp')
      end
  end.

Definition FreeList (self : Z) (ptrs : list Z) (sp : Space) : option Z * Space :=
  FreeList_from 0 self ptrs sp.

(** [LargeObjectSpace::SweepCallback]: clear the live bits unless the
    bitmaps were swapped, then [FreeList].  The freed totals of the context
    are the result. *)
Definition clear_live_bits (ptrs : list Z) (b : LargeObjectSpace)
  : LargeObjectSpace :=
  foldl (fun b ptr =>
           los_emit (LosBitmapClear ptr)
             (mkLargeObjectSpace (num_bytes_allocated_ b)
                                 (num_objects_allocated_ b) (begin_ b) (end_ b)
                                 (live_bitmap_ b ∖ {[ ptr ]}) (los_log b)))
        b ptrs.

Definition SweepCallback (swap_bitmaps : bool) (self : Z) (ptrs : list Z)
           (sp : Space) : option (Z * Z) * Space :=
  let sp := if swap_bitmaps then sp
            else with_base (clear_live_bits ptrs (base_of sp)) sp in
  match FreeList self ptrs sp with
  | (Some bytes, sp') => (Some (Z.of_nat (length ptrs), bytes), sp')
  | (None, sp') => (None, sp')
  end.

End FreeListSpaces.

(** The free-notification discipline on a log: every release of an address
    by a thread has, before it, a [GcRecordFree] of that thread for that
    address with no release in between. *)
Definition is_release (ev : LosEvent) : bool :=
  match ev with LosRelease _ _ => true | _ => false end.

Definition hook_precedes_release (l : list LosEvent) : Prop :=
  forall (i : nat) (self ptr : Z),
    l !! i = Some (LosRelease self ptr) ->
    exists j : nat,
      (j < i)%nat /\
      l !! j = Some (LosGcRecordFree self ptr) /\
      forall (k : nat) (ev : LosEvent),
        (j < k < i)%nat -> l !! k = Some ev -> is_release ev = false.

(** The events of one [Free]: the hook first, then at most one release,
    which is the release of the same address by the same thread. *)
Inductive free_block (self ptr : Z) : list LosEvent -> Prop :=
| block_map_fatal :
    free_block self ptr [LosGcRecordFree self ptr; LosFatal]
| block_map_freed size :
    free_block self ptr
      [LosGcRecordFree self ptr; LosRelease self ptr; LosInstRecordFree size 1]
| block_list_fatal size :
    free_block self ptr
      [LosGcRecordFree self ptr; LosMadvise ptr size; LosRelease self ptr;
       LosFatal]
| block_list_freed size :
    free_block self ptr
      [LosGcRecordFree self ptr; LosMadvise ptr size; LosRelease self ptr;
       LosInstRecordFree size 1].

(** ** Allocation of large objects (heap-inl.h) *)

Inductive AllocatorType : Type :=
| kAllocatorTypeBumpPointer
| kAllocatorTypeTLAB
| kAllocatorTypeRosAlloc
| kAllocatorTypeDlMalloc
| kAllocatorTypeNonMoving
| kAllocatorTypeLOS
| kAllocatorTypeRegion
| kAllocatorTypeRegionTLAB.

#[global] Instance AllocatorType_eq_dec : EqDecision AllocatorType.
Proof. solve_decision. Defined.

(** What [ShouldAllocLargeObject] asks of a class. *)
Record Class : Type := mkClass {
  IsPrimitiveArray : bool;
  IsStringClass : bool
}.

(** The allocators behind [AllocObjectWithAllocator] (the TLAB and RosAlloc
    fast paths, [TryToAllocate] with the spaces under it, and
    [AllocateInternalWithGc]) are not modelled: every attempt to allocate
    takes the next answer of the world, an address or a failure.  A failed
    [AllocateInternalWithGc] also says whether it left an exception
    pending. *)
Inductive AllocAnswer : Type :=
| Allocated (addr : Z)
| Failed (exception_pending : bool).

Inductive AllocEvent : Type :=
| AeAllocated (allocator : AllocatorType) (obj : Z)
| AeSetNoSwapFlag (obj : Z)
| AeClearException
| AePublished (obj : Z).   (* SetClass, statistics, listeners, allocation stack *)

Record AllocWorld : Type := mkAllocWorld {
  aw_heap : gmap Z ObjectRep;
  aw_space : gmap Z AllocatorType;   (* the allocator each object came from *)
  aw_is_zygote : bool;               (* Runtime::Current()->IsZygote() *)
  large_object_threshold_ : Z;
  aw_exception_pending : bool;       (* self->IsExceptionPending() *)
  aw_answers : list AllocAnswer;
  aw_log : list AllocEvent
}.

Definition aw_emit (ev : AllocEvent) (w : AllocWorld) : AllocWorld :=
  mkAllocWorld (aw_heap w) (aw_space w) (aw_is_zygote w)
               (large_object_threshold_ w) (aw_exception_pending w)
               (aw_answers w) (aw_log w ++ [ev]).

(** Zero-filled memory of a new object. *)
Definition fresh_object : ObjectRep :=
  mkObjectRep false false false false false false 0%nat ∅.

(** One attempt to allocate with [allocator]: the address (0 for null) and
    the world with the new object in place; [None] when the world has no
    answer left. *)
Definition allocate_with (allocator : AllocatorType) (sets_exception : bool)
           (w : AllocWorld) : option (Z * AllocWorld) :=
  match aw_answers w with
  | [] => None
  | Allocated addr :: rest =>
      Some (addr,
            mkAllocWorld (<[addr := fresh_object]> (aw_heap w))
                         (<[addr := allocator]> (aw_space w))
                         (aw_is_zygote w) (large_object_threshold_ w)
                         (aw_exception_pending w) rest
                         (aw_log w ++ [AeAllocated allocator addr]))
  | Failed pending :: rest =>
      Some (0,
            mkAllocWorld (aw_heap w) (aw_space w) (aw_is_zygote w)
                         (large_object_threshold_ w)
                         (if sets_exception then pending
                          else aw_exception_pending w)
                         rest (aw_log w))
  end.

(** [byte_count >= large_object_threshold_ &&
     (c->IsPrimitiveArray() || c->IsStringClass())] *)
Definition ShouldAllocLargeObject (w : AllocWorld) (c : Class) (byte_count : Z)
  : bool :=
  (large_object_threshold_ w <=? byte_count) &&
  (IsPrimitiveArray c || IsStringClass c).

(** [obj->SetNoSwapFlag()] on the object at [obj]; a dangling pointer does
    not return. *)
Definition aw_SetNoSwapFlag (obj : Z) (w : AllocWorld) : option AllocWorld :=
  match aw_heap w !! obj with
  | Some o =>
      Some (mkAllocWorld (<[obj := SetNoSwapFlag o]> (aw_heap w)) (aw_space w)
                         (aw_is_zygote w) (large_object_threshold_ w)
                         (aw_exception_pending w) (aw_answers w)
                         (aw_log w ++ [AeSetNoSwapFlag obj]))
  | None => None
  end.

Definition aw_ClearException (w : AllocWorld) : AllocWorld :=
  mkAllocWorld (aw_heap w) (aw_space w) (aw_is_zygote w)
               (large_object_threshold_ w) false (aw_answers w)
               (aw_log w ++ [AeClearException]).

Section Allocation.

(** [Heap::GetUpdatedAllocator] (heap.h is not in src): the allocator to
    retry with. *)
Variable GetUpdatedAllocator : AllocatorType -> AllocatorType.

(** [Heap::AllocObjectWithAllocator<kInstrumented, kCheckLargeObject>].
    [Heap::AllocLargeObject] is the call with [kCheckLargeObject = false] and
    [kAllocatorTypeLOS]; the retry after a change of allocator uses the
    default [kCheckLargeObject = true].  The result is the object, 0 for
    [nullptr]. *)
Fixpoint AllocObjectWithAllocator (fuel : nat) (kCheckLargeObject : bool)
         (self : Z) (klass : Class) (byte_count : Z)
         (allocator : AllocatorType) (w : AllocWorld)
  : option (Z * AllocWorld) :=
  match fuel with
  | O => None
  | S fuel' =>
      if kCheckLargeObject && ShouldAllocLargeObject w klass byte_count then
        (* obj = AllocLargeObject(self, &klass, byte_count, pre_fence_visitor) *)
        match AllocObjectWithAllocator fuel' false self klass byte_count
                                       kAllocatorTypeLOS w with
        | None => None
        | Some (obj, w) =>
            if negb (obj =? 0) then
              if aw_is_zygote w then
                match aw_SetNoSwapFlag obj w with
                | Some w => Some (obj, w)
                | None => None
                end
              else Some (obj, w)
            else
              AllocObjectWithAllocator fuel' false self klass byte_count
                                       (GetUpdatedAllocator allocator)
                                       (aw_ClearException w)
        end
      else
        match allocate_with allocator false w with
        | None => None
        | Some (obj, w) =>
            if negb (obj =? 0) then Some (obj, aw_emit (AePublished obj) w)
            else
              (* obj = AllocateInternalWithGc(...) *)
              match allocate_with allocator true w with
              | None => None
              | Some (obj, w) =>
                  if negb (obj =? 0)
                  then Some (obj, aw_emit (AePublished obj) w)
                  else if negb (aw_exception_pending w)
                       then AllocObjectWithAllocator
                              fuel' true self klass byte_count
                              (GetUpdatedAllocator allocator) w
                       else Some (0, w)
              end
        end
  end.

End Allocation.

(** ** JNI global references (java_vm_ext.cc) *)

Inductive VmEvent : Type :=
| VmSetNoSwapFlag (obj : Z)
| VmAddGlobal (obj ref : Z)
| VmAddWeakGlobal (obj ref : Z)
| VmFatal.

(** [IndirectReferenceTable] is outside src: a table is the list of its
    entries with a capacity; [Add] appends and hands out a non-null
    reference, or returns null when the table is full. *)
Record JavaVMExt : Type := mkJavaVMExt {
  vm_heap : gmap Z ObjectRep;
  globals_ : list Z;
  globals_capacity : nat;
  weak_globals_ : list Z;
  weak_globals_capacity : nat;
  kUseReadBarrier : bool;
  allow_accessing_weak_globals_ : bool;
  vm_log : list VmEvent
}.

Definition irt_Add (entries : list Z) (capacity : nat) (obj : Z)
  : option (Z * list Z) :=
  if decide (length entries < capacity)%nat
  then Some (Z.of_nat (S (length entries)), entries ++ [obj])
  else None.

(** [JavaVMExt::AddGlobalRef].  The result is the reference (0 for null);
    [None] is a call that does not return ([LOG(FATAL)] on a full table).
    The virtual machine is returned in both cases. *)
Definition AddGlobalRef (self obj : Z) (vm : JavaVMExt)
  : option Z * JavaVMExt :=
  if obj =? 0 then (Some 0, vm)
  else
    match vm_heap vm !! obj with
    | None => (None, vm)
    | Some o =>
        let heap' := <[obj := SetNoSwapFlag o]> (vm_heap vm) in
        let log' := vm_log vm ++ [VmSetNoSwapFlag obj] in
        match irt_Add (globals_ vm) (globals_capacity vm) obj with
        | Some (ref, globals') =>
            (Some ref,
             mkJavaVMExt heap' globals' (globals_capacity vm)
                         (weak_globals_ vm) (weak_globals_capacity vm)
                         (kUseReadBarrier vm) (allow_accessing_weak_globals_ vm)
                         (log' ++ [VmAddGlobal obj ref]))
        | None =>
            (None,
             mkJavaVMExt heap' (globals_ vm) (globals_capacity vm)
                         (weak_globals_ vm) (weak_globals_capacity vm)
                         (kUseReadBarrier vm) (allow_accessing_weak_globals_ vm)
                         (log' ++ [VmFatal]))
        end
    end.

(** [JavaVMExt::AddWeakGlobalRef].  Without read barriers the call waits
    while weak globals may not be accessed; nothing in a sequential run
    wakes it up, so that call does not return. *)
Definition AddWeakGlobalRef (self obj : Z) (vm : JavaVMExt)
  : option Z * JavaVMExt :=
  if obj =? 0 then (Some 0, vm)
  else
    match vm_heap vm !! obj with
    | None => (None, vm)
    | Some o =>
        let heap' := <[obj := SetNoSwapFlag o]> (vm_heap vm) in
        let log' := vm_log vm ++ [VmSetNoSwapFlag obj] in
        if negb (kUseReadBarrier vm) && negb (allow_accessing_weak_globals_ vm)
        then (None,
              mkJavaVMExt heap' (globals_ vm) (globals_capacity vm)
                          (weak_globals_ vm) (weak_globals_capacity vm)
                          (kUseReadBarrier vm)
                          (allow_accessing_weak_globals_ vm) log')
        else
          match irt_Add (weak_globals_ vm) (weak_globals_capacity vm) obj with
          | Some (ref, weak') =>
              (Some ref,
               mkJavaVMExt heap' (globals_ vm) (globals_capacity vm)
                           weak' (weak_globals_capacity vm)
                           (kUseReadBarrier vm)
                           (allow_accessing_weak_globals_ vm)
                           (log' ++ [VmAddWeakGlobal obj ref]))
          | None =>
              (None,
               mkJavaVMExt heap' (globals_ vm) (globals_capacity vm)
                           (weak_globals_ vm) (weak_globals_capacity vm)
                           (kUseReadBarrier vm)
                           (allow_accessing_weak_globals_ vm)
                           (log' ++ [VmFatal]))
          end
    end.

(** The no-swap flag of the object at [obj], false where there is none. *)
Definition no_swap_at (h : gmap Z ObjectRep) (obj : Z) : bool :=
  match h !! obj with
  | Some o => x_no_swap_flag o
  | None => false
  end.

(** A world that builds the zygote image and whose allocators will hand out
    address 8192 next; a virtual machine with one object and free tables. *)
Definition example_world : AllocWorld :=
  mkAllocWorld ∅ ∅ true 12288 false [Allocated 8192] [].

Definition example_vm : JavaVMExt :=
  mkJavaVMExt {[ 8192 := fresh_object ]} [] 4 [] 4 true true [].

(** * Further members of the embedded classes *)

(** ** AllocationInfo: the zygote flag and the order of the free blocks *)

(** [(alloc_size_ & kFlagZygote) != 0] *)
Definition IsZygoteObject (i : AllocationInfo) : bool :=
  negb (Z.land (alloc_size_ i) kFlagZygote =? 0).

(** [alloc_size_ |= kFlagZygote] *)
Definition SetZygoteObject (i : AllocationInfo) : AllocationInfo :=
  mkAllocationInfo (prev_free_ i) (Z.lor (alloc_size_ i) kFlagZygote).

(** [FreeListSpace::SortByPrevFree::operator()].  An operand is the
    [AllocationInfo] pointed to together with the pointer value. *)
Definition SortByPrevFree (a b : AllocationInfo * Z) : bool :=
  if GetPrevFree a.1 <? GetPrevFree b.1 then true
  else if GetPrevFree a.1 >? GetPrevFree b.1 then false
  else if AlignSize a.1 <? AlignSize b.1 then true
  else if AlignSize a.1 >? AlignSize b.1 then false
  else a.2 <? b.2.

(** ** Allocation in the large object spaces *)

(** [total_bytes_allocated_] and [total_objects_allocated_] of
    [LargeObjectSpace], which only the allocating members touch. *)
Record Totals : Type := mkTotals {
  total_bytes_allocated_ : Z;
  total_objects_allocated_ : Z
}.

(** What [Alloc] hands back: the object and its three out-parameters. *)
Record AllocOut : Type := mkAllocOut {
  out_obj : Z;
  out_bytes_allocated : Z;
  out_usable_size : Z;
  out_bytes_tl_bulk_allocated : Z
}.

(** [++num_objects_allocated_; num_bytes_allocated_ += allocation_size;] *)
Definition los_account_alloc (allocation_size : Z) (b : LargeObjectSpace)
  : LargeObjectSpace :=
  mkLargeObjectSpace (to_uint64 (num_bytes_allocated_ b + allocation_size))
                     (to_uint64 (num_objects_allocated_ b + 1))
                     (begin_ b) (end_ b) (live_bitmap_ b) (los_log b).

(** [++total_objects_allocated_; total_bytes_allocated_ += allocation_size;] *)
Definition totals_account_alloc (allocation_size : Z) (t : Totals) : Totals :=
  mkTotals (to_uint64 (total_bytes_allocated_ t + allocation_size))
           (to_uint64 (total_objects_allocated_ t + 1)).

Section MapSpaceAllocation.

(** [SafeMap::Put] (safe_map.h is not in src). *)
Variable Put : Z -> LargeObject -> gmap Z LargeObject -> gmap Z LargeObject.

(** [LargeObjectMapSpace::Alloc].  [mem_map] is what [MemMap::MapAnonymous]
    answers: [Begin()] and [BaseSize()] of a valid mapping, or [None].  The
    result is [None] for [nullptr].  [NIEL_INST_RECORD_ALLOC] writes the
    counters of the instrumentation, which are not members of the space. *)
Definition LargeObjectMapSpace_Alloc (self num_bytes : Z)
           (mem_map : option (Z * Z)) (sp : LargeObjectMapSpace) (t : Totals)
  : option AllocOut * LargeObjectMapSpace * Totals :=
  match mem_map with
  | None => (None, sp, t)
  | Some (obj, allocation_size) =>
      let large_objects := Put obj (mkLargeObject allocation_size false)
                               (large_objects_ sp) in
      let b := map_base sp in
      let begin' := if (begin_ b =? 0) || (obj <? begin_ b) then obj
                    else begin_ b in
      let end' := Z.max (end_ b) (to_uint64 (obj + allocation_size)) in
      let b := mkLargeObjectSpace (num_bytes_allocated_ b)
                                  (num_objects_allocated_ b) begin' end'
                                  (live_bitmap_ b) (los_log b) in
      let b := los_account_alloc allocation_size b in
      (Some (mkAllocOut obj allocation_size allocation_size allocation_size),
       mkLargeObjectMapSpace b large_objects,
       totals_account_alloc allocation_size t)
  end.

End MapSpaceAllocation.

(** [LargeObjectMapSpace::IsZygoteLargeObject]; [None] is the failed
    [CHECK]. *)
Definition LargeObjectMapSpace_IsZygoteLargeObject (self obj : Z)
           (sp : LargeObjectMapSpace) : option bool :=
  match large_objects_ sp !! obj with
  | Some it => Some (is_zygote it)
  | None => None
  end.

(** [LargeObjectMapSpace::AllocationSize]; [None] is the failed [CHECK]. *)
Definition LargeObjectMapSpace_AllocationSize (obj : Z)
           (sp : LargeObjectMapSpace) : option Z :=
  match large_objects_ sp !! obj with
  | Some it => Some (mem_map_BaseSize it)
  | None => None
  end.

(** [LargeObjectMapSpace::Contains] *)
Definition LargeObjectMapSpace_Contains (obj : Z) (sp : LargeObjectMapSpace)
  : bool :=
  match large_objects_ sp !! obj with
  | Some _ => true
  | None => false
  end.

(** [LargeObjectMapSpace::SetAllLargeObjectsAsZygoteObjects].  The mark bit
    is in the header of the object, outside the space:
    [AtomicSetMarkBit obj] tells whether [obj->AtomicSetMarkBit(0, 1)]
    succeeds.  [None] is a failed [CHECK(success)]. *)
Definition LargeObjectMapSpace_SetAllLargeObjectsAsZygoteObjects
           (AtomicSetMarkBit : Z -> bool) (self : Z) (set_mark_bit : bool)
           (sp : LargeObjectMapSpace) : option LargeObjectMapSpace :=
  if set_mark_bit &&
     negb (forallb AtomicSetMarkBit (elements (dom (large_objects_ sp))))
  then None
  else Some (mkLargeObjectMapSpace
               (map_base sp)
               ((fun lo => mkLargeObject (mem_map_BaseSize lo) true)
                  <$> large_objects_ sp)).

Section MemoryTool.

Variable kPageSize : Z.

(** [SafeMap::Put], as above. *)
Variable Put : Z -> LargeObject -> gmap Z LargeObject -> gmap Z LargeObject.

(** [kMemoryToolRedZoneBytes = kPageSize] *)
Definition kMemoryToolRedZoneBytes : Z := kPageSize.

(** [ObjectWithRedzone]: [uintptr_t(obj) - kMemoryToolRedZoneBytes] *)
Definition ObjectWithRedzone (obj : Z) : Z :=
  to_uint64 (obj - kMemoryToolRedZoneBytes).

(** [MemoryToolLargeObjectMapSpace::Alloc].  [mem_map] answers the request
    for [num_bytes + kMemoryToolRedZoneBytes * 2] bytes.  The red zone is
    added to whatever the base class returned, [nullptr] included.  The
    result is the returned pointer, the value written to [*usable_size],
    and what the call of the base class gave ([bytes_allocated] and
    [bytes_tl_bulk_allocated] are written by the base class only). *)
Definition MemoryToolLargeObjectMapSpace_Alloc (self num_bytes : Z)
           (mem_map : option (Z * Z)) (sp : LargeObjectMapSpace) (t : Totals)
  : Z * Z * option AllocOut * LargeObjectMapSpace * Totals :=
  let '(r, sp', t') :=
    LargeObjectMapSpace_Alloc
      Put self (to_uint64 (num_bytes + kMemoryToolRedZoneBytes * 2))
      mem_map sp t in
  let obj := match r with Some o => out_obj o | None => 0 end in
  let object_without_rdz := to_uint64 (obj + kMemoryToolRedZoneBytes) in
  let usable_size := num_bytes in
  (object_without_rdz, usable_size, r, sp', t').

(** [MemoryToolLargeObjectMapSpace::AllocationSize] *)
Definition MemoryToolLargeObjectMapSpace_AllocationSize (obj : Z)
           (sp : LargeObjectMapSpace) : option Z :=
  LargeObjectMapSpace_AllocationSize (ObjectWithRedzone obj) sp.

(** [MemoryToolLargeObjectMapSpace::Free]: the size is asked for first, and
    its [CHECK] ends the call for an object that is not live. *)
Definition MemoryToolLargeObjectMapSpace_Free (self obj : Z)
           (sp : LargeObjectMapSpace) : option Z * LargeObjectMapSpace :=
  let object_with_rdz := ObjectWithRedzone obj in
  match MemoryToolLargeObjectMapSpace_AllocationSize obj sp with
  | None => (None, mkLargeObjectMapSpace (los_emit LosFatal (map_base sp))
                                         (large_objects_ sp))
  | Some _ => LargeObjectMapSpace_Free self object_with_rdz sp
  end.

End MemoryTool.

Section FreeListAlloc.

Variable kPageSize : Z.

(** [RoundUp] (bit_utils.h is not in src). *)
Variable RoundUp : Z -> Z -> Z.

(** [sizeof(AllocationInfo)]: two [uint32_t]. *)
Definition sizeof_AllocationInfo : Z := 8.

(** The table [allocation_info_] starts at [allocation_info_ptr]; the
    comparator of [free_blocks_] sees an element as its contents and its
    pointer value. *)
Definition info_pointer (allocation_info_ptr slot : Z) : Z :=
  allocation_info_ptr + slot * sizeof_AllocationInfo.

Definition info_operand (allocation_info_ptr : Z) (sp : FreeListSpace)
           (slot : Z) : AllocationInfo * Z :=
  (info_at sp slot, info_pointer allocation_info_ptr slot).

(** [free_blocks_.lower_bound(&temp_info)]: the least element, in the order
    of [SortByPrevFree], that is not less than the operand; [None] is
    [free_blocks_.end()].  The set is ordered by the contents its elements
    have now: the code erases an element before it writes its [prev_free_],
    and never changes the size in pages of an element of the set. *)
Definition lower_bound (allocation_info_ptr : Z) (sp : FreeListSpace)
           (temp : AllocationInfo * Z) : option Z :=
  foldr (fun slot best =>
           if SortByPrevFree (info_operand allocation_info_ptr sp slot) temp
           then best
           else match best with
                | Some b =>
                    if SortByPrevFree (info_operand allocation_info_ptr sp slot)
                                      (info_operand allocation_info_ptr sp b)
                    then Some slot else best
                | None => Some slot
                end)
        None (elements (free_blocks_ sp)).

(** The constructor: the whole capacity is the free end, and the side table
    is a fresh anonymous mapping. *)
Definition FreeListSpace_new (begin end' : Z) : FreeListSpace :=
  mkFreeListSpace (mkLargeObjectSpace 0 0 begin end' ∅ [])
                  ∅ (to_uint64 (end' - begin)) ∅.

(** The end of [FreeListSpace::Alloc], once [new_info] is chosen. *)
Definition FreeListSpace_Alloc_finish (allocation_size new_info : Z)
           (sp : FreeListSpace) (t : Totals)
  : option AllocOut * FreeListSpace * Totals :=
  let sp := fl_with_base (los_account_alloc allocation_size (fl_base sp)) sp in
  let t := totals_account_alloc allocation_size t in
  let obj := GetAddressForAllocationInfo kPageSize sp new_info in
  let sp := set_info new_info
              (SetPrevFreeBytes kPageSize 0 (info_at sp new_info)) sp in
  let sp := set_info new_info
              (SetByteSize kPageSize allocation_size false
                           (info_at sp new_info)) sp in
  (Some (mkAllocOut obj allocation_size allocation_size allocation_size),
   sp, t).

(** [FreeListSpace::Alloc].  [temp_info_ptr] is the address of the local
    [temp_info]. *)
Definition FreeListSpace_Alloc (allocation_info_ptr temp_info_ptr : Z)
           (self num_bytes : Z) (sp : FreeListSpace) (t : Totals)
  : option AllocOut * FreeListSpace * Totals :=
  let allocation_size := RoundUp num_bytes (kAlignment kPageSize) in
  let temp_info := mkAllocationInfo 0 0 in
  let temp_info := SetPrevFreeBytes kPageSize allocation_size temp_info in
  let temp_info := SetByteSize kPageSize 0 false temp_info in
  match lower_bound allocation_info_ptr sp (temp_info, temp_info_ptr) with
  | Some info =>
      let sp := mkFreeListSpace (fl_base sp) (allocation_info_ sp)
                                (free_end_ sp) (free_blocks_ sp ∖ {[ info ]}) in
      let new_info := GetPrevFreeInfo sp info in
      let sp := set_info info
                  (SetPrevFreeBytes kPageSize
                     (to_uint64 (GetPrevFreeBytes kPageSize (info_at sp info)
                                 - allocation_size))
                     (info_at sp info)) sp in
      let sp :=
        if 0 <? GetPrevFreeBytes kPageSize (info_at sp info) then
          let new_free := info - GetPrevFree (info_at sp info) in
          let sp := set_info new_free
                      (SetPrevFreeBytes kPageSize 0 (info_at sp new_free)) sp in
          let sp := set_info new_free
                      (SetByteSize kPageSize
                         (GetPrevFreeBytes kPageSize (info_at sp info)) true
                         (info_at sp new_free)) sp in
          mkFreeListSpace (fl_base sp) (allocation_info_ sp) (free_end_ sp)
                          ({[ info ]} ∪ free_blocks_ sp)
        else sp in
      FreeListSpace_Alloc_finish allocation_size new_info sp t
  | None =>
      if allocation_size <=? free_end_ sp then
        let new_info :=
          GetAllocationInfoForAddress
            kPageSize sp (to_uint64 (end_ (fl_base sp) - free_end_ sp)) in
        let sp := mkFreeListSpace (fl_base sp) (allocation_info_ sp)
                                  (to_uint64 (free_end_ sp - allocation_size))
                                  (free_blocks_ sp) in
        FreeListSpace_Alloc_finish allocation_size new_info sp t
      else (None, sp, t)
  end.

(** The [temp_info] that [Alloc] builds for a request of [n] pages:
    [n] pages of previous free space and size zero. *)
Definition request (n : Z) : AllocationInfo :=
  SetByteSize kPageSize 0 false
    (SetPrevFreeBytes kPageSize (n * kPageSize) (mkAllocationInfo 0 0)).

(** [FreeListSpace::AllocationSize] *)
Definition FreeListSpace_AllocationSize (obj : Z) (sp : FreeListSpace) : Z :=
  ByteSize kPageSize
           (info_at sp (GetAllocationInfoForAddress kPageSize sp obj)).

(** [FreeListSpace::IsZygoteLargeObject] *)
Definition FreeListSpace_IsZygoteLargeObject (self obj : Z)
           (sp : FreeListSpace) : bool :=
  IsZygoteObject (info_at sp (GetAllocationInfoForAddress kPageSize sp obj)).

End FreeListAlloc.

(** ** Object::VisitFieldsReferences (object-inl.h) *)

Section FieldVisit.

(** [mirror::kObjectHeaderSize], [Class::kClassWalkSuper] and
    [Object::ClassOffset()] (object.h and class.h are not in src). *)
Variables kObjectHeaderSize kClassWalkSuper ClassOffset : Z.

(** [sizeof(mirror::HeapReference<mirror::Object>)] (object_reference.h is
    not in src). *)
Variable sizeof_HeapReference : Z.

(** What the slow path asks of a class: the number of reference fields and
    the offset of the first one (the static or the instance ones, as
    [kIsStatic] says). *)
Record ClassRefs : Type := mkClassRefs {
  NumReferenceFields : Z;
  FirstReferenceFieldOffset : Z
}.

(** The loop of the fast path over the bitmap; the result is the offsets
    handed to the visitor, in the order of the calls.  [fuel] bounds the
    number of iterations. *)
Fixpoint visit_bitmap (fuel : nat) (ref_offsets field_offset : Z) : list Z :=
  match fuel with
  | O => []
  | S fuel' =>
      if ref_offsets =? 0 then []
      else
        (if negb (Z.land ref_offsets 1 =? 0) then [field_offset] else []) ++
        visit_bitmap fuel' (Z.shiftr ref_offsets 1)
                     (to_uint32 (field_offset + sizeof_HeapReference))
  end.

(** The inner loop of the slow path: [n] reference fields from
    [field_offset] on, the class field left out. *)
Fixpoint visit_class_fields (n : nat) (field_offset : Z) : list Z :=
  match n with
  | O => []
  | S n' =>
      (if negb (field_offset =? ClassOffset) then [field_offset] else []) ++
      visit_class_fields n' (to_uint32 (field_offset + sizeof_HeapReference))
  end.

(** The body of [VisitFieldsReferences] below the preamble.  [as_class] is
    [AsClass()] and [class_chain] is [GetClass()] followed by its
    superclasses up to the root. *)
Definition VisitFieldsReferences_body (kIsStatic : bool) (ref_offsets : Z)
           (as_class : ClassRefs) (class_chain : list ClassRefs) : list Z :=
  if negb kIsStatic && negb (ref_offsets =? kClassWalkSuper) then
    visit_bitmap 32 ref_offsets kObjectHeaderSize
  else
    flat_map
      (fun klass =>
         if NumReferenceFields klass =? 0 then []
         else visit_class_fields (Z.to_nat (NumReferenceFields klass))
                                 (FirstReferenceFieldOffset klass))
      (if kIsStatic then [as_class] else class_chain).

End FieldVisit.

(** ** JavaVMExt: environment hooks, allocation tracking, weak globals *)

Section GetEnv.

(** [JNI_OK] and [JNI_EVERSION] (jni.h is not in src). *)
Variables JNI_OK JNI_EVERSION : Z.

(** A [GetEnvHook]: from what [*env] holds and the version to the result
    and what [*env] holds afterwards. *)
Definition GetEnvHook : Type := Z -> Z -> Z * Z.

(** [JavaVMExt::HandleGetEnv]: the result and [*env]. *)
Fixpoint HandleGetEnv (env_hooks_ : list GetEnvHook) (env version : Z)
  : Z * Z :=
  match env_hooks_ with
  | [] => (JNI_EVERSION, env)
  | hook :: rest =>
      let '(res, env') := hook env version in
      if res =? JNI_OK then (JNI_OK, env')
      else if negb (res =? JNI_EVERSION) then (res, env')
      else HandleGetEnv rest env' version
  end.

(** [JavaVMExt::AddEnvironmentHook] *)
Definition AddEnvironmentHook (hook : GetEnvHook)
           (env_hooks_ : list GetEnvHook) : list GetEnvHook :=
  env_hooks_ ++ [hook].

End GetEnv.

(** The members that [CheckGlobalRefAllocationTracking] reads and writes,
    with the switch of the heap behind [IsAllocTrackingEnabled] and
    [SetAllocTrackingEnabled]. *)
Record GlobalRefTracking : Type := mkGlobalRefTracking {
  enable_allocation_tracking_delta_ : Z;
  allocation_tracking_enabled_ : bool;
  old_allocation_tracking_state_ : bool;
  IsAllocTrackingEnabled : bool
}.

(** [JavaVMExt::CheckGlobalRefAllocationTracking];
    [simple_free_capacity] is [globals_.FreeCapacity()]. *)
Definition CheckGlobalRefAllocationTracking (simple_free_capacity : Z)
           (g : GlobalRefTracking) : GlobalRefTracking :=
  if enable_allocation_tracking_delta_ g =? 0 then g
  else if simple_free_capacity <=? enable_allocation_tracking_delta_ g then
    if negb (allocation_tracking_enabled_ g) then
      let old := IsAllocTrackingEnabled g in
      mkGlobalRefTracking (enable_allocation_tracking_delta_ g) true old
                          (if negb old then true else IsAllocTrackingEnabled g)
    else g
  else
    if allocation_tracking_enabled_ g then
      mkGlobalRefTracking (enable_allocation_tracking_delta_ g) false
                          (old_allocation_tracking_state_ g)
                          (if negb (old_allocation_tracking_state_ g)
                           then false else IsAllocTrackingEnabled g)
    else g.

(** [JavaVMExt::SweepJniWeakGlobals] on the entries of [weak_globals_]:
    [IsMarked] is the visitor (0 for an object that is not marked) and
    [cleared] is [Runtime::GetClearedJniWeakGlobal()]. *)
Definition SweepJniWeakGlobals (IsMarked : Z -> Z) (cleared : Z)
           (weak_globals : list Z) : list Z :=
  (fun entry =>
     if negb (entry =? 0) then
       let new_obj := IsMarked entry in
       if new_obj =? 0 then cleared else new_obj
     else entry) <$> weak_globals.

(** ** Heap::IsOutOfMemoryOnAllocation (heap-inl.h) *)

Record HeapLimits : Type := mkHeapLimits {
  target_footprint_ : Z;
  heap_num_bytes_allocated_ : Z;
  growth_limit_ : Z
}.

(** [concurrent] is [AllocatorMayHaveConcurrentGC(allocator_type) &&
    IsGcConcurrent()] (heap.h is not in src).  No other thread runs, so
    [old_target] is the value of [target_footprint_] throughout and the
    weak compare-exchange can only fail spuriously; [spurious] is how often
    it does before it succeeds.  The result is the answer and the heap. *)
Fixpoint IsOutOfMemoryOnAllocation (spurious : nat) (concurrent : bool)
         (alloc_size : Z) (grow : bool) (h : HeapLimits)
  : bool * HeapLimits :=
  let old_target := target_footprint_ h in
  let old_allocated := heap_num_bytes_allocated_ h in
  let new_footprint := to_uint64 (old_allocated + alloc_size) in
  if new_footprint <=? old_target then (false, h)
  else if growth_limit_ h <? new_footprint then (true, h)
  else if concurrent then (false, h)
  else if grow then
    match spurious with
    | S spurious' =>
        IsOutOfMemoryOnAllocation spurious' concurrent alloc_size grow h
    | O =>
        (false,
         mkHeapLimits new_footprint (heap_num_bytes_allocated_ h)
                      (growth_limit_ h))
    end
  else (true, h).

(** ** Array::CreateMultiArray (array.cc) *)

Inductive ArrayEvent : Type :=
| EvThrowNegativeArraySize (i dimension : Z)
| EvFindArrayClass
| EvArrayAlloc (length : Z) (result : Z)
| EvSetElement (array i sub_array : Z).

(** [Array::Alloc] and [ClassLinker::FindArrayClass] are outside src: the
    [k]-th allocation returns [alloc_answer k] (0 for [nullptr], with an
    exception pending) and the [k]-th class lookup succeeds or not as
    [find_class_answer k] says. *)
Record ArrayWorld : Type := mkArrayWorld {
  alloc_answer : nat -> Z;
  find_class_answer : nat -> bool;
  allocs_done : nat;
  finds_done : nat;
  array_log : list ArrayEvent
}.

Definition Array_Alloc (array_length : Z) (w : ArrayWorld)
  : Z * ArrayWorld :=
  let r := alloc_answer w (allocs_done w) in
  (r, mkArrayWorld (alloc_answer w) (find_class_answer w)
                   (S (allocs_done w)) (finds_done w)
                   (array_log w ++ [EvArrayAlloc array_length r])).

Definition FindArrayClass (w : ArrayWorld) : bool * ArrayWorld :=
  (find_class_answer w (finds_done w),
   mkArrayWorld (alloc_answer w) (find_class_answer w) (allocs_done w)
                (S (finds_done w)) (array_log w ++ [EvFindArrayClass])).

Definition array_emit (ev : ArrayEvent) (w : ArrayWorld) : ArrayWorld :=
  mkArrayWorld (alloc_answer w) (find_class_answer w) (allocs_done w)
               (finds_done w) (array_log w ++ [ev]).

(** [RecursiveCreateMultiArray]; the argument is [dimensions] from
    [current_dimension] on, which the callers keep non-empty.  The result
    is the array, 0 for [nullptr]. *)
Fixpoint RecursiveCreateMultiArray (dimensions : list Z) (w : ArrayWorld)
  : Z * ArrayWorld :=
  match dimensions with
  | [] => (0, w)
  | array_length :: rest =>
      let '(new_array, w) := Array_Alloc array_length w in
      if new_array =? 0 then (0, w)
      else
        match rest with
        | [] => (new_array, w)
        | _ :: _ =>
            (fix sub_arrays (n : nat) (i : Z) (w : ArrayWorld)
               : Z * ArrayWorld :=
               match n with
               | O => (new_array, w)
               | S n' =>
                   let '(sub_array, w) := RecursiveCreateMultiArray rest w in
                   if sub_array =? 0 then (0, w)
                   else sub_arrays n' (i + 1)
                          (array_emit (EvSetElement new_array i sub_array) w)
               end) (Z.to_nat array_length) 0 w
        end
  end.

(** The first loop of [CreateMultiArray]: the index and value of the first
    negative dimension. *)
Fixpoint first_negative (i : Z) (dimensions : list Z) : option (Z * Z) :=
  match dimensions with
  | [] => None
  | dimension :: rest =>
      if dimension <? 0 then Some (i, dimension)
      else first_negative (i + 1) rest
  end.

(** [n] class lookups in a row; [false] when one of them fails. *)
Fixpoint find_array_classes (n : nat) (w : ArrayWorld) : bool * ArrayWorld :=
  match n with
  | O => (true, w)
  | S n' =>
      let '(ok, w) := FindArrayClass w in
      if ok then find_array_classes n' w else (false, w)
  end.

(** [Array::CreateMultiArray]: the check of the dimensions, the lookup of
    the array class of the element class and one more lookup for every
    further dimension, then the arrays. *)
Definition CreateMultiArray (dimensions : list Z) (w : ArrayWorld)
  : Z * ArrayWorld :=
  match first_negative 0 dimensions with
  | Some (i, dimension) =>
      (0, array_emit (EvThrowNegativeArraySize i dimension) w)
  | None =>
      let '(ok, w) := find_array_classes (S (length dimensions - 1)) w in
      if ok then RecursiveCreateMultiArray dimensions w else (0, w)
  end.

(** * Properties *)

(** ** TableEntry: the flag byte *)

Section FlagByte.

Implicit Types (e : TableEntry) (b : FlagBit).

Lemma to_uint8_testbit z i :
  0 <= i < 8 -> Z.testbit (to_uint8 z) i = Z.testbit z i.
Proof.
  intros Hi. unfold to_uint8. change 256 with (2 ^ 8).
  apply Z.mod_pow2_bits_low. lia.
Qed.

Lemma one_shifted_testbit off i :
  0 <= off -> Z.testbit (Z.shiftl 1 off) i = (off =? i).
Proof.
  intros Hoff. rewrite Z.shiftl_1_l. apply Z.pow2_bits_eqb. exact Hoff.
Qed.

Lemma GetBit_testbit off e :
  0 <= off -> GetBit off e = Z.testbit (bit_flags_ e) off.
Proof.
  intros Hoff. unfold GetBit.
  change 1 with (Z.ones 1) at 1. rewrite Z.land_ones by lia.
  change (2 ^ 1) with 2. rewrite <- Z.bit0_mod.
  rewrite Z.shiftr_spec by lia. rewrite Z.add_0_l.
  destruct (Z.testbit (bit_flags_ e) off); reflexivity.
Qed.

Lemma SetBit_testbit off e i :
  0 <= off -> 0 <= i < 8 ->
  Z.testbit (bit_flags_ (SetBit off e)) i
  = (off =? i) || Z.testbit (bit_flags_ e) i.
Proof.
  intros Hoff Hi. unfold SetBit; simpl.
  rewrite to_uint8_testbit by exact Hi.
  rewrite Z.lor_spec, to_uint8_testbit by exact Hi.
  rewrite one_shifted_testbit by exact Hoff.
  apply orb_comm.
Qed.

Lemma ClearBit_testbit off e i :
  0 <= off -> 0 <= i < 8 ->
  Z.testbit (bit_flags_ (ClearBit off e)) i
  = negb (off =? i) && Z.testbit (bit_flags_ e) i.
Proof.
  intros Hoff Hi. unfold ClearBit; simpl.
  rewrite to_uint8_testbit by exact Hi.
  rewrite Z.land_spec, to_uint8_testbit by exact Hi.
  rewrite Z.lnot_spec by lia.
  rewrite one_shifted_testbit by exact Hoff.
  apply andb_comm.
Qed.

Lemma flag_offset_range b : 0 <= flag_offset b < 8.
Proof. destruct b; cbv; split; congruence. Qed.

Lemma flag_offset_inj b b' : flag_offset b = flag_offset b' -> b = b'.
Proof. destruct b, b'; cbv; congruence. Qed.

Lemma GetFlag_GetBit b e : GetFlag b e = GetBit (flag_offset b) e.
Proof. destruct b; reflexivity. Qed.

Lemma SetFlag_SetBit b e : SetFlag b e = SetBit (flag_offset b) e.
Proof. destruct b; reflexivity. Qed.

Lemma ClearFlag_ClearBit b e : ClearFlag b e = ClearBit (flag_offset b) e.
Proof. destruct b; reflexivity. Qed.

Lemma GetFlag_testbit b e :
  GetFlag b e = Z.testbit (bit_flags_ e) (flag_offset b).
Proof.
  rewrite GetFlag_GetBit. apply GetBit_testbit. apply flag_offset_range.
Qed.

Lemma GetFlag_SetFlag b b' e :
  GetFlag b' (SetFlag b e) = if decide (b' = b) then true else GetFlag b' e.
Proof.
  rewrite !GetFlag_testbit, SetFlag_SetBit.
  pose proof (flag_offset_range b). pose proof (flag_offset_range b').
  rewrite SetBit_testbit by lia.
  destruct (decide (b' = b)) as [->|Hne].
  - rewrite Z.eqb_refl. reflexivity.
  - destruct (Z.eqb_spec (flag_offset b) (flag_offset b')) as [Heq|_].
    + apply flag_offset_inj in Heq. congruence.
    + reflexivity.
Qed.

Lemma GetFlag_ClearFlag b b' e :
  GetFlag b' (ClearFlag b e) = if decide (b' = b) then false else GetFlag b' e.
Proof.
  rewrite !GetFlag_testbit, ClearFlag_ClearBit.
  pose proof (flag_offset_range b). pose proof (flag_offset_range b').
  rewrite ClearBit_testbit by lia.
  destruct (decide (b' = b)) as [->|Hne].
  - rewrite Z.eqb_refl. reflexivity.
  - destruct (Z.eqb_spec (flag_offset b) (flag_offset b')) as [Heq|_].
    + apply flag_offset_inj in Heq. congruence.
    + reflexivity.
Qed.

End FlagByte.

(** C7.  Each of the six single-bit mutators is one fetch-or / fetch-and on
    the flags byte that changes exactly its own bit (offsets 0, 1, 2 for
    occupied, kernel-lock, resident), leaves every other bit of the byte and
    the members [app_lock_counter_], [num_pages_], [object_address_]
    unchanged, and the matching getter returns the value of exactly that
    bit. *)
Theorem TableEntry_bit_mutation_frame (b : FlagBit) (e : TableEntry) :
  (* the offsets *)
  flag_offset Occupied = 0 /\ flag_offset KernelLock = 1 /\
  flag_offset Resident = 2 /\
  (* the getter reads exactly its bit *)
  GetFlag b e = Z.testbit (bit_flags_ e) (flag_offset b) /\
  (* one read-modify-write of the byte *)
  bit_flags_ (SetFlag b e)
    = to_uint8 (Z.lor (bit_flags_ e) (2 ^ flag_offset b)) /\
  bit_flags_ (ClearFlag b e)
    = to_uint8 (Z.land (bit_flags_ e) (to_uint8 (Z.lnot (2 ^ flag_offset b)))) /\
  (* own bit *)
  GetFlag b (SetFlag b e) = true /\
  GetFlag b (ClearFlag b e) = false /\
  (* the other two flags *)
  (forall b', b' <> b ->
     GetFlag b' (SetFlag b e) = GetFlag b' e /\
     GetFlag b' (ClearFlag b e) = GetFlag b' e) /\
  (* every other bit of the byte *)
  (forall i, 0 <= i < 8 -> i <> flag_offset b ->
     Z.testbit (bit_flags_ (SetFlag b e)) i = Z.testbit (bit_flags_ e) i /\
     Z.testbit (bit_flags_ (ClearFlag b e)) i = Z.testbit (bit_flags_ e) i) /\
  (* the other members *)
  GetAppLockCounter (SetFlag b e) = GetAppLockCounter e /\
  GetNumPages (SetFlag b e) = GetNumPages e /\
  GetObjectAddress (SetFlag b e) = GetObjectAddress e /\
  GetAppLockCounter (ClearFlag b e) = GetAppLockCounter e /\
  GetNumPages (ClearFlag b e) = GetNumPages e /\
  GetObjectAddress (ClearFlag b e) = GetObjectAddress e.
Proof.
  pose proof (flag_offset_range b) as Hb.
  repeat split; try (destruct b; reflexivity).
  - apply GetFlag_testbit.
  - rewrite GetFlag_SetFlag. destruct (decide (b = b)); congruence.
  - rewrite GetFlag_ClearFlag. destruct (decide (b = b)); congruence.
  - rewrite GetFlag_SetFlag. destruct (decide (b' = b)); congruence.
  - rewrite GetFlag_ClearFlag. destruct (decide (b' = b)); congruence.
  - rewrite SetFlag_SetBit, SetBit_testbit by lia.
    destruct (Z.eqb_spec (flag_offset b) i); [congruence | reflexivity].
  - rewrite ClearFlag_ClearBit, ClearBit_testbit by lia.
    destruct (Z.eqb_spec (flag_offset b) i); [congruence | reflexivity].
Qed.

(** ** TableEntry: the lock counter and the handshake *)

Section Handshake.

Implicit Types (e : TableEntry) (kernel : Kernel).

Lemma IncrAppLockCounter_flags e :
  bit_flags_ (IncrAppLockCounter e) = bit_flags_ e.
Proof. reflexivity. Qed.

Lemma DecrAppLockCounter_flags e :
  bit_flags_ (DecrAppLockCounter e) = bit_flags_ e.
Proof. reflexivity. Qed.

Lemma GetKernelLockBit_flags e e' :
  bit_flags_ e = bit_flags_ e' -> GetKernelLockBit e = GetKernelLockBit e'.
Proof.
  intros H. unfold GetKernelLockBit, GetBit. rewrite H. reflexivity.
Qed.

Lemma GetResidentBit_flags e e' :
  bit_flags_ e = bit_flags_ e' -> GetResidentBit e = GetResidentBit e'.
Proof.
  intros H. unfold GetResidentBit, GetBit. rewrite H. reflexivity.
Qed.

Lemma lock_run_Returned kernel n t e :
  lock_run kernel n t Returned e = (Returned, e).
Proof. destruct n; reflexivity. Qed.

Lemma idle_kernel_stays_away : kernel_stays_away idle_kernel.
Proof. intros t e H. exact H. Qed.

Lemma lock_run_spins kernel :
  kernel_holds_lock kernel ->
  forall n t e,
    GetKernelLockBit e = true ->
    exists e', lock_run kernel n t AtFirstWait e = (AtFirstWait, e') /\
               GetKernelLockBit e' = true.
Proof.
  intros Hk. induction n as [|n IH]; intros t e He.
  - exists e. split; [reflexivity | exact He].
  - simpl. rewrite (Hk t e He).
    apply IH. apply Hk. exact He.
Qed.

Lemma lock_run_four_steps kernel :
  kernel_stays_away kernel ->
  forall k e,
    GetKernelLockBit e = false ->
    lock_run kernel (S (S (S (S k)))) 0 AtFirstWait e
    = (Returned,
       IncrAppLockCounter
         (kernel 3%nat
            (kernel 2%nat (IncrAppLockCounter (kernel 1%nat (kernel 0%nat e)))))).
Proof.
  intros Hk k e He.
  cbn [lock_run lock_step].
  rewrite (Hk 0%nat e He).
  cbn [lock_run lock_step].
  assert (H2 : GetKernelLockBit
                 (kernel 2%nat (IncrAppLockCounter (kernel 1%nat (kernel 0%nat e))))
               = false).
  { apply Hk.
    rewrite (GetKernelLockBit_flags _ (kernel 1%nat (kernel 0%nat e)))
      by apply IncrAppLockCounter_flags.
    apply Hk, Hk, He. }
  rewrite H2.
  cbn [lock_run lock_step].
  apply lock_run_Returned.
Qed.

Lemma LockFromAppThread_idle fuel e :
  (4 <= fuel)%nat ->
  GetKernelLockBit e = false ->
  LockFromAppThread idle_kernel fuel e
  = Some (IncrAppLockCounter (IncrAppLockCounter e)).
Proof.
  intros Hfuel He.
  do 4 (destruct fuel as [|fuel]; [lia|]).
  unfold LockFromAppThread.
  rewrite (lock_run_four_steps idle_kernel idle_kernel_stays_away fuel e He).
  reflexivity.
Qed.

Lemma to_uint8_range z : 0 <= to_uint8 z < 256.
Proof. unfold to_uint8. apply Z.mod_pos_bound. lia. Qed.

Lemma counter_after_pair c :
  to_uint8 (to_uint8 (to_uint8 (c + 1) + 1) - 1) = to_uint8 (c + 1).
Proof.
  unfold to_uint8.
  rewrite Zplus_mod_idemp_l, Zminus_mod_idemp_l.
  f_equal. lia.
Qed.

Lemma lock_unlock_pairs_counter fuel :
  (4 <= fuel)%nat ->
  forall k e,
    GetKernelLockBit e = false ->
    exists e',
      lock_unlock_pairs fuel k e = Some e' /\
      bit_flags_ e' = bit_flags_ e /\
      (k <> 0%nat ->
       GetAppLockCounter e' = to_uint8 (GetAppLockCounter e + Z.of_nat k)).
Proof.
  intros Hfuel. induction k as [|k IH]; intros e He.
  - exists e. repeat split; congruence.
  - cbn [lock_unlock_pairs].
    rewrite (LockFromAppThread_idle fuel e Hfuel He).
    set (e1 := UnlockFromAppThread _).
    assert (Hf1 : bit_flags_ e1 = bit_flags_ e) by reflexivity.
    assert (Hc1 : GetAppLockCounter e1 = to_uint8 (GetAppLockCounter e + 1)).
    { unfold e1. cbn. apply counter_after_pair. }
    destruct (IH e1) as (e' & Hrun & Hf & Hc).
    { rewrite (GetKernelLockBit_flags e1 e Hf1). exact He. }
    exists e'. split; [exact Hrun|]. split; [congruence|].
    intros _. destruct k as [|k].
    + cbn in Hrun. injection Hrun as <-. exact Hc1.
    + rewrite Hc by lia. rewrite Hc1. unfold to_uint8.
      rewrite Zplus_mod_idemp_l. f_equal. lia.
Qed.

End Handshake.

(** C2.  With no kernel-side activity and the kernel-lock bit clear, one
    [LockFromAppThread] returns and has incremented [app_lock_counter_]
    exactly twice, one [UnlockFromAppThread] after it decrements once, and
    the pair leaves the counter one above its value before the call (in the
    counter's 8-bit arithmetic; literally [c + 1] from every value below
    255), never at the value it started from. *)
Theorem lock_unlock_pair_leaves_plus_one (fuel : nat) (e : TableEntry) :
  (4 <= fuel)%nat ->
  GetKernelLockBit e = false ->
  exists e1,
    LockFromAppThread idle_kernel fuel e = Some e1 /\
    e1 = IncrAppLockCounter (IncrAppLockCounter e) /\
    UnlockFromAppThread e1 = DecrAppLockCounter e1 /\
    GetAppLockCounter (UnlockFromAppThread e1)
      = to_uint8 (GetAppLockCounter e + 1) /\
    (0 <= GetAppLockCounter e < 254 ->
     GetAppLockCounter e1 = GetAppLockCounter e + 2) /\
    (0 <= GetAppLockCounter e < 255 ->
     GetAppLockCounter (UnlockFromAppThread e1) = GetAppLockCounter e + 1) /\
    (0 <= GetAppLockCounter e < 256 ->
     GetAppLockCounter (UnlockFromAppThread e1) <> GetAppLockCounter e).
Proof.
  intros Hfuel He.
  exists (IncrAppLockCounter (IncrAppLockCounter e)).
  split; [apply LockFromAppThread_idle; assumption|].
  split; [reflexivity|]. split; [reflexivity|].
  assert (Hpair : GetAppLockCounter
            (UnlockFromAppThread (IncrAppLockCounter (IncrAppLockCounter e)))
          = to_uint8 (GetAppLockCounter e + 1)).
  { cbn. apply counter_after_pair. }
  split; [exact Hpair|]. split; [|split].
  - intros Hc. cbn. unfold GetAppLockCounter in *. unfold to_uint8.
    rewrite Zplus_mod_idemp_l. rewrite Z.mod_small by lia. lia.
  - intros Hc. rewrite Hpair. unfold GetAppLockCounter in *. unfold to_uint8.
    rewrite Z.mod_small by lia. reflexivity.
  - intros Hc. rewrite Hpair. unfold to_uint8, GetAppLockCounter in *.
    destruct (Z.eq_dec (app_lock_counter_ e) 255) as [->|Hne].
    + cbv. congruence.
    + rewrite Z.mod_small by lia. lia.
Qed.

Lemma lock_unlock_pair_leaves_plus_one_witness :
  exists e1,
    LockFromAppThread idle_kernel 4 (mkTableEntry 1 7 0 0 0) = Some e1 /\
    GetAppLockCounter (UnlockFromAppThread e1) = 8.
Proof.
  destruct (lock_unlock_pair_leaves_plus_one 4 (mkTableEntry 1 7 0 0 0))
    as (e1 & Hrun & _ & _ & _ & _ & Hexact & _).
  - lia.
  - reflexivity.
  - exists e1. split; [exact Hrun|].
    apply Hexact. cbn. lia.
Defined.

(** C8.  [LockFromAppThread] has no timeout: while the kernel side holds the
    lock bit the call has not returned after any number of steps and is
    still at its first wait; when the bit is clear and stays clear the call
    returns (after four steps). *)
Theorem LockFromAppThread_spins_or_returns (kernel : Kernel) (e : TableEntry) :
  (kernel_holds_lock kernel -> GetKernelLockBit e = true ->
   forall fuel,
     LockFromAppThread kernel fuel e = None /\
     fst (lock_run kernel fuel 0 AtFirstWait e) = AtFirstWait) /\
  (kernel_stays_away kernel -> GetKernelLockBit e = false ->
   forall fuel, (4 <= fuel)%nat ->
     exists e', LockFromAppThread kernel fuel e = Some e').
Proof.
  split.
  - intros Hk He fuel.
    destruct (lock_run_spins kernel Hk fuel 0%nat e He) as (e' & Hrun & _).
    unfold LockFromAppThread. rewrite Hrun. split; reflexivity.
  - intros Hk He fuel Hfuel.
    do 4 (destruct fuel as [|fuel]; [lia|]).
    unfold LockFromAppThread.
    rewrite (lock_run_four_steps kernel Hk fuel e He).
    eexists. reflexivity.
Qed.

Lemma LockFromAppThread_spins_or_returns_witness :
  LockFromAppThread stuck_kernel 1000 (mkTableEntry 3 0 0 0 0) = None /\
  exists e', LockFromAppThread idle_kernel 4 (mkTableEntry 1 0 0 0 0) = Some e'.
Proof.
  split.
  - apply (LockFromAppThread_spins_or_returns stuck_kernel
             (mkTableEntry 3 0 0 0 0)).
    + intros t e0 _. unfold stuck_kernel.
      change (GetFlag KernelLock (SetFlag KernelLock e0) = true).
      rewrite GetFlag_SetFlag. destruct (decide (KernelLock = KernelLock)); congruence.
    + reflexivity.
  - apply (LockFromAppThread_spins_or_returns idle_kernel
             (mkTableEntry 1 0 0 0 0)).
    + exact idle_kernel_stays_away.
    + reflexivity.
    + lia.
Defined.

(** C10.  [app_lock_counter_] counts modulo 256: an increment or decrement
    stays in the range of a byte, a decrement (hence an unlock) at 0 leaves
    255, and the one left over by each uncontended Lock/Unlock pair brings
    the counter back to where it started after exactly 256 pairs, and not
    before. *)
Theorem app_lock_counter_wraps (fuel : nat) (e : TableEntry) :
  (4 <= fuel)%nat ->
  GetKernelLockBit e = false ->
  0 <= GetAppLockCounter e < 256 ->
  GetAppLockCounter (IncrAppLockCounter e) = (GetAppLockCounter e + 1) mod 256 /\
  GetAppLockCounter (DecrAppLockCounter e) = (GetAppLockCounter e - 1) mod 256 /\
  (GetAppLockCounter e = 0 ->
   GetAppLockCounter (DecrAppLockCounter e) = 255 /\
   GetAppLockCounter (UnlockFromAppThread e) = 255) /\
  (exists e', lock_unlock_pairs fuel 256 e = Some e' /\
              GetAppLockCounter e' = GetAppLockCounter e) /\
  (forall k, (0 < k < 256)%nat ->
     exists e', lock_unlock_pairs fuel k e = Some e' /\
                GetAppLockCounter e' <> GetAppLockCounter e).
Proof.
  intros Hfuel He Hc.
  split; [reflexivity|]. split; [reflexivity|]. split.
  { intros H0. unfold UnlockFromAppThread. cbn.
    unfold GetAppLockCounter in H0. rewrite H0. split; reflexivity. }
  split.
  - destruct (lock_unlock_pairs_counter fuel Hfuel 256 e He)
      as (e' & Hrun & _ & Hcnt).
    exists e'. split; [exact Hrun|].
    rewrite Hcnt by lia. unfold to_uint8.
    change (Z.of_nat 256) with (1 * 256).
    rewrite Z.mod_add by lia. apply Z.mod_small. exact Hc.
  - intros k Hk.
    destruct (lock_unlock_pairs_counter fuel Hfuel k e He)
      as (e' & Hrun & _ & Hcnt).
    exists e'. split; [exact Hrun|].
    rewrite Hcnt by lia. unfold to_uint8.
    destruct (Z_lt_ge_dec (GetAppLockCounter e + Z.of_nat k) 256) as [Hlt|Hge].
    + rewrite Z.mod_small by lia. lia.
    + replace (GetAppLockCounter e + Z.of_nat k)
        with ((GetAppLockCounter e + Z.of_nat k - 256) + 1 * 256) by lia.
      rewrite Z.mod_add by lia. rewrite Z.mod_small by lia. lia.
Qed.

Lemma app_lock_counter_wraps_witness :
  GetAppLockCounter (UnlockFromAppThread (mkTableEntry 1 0 0 0 0)) = 255 /\
  exists e', lock_unlock_pairs 4 256 (mkTableEntry 1 0 0 0 0) = Some e' /\
             GetAppLockCounter e' = 0.
Proof.
  destruct (app_lock_counter_wraps 4 (mkTableEntry 1 0 0 0 0))
    as (_ & _ & Hzero & Hfull & _).
  - lia.
  - reflexivity.
  - cbn. lia.
  - split.
    + apply Hzero. reflexivity.
    + exact Hfull.
Defined.

(** ** Running the operations of the swap state *)

Ltac use_lookups :=
  simpl;
  repeat match goal with
         | H : _ !! _ = Some _ |- _ => rewrite H; simpl
         end.

Section Runs.

Implicit Types (s : State) (o p : ObjectRep) (e : TableEntry).

Lemma bind_Some {A B : Type} (m : M A) (f : A -> M B) s a s' :
  m s = Some (a, s') -> bind m f s = f a s'.
Proof. intros H. unfold bind. rewrite H. reflexivity. Qed.

Lemma bind_None {A B : Type} (m : M A) (f : A -> M B) s :
  m s = None -> bind m f s = None.
Proof. intros H. unfold bind. rewrite H. reflexivity. Qed.

Lemma GetStubFlag_run s a o :
  heap s !! a = Some o ->
  GetStubFlag a s
  = Some (x_stub_flag o,
          mkState (heap s) (table s) (storage s) (log s ++ [EvGetStubFlag a])).
Proof.
  intros H. unfold GetStubFlag, bind, emit, read_object, ret.
  use_lookups. reflexivity.
Qed.

Lemma GetTableEntry_run s a o e :
  heap s !! a = Some o ->
  table s !! stub_table_entry o = Some e ->
  GetTableEntry a s = Some (e, s).
Proof.
  intros Ho He. unfold GetTableEntry, bind, read_object, read_entry.
  use_lookups. reflexivity.
Qed.

Lemma StubGetObjectAddress_run s a o e :
  heap s !! a = Some o ->
  table s !! stub_table_entry o = Some e ->
  StubGetObjectAddress a s = Some (GetObjectAddress e, s).
Proof.
  intros Ho He. unfold StubGetObjectAddress.
  rewrite (bind_Some _ _ _ _ _ (GetTableEntry_run s a o e Ho He)).
  reflexivity.
Qed.

Lemma LockTableEntry_run fuel s a o e :
  (4 <= fuel)%nat ->
  heap s !! a = Some o ->
  table s !! stub_table_entry o = Some e ->
  GetKernelLockBit e = false ->
  LockTableEntry fuel a s
  = Some (tt,
          mkState (heap s)
                  (<[stub_table_entry o := IncrAppLockCounter (IncrAppLockCounter e)]>
                     (table s))
                  (storage s) (log s ++ [EvLockTableEntry a])).
Proof.
  intros Hfuel Ho He Hk.
  unfold LockTableEntry, bind, emit, read_object, read_entry; simpl.
  use_lookups. rewrite (LockFromAppThread_idle fuel e Hfuel Hk).
  reflexivity.
Qed.

Lemma LockTableEntry_stuck fuel s a o e :
  heap s !! a = Some o ->
  table s !! stub_table_entry o = Some e ->
  GetKernelLockBit e = true ->
  LockTableEntry fuel a s = None.
Proof.
  intros Ho He Hk.
  unfold LockTableEntry, bind, emit, read_object, read_entry; simpl.
  use_lookups.
  assert (Hnone : LockFromAppThread idle_kernel fuel e = None).
  { unfold LockFromAppThread.
    destruct (lock_run_spins idle_kernel (fun _ _ H => H) fuel 0%nat e Hk)
      as (e' & -> & _).
    reflexivity. }
  rewrite Hnone. reflexivity.
Qed.

Lemma UnlockTableEntry_run s a o e :
  heap s !! a = Some o ->
  table s !! stub_table_entry o = Some e ->
  UnlockTableEntry a s
  = Some (tt,
          mkState (heap s)
                  (<[stub_table_entry o := UnlockFromAppThread e]> (table s))
                  (storage s) (log s ++ [EvUnlockTableEntry a])).
Proof.
  intros Ho He.
  unfold UnlockTableEntry, bind, emit, read_object, read_entry, write_entry.
  use_lookups. reflexivity.
Qed.

Lemma SwapInOnDemand_run s a o e image :
  heap s !! a = Some o ->
  table s !! stub_table_entry o = Some e ->
  storage s !! stub_table_entry o = Some image ->
  SwapInOnDemand a s
  = Some (tt,
          mkState (<[GetObjectAddress e := image]> (heap s))
                  (<[stub_table_entry o := SetResidentBit e]> (table s))
                  (storage s) (log s ++ [EvSwapInOnDemand a])).
Proof.
  intros Ho He Hi.
  unfold SwapInOnDemand, bind, emit, read_object, read_entry, write_object,
    write_entry.
  use_lookups. reflexivity.
Qed.

Lemma PopulateFrom_run s a pa o p :
  heap s !! a = Some o ->
  heap s !! pa = Some p ->
  PopulateFrom a pa s
  = Some (tt,
          mkState (<[a := with_fields (obj_fields p) o]> (heap s))
                  (table s) (storage s) (log s ++ [EvPopulateFrom a pa])).
Proof.
  intros Ho Hp.
  unfold PopulateFrom, bind, emit, read_object, write_object.
  use_lookups. reflexivity.
Qed.

Lemma load_field_run s a o off :
  heap s !! a = Some o ->
  load_field a off s
  = Some (field_value o off,
          mkState (heap s) (table s) (storage s) (log s ++ [EvLoad a off])).
Proof.
  intros Ho. unfold load_field, bind, emit, read_object, ret.
  use_lookups. reflexivity.
Qed.

Lemma store_field_run s a o off v :
  heap s !! a = Some o ->
  store_field a off v s
  = Some (tt,
          mkState (<[a := with_fields (<[off := v]> (obj_fields o)) o]> (heap s))
                  (table s) (storage s) (log s ++ [EvStore a off v])).
Proof.
  intros Ho. unfold store_field, bind, emit, read_object, write_object.
  use_lookups. reflexivity.
Qed.

Lemma table_insert_lookup (t : list TableEntry) i e x :
  t !! i = Some e -> <[i := x]> t !! i = Some x.
Proof. intros H. apply list_lookup_insert_eq. eapply lookup_lt_Some, H. Qed.

End Runs.

Ltac crunch :=
  repeat (simpl;
          first [ match goal with
                  | H : _ !! _ = Some _ |- _ => rewrite H
                  end
                | rewrite lookup_insert_eq
                | rewrite insert_insert_eq ]);
  simpl; rewrite <- ?app_assoc; simpl.

Ltac proj := cbn [heap table storage log].

Ltac lookups :=
  proj;
  rewrite ?lookup_insert_ne by assumption;
  rewrite ?list_insert_insert_eq;
  first [ apply lookup_insert_eq
        | eapply table_insert_lookup; eassumption
        | eassumption
        | lia ].

Ltac step L := erewrite bind_Some by (eapply L; lookups); proj.


(** ** Reference accessors on a resident object *)

Section DirectPath.

Variable sizeof_Object : Z.
Implicit Types (s : State) (o p : ObjectRep) (e : TableEntry).

Lemma GetFieldObject_direct fuel s a p off :
  heap s !! a = Some p ->
  x_stub_flag p = false ->
  GetFieldObject sizeof_Object (S fuel) a off s
  = Some (field_value p off,
          mkState (<[a := after_read p]> (heap s)) (table s) (storage s)
                  (log s ++ direct_load_events sizeof_Object a off)).
Proof.
  intros Hp Hflag.
  destruct p as [sf ns ig rb wb db te fs]; simpl in Hflag; subst sf.
  unfold direct_load_events, after_read.
  cbn [GetFieldObject].
  destruct (sizeof_Object <=? off);
    unfold SWAP_PREAMBLE, GetStubFlag, GetIgnoreReadFlag, SetReadBit,
      load_field, bind, emit, read_object, write_object, ret, field_value;
    crunch; destruct ig; crunch; try reflexivity;
    rewrite (insert_id (heap s) a) by exact Hp; reflexivity.
Qed.

Lemma SetFieldObjectWithoutWriteBarrier_direct fuel tx s a p off v :
  heap s !! a = Some p ->
  x_stub_flag p = false ->
  SetFieldObjectWithoutWriteBarrier sizeof_Object (S fuel) tx a off v s
  = Some (tt,
          mkState (<[a := after_store tx off v p]> (heap s)) (table s)
                  (storage s)
                  (log s ++ direct_store_events sizeof_Object tx a off
                                                (field_value p off) v)).
Proof.
  intros Hp Hflag.
  cbn [SetFieldObjectWithoutWriteBarrier].
  rewrite (bind_Some _ _ _ _ _ (GetStubFlag_run s a p Hp)). rewrite Hflag.
  unfold direct_store_events, after_store.
  destruct tx.
  - unfold bind at 1. unfold bind at 1. unfold bind at 1.
    rewrite (GetFieldObject_direct fuel _ a p off) by (simpl; assumption).
    unfold store_field, SetWriteBit, SetDirtyBit, emit, read_object,
      write_object, bind, ret.
    crunch. reflexivity.
  - unfold store_field, SetWriteBit, SetDirtyBit, emit, read_object,
      write_object, bind, ret.
    crunch. reflexivity.
Qed.

End DirectPath.

(** ** Reference store through a stub *)

Section StubStore.

Variable sizeof_Object : Z.
Implicit Types (s : State) (o p : ObjectRep) (e : TableEntry).

Lemma GetResidentBit_SetResidentBit e : GetResidentBit (SetResidentBit e) = true.
Proof.
  change (GetFlag Resident (SetFlag Resident e) = true).
  rewrite GetFlag_SetFlag. destruct (decide (Resident = Resident)); congruence.
Qed.

Lemma GetKernelLockBit_SetResidentBit e :
  GetKernelLockBit (SetResidentBit e) = GetKernelLockBit e.
Proof.
  change (GetFlag KernelLock (SetFlag Resident e) = GetFlag KernelLock e).
  rewrite GetFlag_SetFlag.
  destruct (decide (KernelLock = Resident)); congruence.
Qed.

Lemma GetResidentBit_locked e :
  GetResidentBit (IncrAppLockCounter (IncrAppLockCounter e)) = GetResidentBit e.
Proof. reflexivity. Qed.

Lemma SetFieldObjectWithoutWriteBarrier_stub fuel tx s this o e p off v :
  (4 <= fuel)%nat ->
  stub_of s this o e p ->
  SetFieldObjectWithoutWriteBarrier sizeof_Object fuel tx this off v s
  = Some (tt,
          mkState
            (<[this := with_fields (obj_fields (after_store tx off v p)) o]>
               (<[GetObjectAddress e := after_store tx off v p]> (heap s)))
            (<[stub_table_entry o := entry_after_access e]> (table s))
            (storage s)
            (log s ++
             stub_protocol_events this e
               (direct_store_events sizeof_Object tx (GetObjectAddress e) off
                                    (field_value p off) v))).
Proof.
  intros Hfuel (Ho & Hstub & He & Hk & Hne & Hpay & Hp).
  destruct fuel as [|fuel']; [lia|].
  cbn [SetFieldObjectWithoutWriteBarrier].
  destruct fuel' as [|fuel'']; [lia|].
  step GetStubFlag_run. rewrite Hstub.
  step LockTableEntry_run.
  step GetTableEntry_run.
  rewrite GetResidentBit_locked.
  unfold entry_after_access, stub_protocol_events.
  destruct (GetResidentBit e) eqn:Hres; cbn [negb].
  - unfold bind at 1. unfold ret at 1.
    step StubGetObjectAddress_run.
    change (GetObjectAddress (IncrAppLockCounter (IncrAppLockCounter e)))
      with (GetObjectAddress e).
    step (SetFieldObjectWithoutWriteBarrier_direct sizeof_Object fuel'' tx).
    step StubGetObjectAddress_run.
    change (GetObjectAddress (IncrAppLockCounter (IncrAppLockCounter e)))
      with (GetObjectAddress e).
    step PopulateFrom_run.
    erewrite UnlockTableEntry_run by lookups.
    proj. rewrite list_insert_insert_eq.
    rewrite <- !app_assoc. reflexivity.
  - step SwapInOnDemand_run.
    change (GetObjectAddress (IncrAppLockCounter (IncrAppLockCounter e)))
      with (GetObjectAddress e).
    step StubGetObjectAddress_run.
    change (GetObjectAddress (SetResidentBit (IncrAppLockCounter (IncrAppLockCounter e))))
      with (GetObjectAddress e).
    step (SetFieldObjectWithoutWriteBarrier_direct sizeof_Object fuel'' tx).
    step StubGetObjectAddress_run.
    change (GetObjectAddress (SetResidentBit (IncrAppLockCounter (IncrAppLockCounter e))))
      with (GetObjectAddress e).
    step PopulateFrom_run.
    erewrite UnlockTableEntry_run by lookups.
    proj. rewrite !list_insert_insert_eq, insert_insert_eq.
    rewrite <- !app_assoc. reflexivity.
Qed.

End StubStore.

(** ** The macro on a stub *)

Section Preamble.

Variable sizeof_Object : Z.
Implicit Types (s : State) (o p : ObjectRep) (e : TableEntry).

Lemma at_forward_payload s this o e p :
  stub_of s this o e p ->
  heap (at_forward s this o e p) !! GetObjectAddress e = Some p.
Proof.
  intros (Ho & Hstub & He & Hk & Hne & Hpay & Hp). unfold at_forward; proj.
  destruct (GetResidentBit e); [exact Hpay | apply lookup_insert_eq].
Qed.

Lemma SWAP_PREAMBLE_stub {A : Type} fuel s this o e p
      (forward : Z -> M A) (rest : M A) r s_fwd p' :
  (4 <= fuel)%nat ->
  stub_of s this o e p ->
  forward (GetObjectAddress e) (at_forward s this o e p) = Some (r, s_fwd) ->
  heap s_fwd !! this = Some o ->
  heap s_fwd !! GetObjectAddress e = Some p' ->
  table s_fwd = table (at_forward s this o e p) ->
  SWAP_PREAMBLE fuel this forward rest s
  = Some (r,
          mkState (<[this := with_fields (obj_fields p') o]> (heap s_fwd))
                  (<[stub_table_entry o := entry_after_access e]> (table s))
                  (storage s_fwd)
                  (log s_fwd ++
                   [EvPopulateFrom this (GetObjectAddress e);
                    EvUnlockTableEntry this])).
Proof.
  intros Hfuel (Ho & Hstub & He & Hk & Hne & Hpay & Hp) Hfwd Hthis Hpa Htab.
  unfold SWAP_PREAMBLE.
  step GetStubFlag_run. rewrite Hstub.
  step LockTableEntry_run.
  step GetTableEntry_run.
  rewrite GetResidentBit_locked.
  unfold at_forward in Hfwd, Htab. unfold entry_after_access.
  destruct (GetResidentBit e) eqn:Hres; cbn [negb].
  - unfold bind at 1. unfold ret at 1.
    step StubGetObjectAddress_run.
    change (GetObjectAddress (IncrAppLockCounter (IncrAppLockCounter e)))
      with (GetObjectAddress e).
    rewrite <- app_assoc. cbn [app] in Hfwd |- *.
    rewrite (bind_Some _ _ _ _ _ Hfwd).
    cbn [heap table storage log] in Htab.
    erewrite bind_Some
      by (eapply StubGetObjectAddress_run;
          [exact Hthis | rewrite Htab; eapply table_insert_lookup, He]).
    change (GetObjectAddress (IncrAppLockCounter (IncrAppLockCounter e)))
      with (GetObjectAddress e).
    step PopulateFrom_run.
    erewrite bind_Some.
    2:{ eapply UnlockTableEntry_run; proj;
        [ apply lookup_insert_eq
        | cbn [with_fields stub_table_entry]; rewrite Htab;
          eapply table_insert_lookup, He ]. }
    unfold ret. proj. cbn [with_fields stub_table_entry].
    rewrite Htab, list_insert_insert_eq.
    rewrite <- !app_assoc. reflexivity.
  - step SwapInOnDemand_run.
    change (GetObjectAddress (IncrAppLockCounter (IncrAppLockCounter e)))
      with (GetObjectAddress e).
    step StubGetObjectAddress_run.
    change (GetObjectAddress (SetResidentBit (IncrAppLockCounter (IncrAppLockCounter e))))
      with (GetObjectAddress e).
    rewrite <- !app_assoc. cbn [app] in Hfwd |- *.
    rewrite list_insert_insert_eq.
    rewrite (bind_Some _ _ _ _ _ Hfwd).
    cbn [heap table storage log] in Htab.
    erewrite bind_Some
      by (eapply StubGetObjectAddress_run;
          [exact Hthis | rewrite Htab; eapply table_insert_lookup, He]).
    change (GetObjectAddress (SetResidentBit (IncrAppLockCounter (IncrAppLockCounter e))))
      with (GetObjectAddress e).
    step PopulateFrom_run.
    erewrite bind_Some.
    2:{ eapply UnlockTableEntry_run; proj;
        [ apply lookup_insert_eq
        | cbn [with_fields stub_table_entry]; rewrite Htab;
          eapply table_insert_lookup, He ]. }
    unfold ret. proj. cbn [with_fields stub_table_entry].
    rewrite Htab, list_insert_insert_eq.
    rewrite <- !app_assoc. reflexivity.
Qed.

End Preamble.

(** ** Reference load through a stub, and the entry after an access *)

Section StubLoad.

Variable sizeof_Object : Z.
Implicit Types (s : State) (o p : ObjectRep) (e : TableEntry).

Lemma entry_after_access_resident e :
  GetResidentBit (entry_after_access e) = true.
Proof.
  unfold entry_after_access.
  destruct (GetResidentBit e) eqn:Hres.
  - exact Hres.
  - rewrite (GetResidentBit_flags
               _ (SetResidentBit (IncrAppLockCounter (IncrAppLockCounter e))))
      by reflexivity.
    apply GetResidentBit_SetResidentBit.
Qed.

Lemma entry_after_access_kernel_lock e :
  GetKernelLockBit (entry_after_access e) = GetKernelLockBit e.
Proof.
  unfold entry_after_access.
  destruct (GetResidentBit e).
  - reflexivity.
  - rewrite (GetKernelLockBit_flags
               _ (SetResidentBit (IncrAppLockCounter (IncrAppLockCounter e))))
      by reflexivity.
    rewrite GetKernelLockBit_SetResidentBit. reflexivity.
Qed.

Lemma entry_after_access_address e :
  GetObjectAddress (entry_after_access e) = GetObjectAddress e.
Proof. unfold entry_after_access. destruct (GetResidentBit e); reflexivity. Qed.

Lemma entry_after_access_counter e :
  GetAppLockCounter (entry_after_access e) = to_uint8 (GetAppLockCounter e + 1).
Proof.
  unfold entry_after_access.
  destruct (GetResidentBit e); cbn; apply counter_after_pair.
Qed.

Lemma after_store_stub_flag tx off v p :
  x_stub_flag (after_store tx off v p) = x_stub_flag p.
Proof. destruct tx; reflexivity. Qed.

Lemma after_store_field tx off v p :
  field_value (after_store tx off v p) off = v.
Proof.
  unfold field_value, after_store. destruct tx; cbn [obj_fields];
    rewrite lookup_insert_eq; reflexivity.
Qed.

Lemma GetFieldObject_header fuel s a p off :
  off < sizeof_Object ->
  heap s !! a = Some p ->
  GetFieldObject sizeof_Object (S fuel) a off s
  = Some (field_value p off,
          mkState (<[a := after_read p]> (heap s)) (table s) (storage s)
                  (log s ++ [EvLoad a off])).
Proof.
  intros Hoff Hp.
  destruct p as [sf ns ig rb wb db te fs].
  cbn [GetFieldObject].
  destruct (Z.leb_spec sizeof_Object off) as [Hge|_]; [lia|].
  unfold after_read, GetIgnoreReadFlag, SetReadBit, load_field, bind, emit,
    read_object, write_object, ret, field_value.
  crunch; destruct ig; crunch; try reflexivity.
  rewrite (insert_id (heap s) a) by exact Hp. reflexivity.
Qed.

Lemma GetFieldObject_on_stub fuel s this o e p off :
  (4 <= fuel)%nat ->
  stub_of s this o e p ->
  field_value o off = field_value p off ->
  exists s' o' e',
    GetFieldObject sizeof_Object fuel this off s = Some (field_value p off, s') /\
    heap s' !! this = Some o' /\
    stub_table_entry o' = stub_table_entry o /\
    table s' !! stub_table_entry o = Some e' /\
    (GetResidentBit e = true -> GetResidentBit e' = true).
Proof.
  intros Hfuel Hst Hcoh.
  pose proof Hst as (Ho & Hstub & He & Hk & Hne & Hpay & Hp).
  destruct fuel as [|fuel']; [lia|].
  destruct (Z.leb_spec sizeof_Object off) as [Hge|Hlt].
  - (* behind the preamble *)
    cbn [GetFieldObject].
    destruct (Z.leb_spec sizeof_Object off) as [_|Hlt]; [|lia].
    destruct fuel' as [|fuel'']; [lia|].
    pose proof (at_forward_payload s this o e p Hst) as Hpa.
    pose proof (GetFieldObject_direct sizeof_Object fuel'' _ _ p off Hpa Hp)
      as Hfwd.
    erewrite (SWAP_PREAMBLE_stub (S (S fuel'')) s this o e p _ _ _ _
                (after_read p) Hfuel Hst Hfwd).
    + eexists _, _, _. split; [reflexivity|].
      cbn [heap table storage log].
      split; [apply lookup_insert_eq|].
      split; [reflexivity|].
      split; [eapply table_insert_lookup, He|].
      intros _. apply entry_after_access_resident.
    + cbn [heap]. rewrite lookup_insert_ne by exact Hne.
      unfold at_forward; cbn [heap].
      destruct (GetResidentBit e);
        [exact Ho | rewrite lookup_insert_ne by exact Hne; exact Ho].
    + cbn [heap]. apply lookup_insert_eq.
    + reflexivity.
  - (* inside the header: the stub's own memory *)
    rewrite (GetFieldObject_header fuel' s this o off Hlt Ho).
    rewrite Hcoh.
    eexists _, _, e. split; [reflexivity|].
    cbn [heap table storage log].
    split; [apply lookup_insert_eq|].
    split; [destruct o; reflexivity|].
    split; [exact He|]. tauto.
Qed.

End StubLoad.

(** C3.  On a stub, [SetFieldObjectWithoutWriteBarrier] returns after
    exactly this sequence: the stub-flag test, the handshake on the stub's
    entry, a swap-in if and only if the entry was not resident, the forwarded
    write on the payload at the entry's object address, [PopulateFrom] the
    payload, and the release of the handshake.  Afterwards the value is in
    the payload, the stub carries the payload's data, and the entry is
    resident with its counter one up. *)
Theorem SetFieldObjectWithoutWriteBarrier_stub_sequence
        (sizeof_Object : Z) (fuel : nat) (kTransactionActive : bool)
        (s : State) (this : Z) (o : ObjectRep) (e : TableEntry)
        (p : ObjectRep) (field_offset new_value : Z) :
  (4 <= fuel)%nat ->
  stub_of s this o e p ->
  exists s' p' o' e',
    SetFieldObjectWithoutWriteBarrier sizeof_Object fuel kTransactionActive
                                      this field_offset new_value s
    = Some (tt, s') /\
    log s' = log s ++
             [EvGetStubFlag this; EvLockTableEntry this] ++
             (if GetResidentBit e then [] else [EvSwapInOnDemand this]) ++
             direct_store_events sizeof_Object kTransactionActive
                                 (GetObjectAddress e) field_offset
                                 (field_value p field_offset) new_value ++
             [EvPopulateFrom this (GetObjectAddress e);
              EvUnlockTableEntry this] /\
    (kTransactionActive = false ->
     direct_store_events sizeof_Object kTransactionActive
                         (GetObjectAddress e) field_offset
                         (field_value p field_offset) new_value
     = [EvGetStubFlag (GetObjectAddress e);
        EvStore (GetObjectAddress e) field_offset new_value]) /\
    heap s' !! GetObjectAddress e = Some p' /\
    x_stub_flag p' = false /\
    field_value p' field_offset = new_value /\
    heap s' !! this = Some o' /\
    x_stub_flag o' = true /\
    stub_table_entry o' = stub_table_entry o /\
    obj_fields o' = obj_fields p' /\
    table s' !! stub_table_entry o = Some e' /\
    GetResidentBit e' = true /\
    GetObjectAddress e' = GetObjectAddress e /\
    GetAppLockCounter e' = to_uint8 (GetAppLockCounter e + 1).
Proof.
  intros Hfuel Hst.
  pose proof Hst as (Ho & Hstub & He & Hk & Hne & Hpay & Hp).
  eexists _, (after_store kTransactionActive field_offset new_value p),
          (with_fields
             (obj_fields (after_store kTransactionActive field_offset new_value p))
             o),
          (entry_after_access e).
  split.
  { apply (SetFieldObjectWithoutWriteBarrier_stub sizeof_Object fuel
             kTransactionActive s this o e p field_offset new_value Hfuel Hst). }
  cbn [heap table storage log].
  split; [reflexivity|].
  split; [intros ->; reflexivity|].
  split; [rewrite lookup_insert_ne by congruence; apply lookup_insert_eq|].
  split; [rewrite after_store_stub_flag; exact Hp|].
  split; [apply after_store_field|].
  split; [apply lookup_insert_eq|].
  split; [exact Hstub|].
  split; [reflexivity|].
  split; [reflexivity|].
  split; [eapply table_insert_lookup, He|].
  split; [apply entry_after_access_resident|].
  split; [apply entry_after_access_address|].
  apply entry_after_access_counter.
Qed.

Lemma SetFieldObjectWithoutWriteBarrier_stub_sequence_witness :
  exists s',
    SetFieldObjectWithoutWriteBarrier 8 4 false 256 8 77 example_state
    = Some (tt, s') /\
    log s' = [EvGetStubFlag 256; EvLockTableEntry 256; EvSwapInOnDemand 256;
              EvGetStubFlag 4096; EvStore 4096 8 77;
              EvPopulateFrom 256 4096; EvUnlockTableEntry 256].
Proof.
  destruct (SetFieldObjectWithoutWriteBarrier_stub_sequence
              8 4 false example_state 256 example_stub example_entry
              example_image 8 77)
    as (s' & p' & o' & e' & Hrun & Hlog & _).
  - lia.
  - unfold stub_of. repeat split; try reflexivity. vm_compute. discriminate.
  - exists s'. split; [exact Hrun | exact Hlog].
Defined.

(** C4.  On a stub whose entry starts non-resident (with the payload on
    secondary storage, so that the swap-in succeeds), a reference store of
    [x] followed by a reference load of the same field returns [x], and the
    entry is resident when the store returns and when the load returns. *)
Theorem stub_set_get_round_trip
        (sizeof_Object : Z) (fuel : nat) (kTransactionActive : bool)
        (s : State) (this : Z) (o : ObjectRep) (e : TableEntry)
        (p : ObjectRep) (field_offset x : Z) :
  (4 <= fuel)%nat ->
  stub_of s this o e p ->
  GetResidentBit e = false ->
  exists s1 s2 e1 e2,
    SetFieldObjectWithoutWriteBarrier sizeof_Object fuel kTransactionActive
                                      this field_offset x s
    = Some (tt, s1) /\
    GetFieldObject sizeof_Object fuel this field_offset s1 = Some (x, s2) /\
    table s1 !! stub_table_entry o = Some e1 /\ GetResidentBit e1 = true /\
    table s2 !! stub_table_entry o = Some e2 /\ GetResidentBit e2 = true.
Proof.
  intros Hfuel Hst Hres.
  pose proof Hst as (Ho & Hstub & He & Hk & Hne & Hpay & Hp).
  pose proof (SetFieldObjectWithoutWriteBarrier_stub sizeof_Object fuel
                kTransactionActive s this o e p field_offset x Hfuel Hst)
    as Hset.
  set (p1 := after_store kTransactionActive field_offset x p) in *.
  set (o1 := with_fields (obj_fields p1) o) in *.
  set (e1 := entry_after_access e) in *.
  match type of Hset with _ = Some (tt, ?st) => set (s1 := st) in * end.
  assert (Hst1 : stub_of s1 this o1 e1 p1).
  { unfold stub_of, s1; cbn [heap table storage log].
    split; [apply lookup_insert_eq|].
    split; [exact Hstub|].
    split; [eapply table_insert_lookup, He|].
    split; [unfold e1; rewrite entry_after_access_kernel_lock; exact Hk|].
    split; [unfold e1; rewrite entry_after_access_address; exact Hne|].
    split.
    - unfold e1. rewrite entry_after_access_resident, entry_after_access_address.
      rewrite lookup_insert_ne by congruence. apply lookup_insert_eq.
    - unfold p1. rewrite after_store_stub_flag. exact Hp. }
  destruct (GetFieldObject_on_stub sizeof_Object fuel s1 this o1 e1 p1
              field_offset Hfuel Hst1 eq_refl)
    as (s2 & o2 & e2 & Hget & _ & _ & He2 & Hres2).
  exists s1, s2, e1, e2.
  split; [exact Hset|].
  split.
  { rewrite Hget. unfold p1. rewrite after_store_field. reflexivity. }
  split; [unfold s1; cbn [table]; eapply table_insert_lookup, He|].
  split; [apply entry_after_access_resident|].
  split; [exact He2|].
  apply Hres2, entry_after_access_resident.
Qed.

Lemma stub_set_get_round_trip_witness :
  exists s1 s2,
    SetFieldObjectWithoutWriteBarrier 8 4 false 256 8 77 example_state
    = Some (tt, s1) /\
    GetFieldObject 8 4 256 8 s1 = Some (77, s2).
Proof.
  destruct (stub_set_get_round_trip 8 4 false example_state 256 example_stub
              example_entry example_image 8 77)
    as (s1 & s2 & _ & _ & Hset & Hget & _).
  - lia.
  - unfold stub_of. repeat split; try reflexivity. vm_compute. discriminate.
  - reflexivity.
  - exists s1, s2. split; [exact Hset | exact Hget].
Defined.

(** ** Accesses inside the object header *)

Section HeaderOffsets.

Variable sizeof_Object : Z.

(** The getters of object.h, which the transactional [SetFieldBoolean],
    [SetField32] and [SetField64] call. *)
Variables GetFieldBoolean GetField32 GetField64 : Z -> Z -> M Z.

#[local] Opaque to_uint8 to_uint16 to_int8 to_int16 to_int32 to_int64.

Ltac unfold_ops :=
  unfold set_primitive_body, compare_and_set64,
    GetIgnoreReadFlag, SetReadBit, load_field, store_field,
    bind, emit, read_object, write_object, ret.

Ltac enter_accessor :=
  cbn [call_accessor GetFieldByte GetFieldChar GetFieldShort
       SetFieldBoolean SetFieldByte SetFieldChar SetFieldShort SetField32
       SetField64 SetField64Volatile CasFieldWeakSequentiallyConsistent64
       CasFieldStrongSequentiallyConsistent64 GetFieldObject
       GetFieldObjectReferenceAddr].

Ltac finish_direct :=
  eexists _, _, _; (split; [reflexivity|]);
  cbn [heap table storage log];
  (split; [reflexivity|]); (split; [reflexivity|]);
  (split; [intros a' Ha'; rewrite ?lookup_insert_ne by congruence;
           reflexivity|]);
  (split; [first [apply lookup_insert_eq | eassumption]|]);
  (split; [reflexivity|]);
  (split;
   [ first [ eexists; split; [reflexivity|]
           | exists []; split; [symmetry; apply app_nil_r|] ];
     cbn; unfold fast_path_event; cbn; rewrite ?Z.eqb_refl; reflexivity
   | ]).

(** C9 (as amended).  The fourteen field accessors whose SWAP_PREAMBLE
    stands behind the test [field_offset.Uint32Value() >= sizeof(Object)]
    go straight to the memory of [this] when the offset lies inside the
    object header, whether or not [this] is a stub: the call returns, the
    stub flag is not even tested, no handshake, swap-in or refresh happens,
    the table and the storage are untouched, no other object is accessed,
    and the result is the one of the raw access to [this], read or stored
    at the type of the accessor.  [SetFieldBoolean], [SetField32],
    [SetField64] and [SetField64Volatile] inside a transaction first read
    the old value through a getter that is defined outside the source; for
    them the statement is about what the setter does after that read,
    whatever the getter did: it records the old value and stores into
    [this], and nothing else. *)
Theorem header_access_is_direct
        (fuel : nat) (a : GuardedAccessor) (this off : Z) (s : State) :
  (0 < fuel)%nat ->
  0 <= off < 2 ^ 32 ->
  off < sizeof_Object ->
  (outside_getter GetFieldBoolean GetField32 GetField64 a = None ->
   forall o, heap s !! this = Some o ->
   exists r s' o',
     call_accessor sizeof_Object GetFieldBoolean GetField32 GetField64
                   fuel a this off s = Some (r, s') /\
     table s' = table s /\
     storage s' = storage s /\
     (forall a', a' <> this -> heap s' !! a' = heap s !! a') /\
     heap s' !! this = Some o' /\
     x_stub_flag o' = x_stub_flag o /\
     (exists evs, log s' = log s ++ evs /\
                  forallb (fast_path_event this) evs = true) /\
     direct_result a this off o r o') /\
  (forall g old s1 o1,
     outside_getter GetFieldBoolean GetField32 GetField64 a = Some g ->
     g this off s = Some (old, s1) ->
     heap s1 !! this = Some o1 ->
     exists v s' o',
       stored_value a = Some v /\
       call_accessor sizeof_Object GetFieldBoolean GetField32 GetField64
                     fuel a this off s = Some (ResVoid, s') /\
       table s' = table s1 /\
       storage s' = storage s1 /\
       (forall a', a' <> this -> heap s' !! a' = heap s1 !! a') /\
       heap s' !! this = Some o' /\
       x_stub_flag o' = x_stub_flag o1 /\
       log s' = log s1 ++ [EvRecordWrite this off old; EvStore this off v] /\
       field_value o' off = v).
Proof.
  intros Hfuel Hrange Hoff.
  destruct fuel as [|fuel]; [lia|].
  assert (Hg : (sizeof_Object <=? off) = false) by (apply Z.leb_gt; exact Hoff).
  split.
  - intros Hout o Ho.
    destruct o as [sf ns ig rb wb db te fs].
    destruct a as [ | tx v | tx v | | | tx v | tx v | tx v | tx v | tx v
                  | tx sp ov nv | tx ov nv | | ];
      try destruct tx; try discriminate Hout;
      enter_accessor; unfold_ops;
      cbn [GetFieldByte GetFieldChar GetFieldShort];
      rewrite ?Hg; unfold_ops; crunch.
    all: try (finish_direct; cbn; unfold field_value; cbn;
              rewrite ?lookup_insert_eq; try tauto; split; reflexivity).
    all: unfold field_value; cbn [obj_fields]; rewrite ?andb_true_r;
      match goal with
      | |- context [if ?c then _ else _] => destruct c eqn:Hc
      end; crunch.
    all: finish_direct; cbn; unfold field_value; cbn;
      rewrite ?andb_true_r, ?Hc; rewrite ?lookup_insert_eq;
      split; reflexivity.
  - intros g old s1 o1 Hout Hrun Ho1.
    destruct s1 as [h1 t1 st1 l1]. cbn [heap] in Ho1.
    destruct a as [ | tx v | tx v | | | tx v | tx v | tx v | tx v | tx v
                  | tx sp ov nv | tx ov nv | | ];
      try destruct tx; try discriminate Hout;
      injection Hout as <-;
      enter_accessor; rewrite ?Hg; enter_accessor; rewrite ?Hg;
      unfold_ops; rewrite Hrun; crunch;
      (eexists _, _, _; split; [reflexivity|]);
      (split; [reflexivity|]);
      cbn [heap table storage log];
      (split; [reflexivity|]); (split; [reflexivity|]);
      (split; [intros a' Ha'; rewrite lookup_insert_ne by congruence;
               reflexivity|]);
      (split; [apply lookup_insert_eq|]);
      (split; [reflexivity|]);
      (split; [rewrite <- ?app_assoc; reflexivity|]);
      unfold field_value; cbn; rewrite lookup_insert_eq; reflexivity.
Qed.

End HeaderOffsets.

(** The stub of [example_state] with the getters of object.h taken as the
    raw load: outside a transaction [SetField32] at offset 4, inside the
    header for [sizeof(Object) = 8], stores 5 into the stub itself and
    leaves the table alone; inside a transaction it does the same after the
    read of the old value. *)
Lemma header_access_is_direct_witness :
  x_stub_flag example_stub = true /\
  (exists r s' o',
     call_accessor 8 load_field load_field load_field
                   1 (AccSetField32 false 5) 256 4 example_state
     = Some (r, s') /\
     table s' = table example_state /\
     heap s' !! 256 = Some o' /\
     field_value o' 4 = 5) /\
  (exists s' o',
     call_accessor 8 load_field load_field load_field
                   1 (AccSetField32 true 5) 256 4 example_state
     = Some (ResVoid, s') /\
     table s' = table example_state /\
     heap s' !! 256 = Some o' /\
     field_value o' 4 = 5 /\
     log s' = [EvLoad 256 4; EvRecordWrite 256 4 0; EvStore 256 4 5]).
Proof.
  split; [reflexivity|]. split.
  - destruct (header_access_is_direct 8 load_field load_field load_field
                1 (AccSetField32 false 5) 256 4 example_state)
      as [Hdirect _]; [lia | lia | lia |].
    destruct (Hdirect eq_refl example_stub eq_refl)
      as (r & s' & o' & Hrun & Htab & _ & _ & Ho' & _ & _ & _ & Hval).
    exists r, s', o'. repeat split; try assumption.
    injection Hval as ->. reflexivity.
  - destruct (header_access_is_direct 8 load_field load_field load_field
                1 (AccSetField32 true 5) 256 4 example_state)
      as [_ Hafter]; [lia | lia | lia |].
    destruct (Hafter load_field 0
                (mkState (heap example_state) (table example_state)
                         (storage example_state) [EvLoad 256 4])
                example_stub eq_refl eq_refl eq_refl)
      as (v & s' & o' & Hv & Hrun & Htab & _ & _ & Ho' & _ & Hlog & Hval).
    injection Hv as <-.
    exists s', o'. repeat split; assumption.
Defined.

(** C9 (where the claim fails).  [SetFieldObjectWithoutWriteBarrier]
    carries the redirection written out by hand, with no offset test.  On
    the stub of [example_state] a store at offset 0, inside the header for
    [sizeof(Object) = 8], tests the stub flag and goes through the whole
    protocol: handshake, swap-in, store into the payload at 4096, refresh,
    release.  The entry ends resident with its counter at 1. *)
Lemma SetFieldObjectWithoutWriteBarrier_header_redirected :
  0 <= 0 < 8 /\
  heap example_state !! 256 = Some example_stub /\
  x_stub_flag example_stub = true /\
  exists s' p',
    SetFieldObjectWithoutWriteBarrier 8 4 false 256 0 77 example_state
    = Some (tt, s') /\
    log s' = [EvGetStubFlag 256; EvLockTableEntry 256; EvSwapInOnDemand 256;
              EvGetStubFlag 4096; EvStore 4096 0 77;
              EvPopulateFrom 256 4096; EvUnlockTableEntry 256] /\
    forallb (fast_path_event 256) (log s') = false /\
    table s' = [mkTableEntry 5 1 1 4096 256] /\
    table s' <> table example_state /\
    heap s' !! 4096 = Some p' /\
    field_value p' 0 = 77.
Proof.
  split; [lia|]. split; [reflexivity|]. split; [reflexivity|].
  eexists _, _.
  split; [vm_compute; reflexivity|].
  split; [reflexivity|].
  split; [reflexivity|].
  split; [reflexivity|].
  split; [discriminate|].
  split; [vm_compute; reflexivity|].
  reflexivity.
Qed.

(** ** Reference compare-and-swap and exchange *)

Section ReferenceCas.

Implicit Types (s : State) (o : ObjectRep).

Ltac unfold_cas :=
  unfold CasFieldObjectWithoutWriteBarrier, CompareAndExchangeFieldObject,
    ExchangeFieldObject, compare_and_set, load_field, store_field,
    bind, emit, read_object, write_object, ret.

(** None of the three tests the stub flag or takes the handshake: on any
    object, stub or not, the operation is carried out on the memory at
    [this] and the reclamation table is left alone. *)
Lemma reference_cas_exchange_direct tx weak_fails s this o off ov nv :
  heap s !! this = Some o ->
  (exists b s',
     CasFieldObjectWithoutWriteBarrier tx weak_fails this off ov nv s
     = Some (b, s') /\
     table s' = table s /\
     forall ev, ev ∈ log s' -> ev ∈ log s \/ is_stub_protocol_event ev = false) /\
  (exists s',
     CompareAndExchangeFieldObject tx this off ov nv s
     = Some (field_value o off, s') /\
     table s' = table s /\
     forall ev, ev ∈ log s' -> ev ∈ log s \/ is_stub_protocol_event ev = false) /\
  (exists s',
     ExchangeFieldObject tx this off nv s = Some (field_value o off, s') /\
     table s' = table s /\
     forall ev, ev ∈ log s' -> ev ∈ log s \/ is_stub_protocol_event ev = false).
Proof.
  intros Ho.
  assert (Hlog : forall (l new : list Event),
             forallb (fun ev => negb (is_stub_protocol_event ev)) new = true ->
             forall ev, ev ∈ l ++ new ->
                        ev ∈ l \/ is_stub_protocol_event ev = false).
  { intros l new Hnew ev Hin. apply elem_of_app in Hin as [Hin|Hin]; [left; exact Hin|].
    right. rewrite forallb_forall in Hnew.
    apply list_elem_of_In in Hin. specialize (Hnew ev Hin).
    apply negb_true_iff in Hnew. exact Hnew. }
  split; [|split].
  - unfold_cas. destruct tx; crunch;
      destruct ((field_value o off =? ov) && negb weak_fails); crunch;
      eexists _, _; (split; [reflexivity|]); (split; [reflexivity|]);
      cbn [log]; apply Hlog; reflexivity.
  - unfold_cas. crunch.
    destruct (field_value o off =? ov); destruct tx; crunch;
      eexists; (split; [reflexivity|]); (split; [reflexivity|]);
      cbn [log]; apply Hlog; reflexivity.
  - unfold_cas. destruct tx; crunch;
      eexists; (split; [reflexivity|]); (split; [reflexivity|]);
      cbn [log]; apply Hlog; reflexivity.
Qed.

End ReferenceCas.

(** C1 (what the code does).  On the stub of [example_state], whose payload
    is evicted, [ExchangeFieldObject], [CompareAndExchangeFieldObject] and
    [CasFieldObjectWithoutWriteBarrier] at offset 8 read and write the
    stub's own memory: no stub-flag test, no handshake, no swap-in; the
    entry stays non-resident with its counter at 0 and the payload address
    stays empty.  The reference store at the same offset goes through the
    whole protocol. *)
Theorem reference_cas_exchange_bypass_stub :
  x_stub_flag example_stub = true /\
  (exists s',
     ExchangeFieldObject false 256 8 77 example_state = Some (0, s') /\
     log s' = [EvLoad 256 8; EvStore 256 8 77; EvWriteBarrier 256 8 77] /\
     table s' = [example_entry] /\
     heap s' !! 4096 = None) /\
  (exists s',
     CompareAndExchangeFieldObject false 256 8 0 77 example_state
     = Some (0, s') /\
     log s' = [EvLoad 256 8; EvStore 256 8 77; EvWriteBarrier 256 8 77] /\
     table s' = [example_entry] /\
     heap s' !! 4096 = None) /\
  (exists s',
     CasFieldObjectWithoutWriteBarrier false false 256 8 0 77 example_state
     = Some (true, s') /\
     log s' = [EvLoad 256 8; EvStore 256 8 77] /\
     table s' = [example_entry] /\
     heap s' !! 4096 = None) /\
  (exists s',
     SetFieldObjectWithoutWriteBarrier 8 4 false 256 8 77 example_state
     = Some (tt, s') /\
     log s' = [EvGetStubFlag 256; EvLockTableEntry 256; EvSwapInOnDemand 256;
               EvGetStubFlag 4096; EvStore 4096 8 77;
               EvPopulateFrom 256 4096; EvUnlockTableEntry 256] /\
     (exists p', heap s' !! 4096 = Some p' /\ field_value p' 8 = 77)).
Proof.
  split; [reflexivity|].
  repeat split.
  - eexists. split; [vm_compute; reflexivity|]. repeat split; reflexivity.
  - eexists. split; [vm_compute; reflexivity|]. repeat split; reflexivity.
  - eexists. split; [vm_compute; reflexivity|]. repeat split; reflexivity.
  - eexists. split; [vm_compute; reflexivity|].
    split; [reflexivity|]. eexists. split; reflexivity.
Qed.

(** ** Free notification in the large object spaces *)

Section FreeNotification.

Variable kPageSize : Z.

Implicit Types (l : list LosEvent) (sp : Space).

Lemma hook_precedes_release_nil : hook_precedes_release [].
Proof. intros i self ptr H. rewrite lookup_nil in H. discriminate. Qed.

Lemma hook_precedes_release_app l1 l2 :
  hook_precedes_release l1 ->
  hook_precedes_release l2 ->
  hook_precedes_release (l1 ++ l2).
Proof.
  intros H1 H2 i self ptr Hi.
  destruct (decide (i < length l1)%nat) as [Hlt|Hge].
  - rewrite lookup_app_l in Hi by exact Hlt.
    destruct (H1 i self ptr Hi) as (j & Hj & Hhook & Hbetween).
    exists j. split; [exact Hj|]. split.
    + rewrite lookup_app_l by lia. exact Hhook.
    + intros k ev Hk Hev. rewrite lookup_app_l in Hev by lia.
      eapply Hbetween; eassumption.
  - rewrite lookup_app_r in Hi by lia.
    destruct (H2 _ self ptr Hi) as (j & Hj & Hhook & Hbetween).
    exists (length l1 + j)%nat. split; [lia|]. split.
    + rewrite lookup_app_r by lia.
      replace (length l1 + j - length l1)%nat with j by lia. exact Hhook.
    + intros k ev Hk Hev. rewrite lookup_app_r in Hev by lia.
      eapply (Hbetween (k - length l1)%nat); [lia | exact Hev].
Qed.

Lemma free_block_hook_first self ptr blk :
  free_block self ptr blk -> blk !! 0%nat = Some (LosGcRecordFree self ptr).
Proof. destruct 1; reflexivity. Qed.

Lemma free_block_discipline self ptr blk :
  free_block self ptr blk -> hook_precedes_release blk.
Proof.
  intros Hblk i self' ptr' Hi.
  destruct Hblk.
  - do 3 (destruct i as [|i]; try discriminate).
  - destruct i as [|[|[|i]]]; try discriminate.
    injection Hi as <- <-. exists 0%nat.
    split; [lia|]. split; [reflexivity|]. intros k ev Hk. lia.
  - destruct i as [|[|[|[|i]]]]; try discriminate.
    injection Hi as <- <-. exists 0%nat.
    split; [lia|]. split; [reflexivity|].
    intros k ev Hk Hev. assert (k = 1%nat) as -> by lia.
    injection Hev as <-. reflexivity.
  - destruct i as [|[|[|[|i]]]]; try discriminate.
    injection Hi as <- <-. exists 0%nat.
    split; [lia|]. split; [reflexivity|].
    intros k ev Hk Hev. assert (k = 1%nat) as -> by lia.
    injection Hev as <-. reflexivity.
Qed.

Lemma LargeObjectMapSpace_Free_block self ptr m :
  exists blk,
    los_log (map_base (snd (LargeObjectMapSpace_Free self ptr m)))
    = los_log (map_base m) ++ blk /\
    free_block self ptr blk /\
    (is_Some (fst (LargeObjectMapSpace_Free self ptr m)) ->
     LosRelease self ptr ∈ blk).
Proof.
  unfold LargeObjectMapSpace_Free.
  destruct (large_objects_ m !! ptr) as [it|]; cbn.
  - eexists. rewrite <- !app_assoc. split; [reflexivity|].
    split; [apply block_map_freed|]. intros _. set_solver.
  - eexists. rewrite <- !app_assoc. split; [reflexivity|].
    split; [apply block_map_fatal|]. intros [x Hx]. discriminate.
Qed.

Lemma RemoveFreePrev_base info (f f' : FreeListSpace) :
  RemoveFreePrev info f = Some f' -> fl_base f' = fl_base f.
Proof.
  unfold RemoveFreePrev.
  destruct (_ && _); [|discriminate]. intros [= <-]. reflexivity.
Qed.

Lemma FreeListSpace_Free_block self ptr f :
  exists blk,
    los_log (fl_base (snd (FreeListSpace_Free kPageSize self ptr f)))
    = los_log (fl_base f) ++ blk /\
    free_block self ptr blk /\
    (is_Some (fst (FreeListSpace_Free kPageSize self ptr f)) ->
     LosRelease self ptr ∈ blk).
Proof.
  unfold FreeListSpace_Free. cbv zeta.
  repeat (match goal with
          | |- context [RemoveFreePrev ?a ?b] =>
              let H := fresh "Hrm" in
              destruct (RemoveFreePrev a b) eqn:H;
              [apply RemoveFreePrev_base in H|]
          | |- context [Z.eqb ?a ?b] => destruct (Z.eqb a b)
          | |- context [Z.leb ?a ?b] => destruct (Z.leb a b)
          | |- context [IsFree ?a] => destruct (IsFree a)
          end; cbv beta iota zeta).
  all: cbn [FreeListSpace_Free_finish fst snd fl_base fl_with_base fl_emit
            set_info los_emit los_account_free los_log GcRecordFree] in *.
  all: repeat match goal with
              | H : fl_base _ = _ |- _ => rewrite H
              end.
  all: cbn [FreeListSpace_Free_finish fst snd fl_base fl_with_base fl_emit
            set_info los_emit los_account_free los_log GcRecordFree].
  all: rewrite <- ?app_assoc; cbn [app].
  all: eexists; (split; [reflexivity|]);
    (split; [first [apply block_list_freed | apply block_list_fatal]|]);
    intros [x Hx]; first [discriminate | set_solver].
Qed.

Lemma Free_block self ptr sp :
  exists blk,
    los_log (base_of (snd (Free kPageSize self ptr sp)))
    = los_log (base_of sp) ++ blk /\
    free_block self ptr blk /\
    (is_Some (fst (Free kPageSize self ptr sp)) -> LosRelease self ptr ∈ blk).
Proof.
  destruct sp as [m|f]; unfold Free.
  - destruct (LargeObjectMapSpace_Free_block self ptr m) as (blk & H1 & H2 & H3).
    destruct (LargeObjectMapSpace_Free self ptr m) as [r m']. eauto.
  - destruct (FreeListSpace_Free_block self ptr f) as (blk & H1 & H2 & H3).
    destruct (FreeListSpace_Free kPageSize self ptr f) as [r f']. eauto.
Qed.

Lemma FreeList_from_discipline self ptrs :
  forall total sp,
  exists new,
    los_log (base_of (snd (FreeList_from kPageSize total self ptrs sp)))
    = los_log (base_of sp) ++ new /\
    hook_precedes_release new /\
    (is_Some (fst (FreeList_from kPageSize total self ptrs sp)) ->
     forall ptr, ptr ∈ ptrs -> LosRelease self ptr ∈ new).
Proof.
  induction ptrs as [|ptr rest IH]; intros total sp.
  - exists []. cbn. rewrite app_nil_r.
    split; [reflexivity|]. split; [apply hook_precedes_release_nil|].
    intros _ ptr Hin. set_solver.
  - cbn [FreeList_from].
    destruct (Free_block self ptr sp) as (blk & Hlog & Hblk & Hrel).
    destruct (Free kPageSize self ptr sp) as [[size|] sp']; cbn [fst snd] in *.
    + destruct (IH (to_uint64 (total + size)) sp') as (new & Hlog' & Hnew & Hrel').
      exists (blk ++ new). rewrite Hlog', Hlog, app_assoc.
      split; [reflexivity|].
      split; [apply hook_precedes_release_app;
              [eapply free_block_discipline, Hblk | exact Hnew]|].
      intros Hsome q Hq. apply elem_of_cons in Hq as [->|Hq].
      * apply elem_of_app. left. apply Hrel. eauto.
      * apply elem_of_app. right. apply Hrel'; assumption.
    + exists blk. split; [exact Hlog|].
      split; [eapply free_block_discipline, Hblk|].
      intros [x Hx]. discriminate.
Qed.

Lemma clear_live_bits_log ptrs :
  forall b,
  exists new,
    los_log (clear_live_bits ptrs b) = los_log b ++ new /\
    forallb (fun ev => negb (is_release ev)) new = true.
Proof.
  induction ptrs as [|ptr rest IH]; intros b; cbn.
  - exists []. rewrite app_nil_r. split; reflexivity.
  - destruct (IH (los_emit (LosBitmapClear ptr)
                    (mkLargeObjectSpace (num_bytes_allocated_ b)
                       (num_objects_allocated_ b) (begin_ b) (end_ b)
                       (live_bitmap_ b ∖ {[ptr]}) (los_log b))))
      as (new & Hlog & Hnew).
    exists (LosBitmapClear ptr :: new).
    unfold clear_live_bits in Hlog. rewrite Hlog. cbn.
    rewrite <- app_assoc. split; [reflexivity | exact Hnew].
Qed.

Lemma no_release_discipline l :
  forallb (fun ev => negb (is_release ev)) l = true -> hook_precedes_release l.
Proof.
  intros Hall i self ptr Hi.
  rewrite forallb_forall in Hall.
  assert (Hin : In (LosRelease self ptr) l).
  { apply list_elem_of_In. eapply list_elem_of_lookup_2, Hi. }
  specialize (Hall _ Hin). discriminate.
Qed.

Lemma base_of_with_base b sp : base_of (with_base b sp) = b.
Proof. destruct sp; reflexivity. Qed.

End FreeNotification.


(** ** The sites that set the no-swap flag *)

Section NoSwapSites.

Variable GetUpdatedAllocator : AllocatorType -> AllocatorType.

Implicit Types (w : AllocWorld) (vm : JavaVMExt).

Lemma allocate_with_success allocator sets w obj w' :
  allocate_with allocator sets w = Some (obj, w') ->
  obj <> 0 ->
  aw_is_zygote w' = aw_is_zygote w /\
  aw_heap w' !! obj = Some fresh_object /\
  aw_space w' !! obj = Some allocator.
Proof.
  unfold allocate_with. destruct (aw_answers w) as [|[addr|pending] rest];
    [discriminate| |].
  - intros [= <- <-] _. cbn. rewrite !lookup_insert_eq. auto.
  - intros [= <- <-] Hobj. congruence.
Qed.

Lemma allocate_with_zygote allocator sets w obj w' :
  allocate_with allocator sets w = Some (obj, w') ->
  aw_is_zygote w' = aw_is_zygote w.
Proof.
  unfold allocate_with. destruct (aw_answers w) as [|[addr|pending] rest];
    [discriminate| |]; intros [= <- <-]; reflexivity.
Qed.

Lemma aw_SetNoSwapFlag_flagged obj w w' :
  aw_SetNoSwapFlag obj w = Some w' ->
  no_swap_at (aw_heap w') obj = true /\
  aw_space w' = aw_space w /\
  aw_is_zygote w' = aw_is_zygote w /\
  aw_log w' = aw_log w ++ [AeSetNoSwapFlag obj].
Proof.
  unfold aw_SetNoSwapFlag, no_swap_at.
  destruct (aw_heap w !! obj) as [o|]; [|discriminate].
  intros [= <-]. cbn. rewrite lookup_insert_eq. auto.
Qed.

Lemma AllocObjectWithAllocator_zygote :
  forall fuel kCheckLargeObject self klass byte_count allocator w obj w',
    AllocObjectWithAllocator GetUpdatedAllocator fuel kCheckLargeObject self
                             klass byte_count allocator w = Some (obj, w') ->
    aw_is_zygote w' = aw_is_zygote w.
Proof.
  induction fuel as [|fuel IH];
    intros kCheck self klass bc allocator w obj w' Hrun; [discriminate|].
  cbn [AllocObjectWithAllocator] in Hrun.
  destruct (kCheck && ShouldAllocLargeObject w klass bc).
  - destruct (AllocObjectWithAllocator GetUpdatedAllocator fuel false self klass
                bc kAllocatorTypeLOS w) as [[obj1 w1]|] eqn:Hinner;
      [|discriminate].
    apply IH in Hinner.
    destruct (negb (obj1 =? 0)).
    + destruct (aw_is_zygote w1) eqn:Hz1.
      * destruct (aw_SetNoSwapFlag obj1 w1) as [w2|] eqn:Hset; [|discriminate].
        injection Hrun as <- <-.
        destruct (aw_SetNoSwapFlag_flagged _ _ _ Hset) as (_ & _ & Hz2 & _).
        congruence.
      * injection Hrun as <- <-. congruence.
    + apply IH in Hrun. cbn in Hrun. congruence.
  - destruct (allocate_with allocator false w) as [[obj1 w1]|] eqn:H1;
      [|discriminate].
    apply allocate_with_zygote in H1.
    destruct (negb (obj1 =? 0)).
    + injection Hrun as <- <-. exact H1.
    + destruct (allocate_with allocator true w1) as [[obj2 w2]|] eqn:H2;
        [|discriminate].
      apply allocate_with_zygote in H2.
      destruct (negb (obj2 =? 0)).
      * injection Hrun as <- <-. cbn. congruence.
      * destruct (negb (aw_exception_pending w2)).
        -- apply IH in Hrun. congruence.
        -- injection Hrun as <- <-. congruence.
Qed.

(** What a call promises about the object it returns while the zygote image
    is built: an object that came from the large object allocator carries
    the flag, unless the call is the inner one made by [AllocLargeObject],
    whose caller sets it. *)
Lemma AllocObjectWithAllocator_zygote_invariant :
  (forall a, GetUpdatedAllocator a <> kAllocatorTypeLOS) ->
  forall fuel kCheckLargeObject self klass byte_count allocator w obj w',
    (kCheckLargeObject = true -> allocator <> kAllocatorTypeLOS) ->
    aw_is_zygote w = true ->
    AllocObjectWithAllocator GetUpdatedAllocator fuel kCheckLargeObject self
                             klass byte_count allocator w = Some (obj, w') ->
    obj <> 0 ->
    is_Some (aw_heap w' !! obj) /\
    exists a, aw_space w' !! obj = Some a /\
              (a = kAllocatorTypeLOS ->
               no_swap_at (aw_heap w') obj = true \/
               (kCheckLargeObject = false /\ allocator = kAllocatorTypeLOS)).
Proof.
  intros Hupd.
  induction fuel as [|fuel IH];
    intros kCheck self klass bc allocator w obj w' Hpre Hz Hrun Hobj;
    [discriminate|].
  cbn [AllocObjectWithAllocator] in Hrun.
  destruct (kCheck && ShouldAllocLargeObject w klass bc) eqn:Hlarge.
  - (* the large object branch *)
    destruct (AllocObjectWithAllocator GetUpdatedAllocator fuel false self klass
                bc kAllocatorTypeLOS w) as [[obj1 w1]|] eqn:Hinner;
      [|discriminate].
    pose proof (AllocObjectWithAllocator_zygote _ _ _ _ _ _ _ _ _ Hinner) as Hz1.
    rewrite Hz in Hz1.
    destruct (Z.eqb_spec obj1 0) as [->|Hne]; cbn [negb] in Hrun.
    + (* AllocLargeObject returned null: retry in the normal spaces *)
      destruct (IH false self klass bc (GetUpdatedAllocator allocator)
                   (aw_ClearException w1) obj w') as (Hh & a & Ha & Hflag);
        try assumption; try discriminate.
      split; [exact Hh|].
      exists a. split; [exact Ha|]. intros HLOS.
      destruct (Hflag HLOS) as [Hf|[_ Hbad]]; [left; exact Hf|].
      exfalso. eapply Hupd, Hbad.
    + destruct (IH false self klass bc kAllocatorTypeLOS w obj1 w1)
        as ([o1 Ho1] & a & Ha & _); try assumption; try discriminate.
      rewrite Hz1 in Hrun.
      destruct (aw_SetNoSwapFlag obj1 w1) as [w2|] eqn:Hset; [|discriminate].
      injection Hrun as <- <-.
      destruct (aw_SetNoSwapFlag_flagged _ _ _ Hset) as (Hf & Hsp & Hz2 & _).
      split.
      { unfold no_swap_at in Hf.
        destruct (aw_heap w2 !! obj1); [eauto|discriminate]. }
      exists a. split; [congruence|]. intros _. left. exact Hf.
  - (* the allocators *)
    assert (Hexempt : allocator = kAllocatorTypeLOS ->
                      kCheck = false /\ allocator = kAllocatorTypeLOS).
    { intros HLOS. split; [|exact HLOS].
      destruct kCheck; [|reflexivity]. exfalso. apply Hpre; auto. }
    destruct (allocate_with allocator false w) as [[obj1 w1]|] eqn:H1;
      [|discriminate].
    destruct (Z.eqb_spec obj1 0) as [->|Hne]; cbn [negb] in Hrun.
    + destruct (allocate_with allocator true w1) as [[obj2 w2]|] eqn:H2;
        [|discriminate].
      destruct (Z.eqb_spec obj2 0) as [->|Hne2]; cbn [negb] in Hrun.
      * destruct (negb (aw_exception_pending w2)).
        -- destruct (IH true self klass bc (GetUpdatedAllocator allocator)
                       w2 obj w') as (Hh & a & Ha & Hflag);
             try assumption.
           { intros _. apply Hupd. }
           { apply allocate_with_zygote in H1, H2. congruence. }
           split; [exact Hh|]. exists a. split; [exact Ha|].
           intros HLOS. destruct (Hflag HLOS) as [Hf|[Hbad _]];
             [left; exact Hf | discriminate].
        -- injection Hrun as <- <-. congruence.
      * injection Hrun as <- <-.
        destruct (allocate_with_success _ _ _ _ _ H2 Hne2) as (_ & Hh & Hs).
        cbn. split; [eauto|]. exists allocator. split; [exact Hs|].
        intros HLOS. right. auto.
    + injection Hrun as <- <-.
      destruct (allocate_with_success _ _ _ _ _ H1 Hne) as (_ & Hh & Hs).
      cbn. split; [eauto|]. exists allocator. split; [exact Hs|].
      intros HLOS. right. auto.
Qed.

Lemma irt_Add_room entries capacity obj :
  (length entries < capacity)%nat ->
  irt_Add entries capacity obj
  = Some (Z.of_nat (S (length entries)), entries ++ [obj]).
Proof. intros H. unfold irt_Add. destruct (decide _); [reflexivity|lia]. Qed.

Lemma irt_Add_ref entries capacity obj ref entries' :
  irt_Add entries capacity obj = Some (ref, entries') -> ref <> 0.
Proof.
  unfold irt_Add. destruct (decide _); [|discriminate].
  intros [= <- <-]. lia.
Qed.

End NoSwapSites.



(** * Further properties of the code *)

(** ** AllocationInfo: sizes and flags in one word *)

Section AllocationInfoWord.

Lemma land_pow2_testbit x k :
  0 <= k -> negb (Z.land x (2 ^ k) =? 0) = Z.testbit x k.
Proof.
  intros Hk. destruct (Z.testbit x k) eqn:Hb.
  - destruct (Z.eqb_spec (Z.land x (2 ^ k)) 0) as [H0|_]; [|reflexivity].
    assert (Hc : Z.testbit (Z.land x (2 ^ k)) k = true).
    { rewrite Z.land_spec, Hb, Z.pow2_bits_true by exact Hk. reflexivity. }
    rewrite H0, Z.bits_0 in Hc. discriminate.
  - assert (H0 : Z.land x (2 ^ k) = 0).
    { apply Z.bits_inj'. intros i Hi.
      rewrite Z.land_spec, Z.bits_0, Z.pow2_bits_eqb by exact Hk.
      destruct (Z.eqb_spec k i) as [<-|_].
      - rewrite Hb. reflexivity.
      - apply andb_false_r. }
    rewrite H0. reflexivity.
Qed.

Lemma small_testbit n k i :
  0 <= n < 2 ^ k -> 0 <= k <= i -> Z.testbit n i = false.
Proof.
  intros Hn Hk.
  destruct (Z.eq_dec n 0) as [->|Hne]; [apply Z.bits_0|].
  apply Z.bits_above_log2; [lia|].
  assert (Z.log2 n < k) by (apply Z.log2_lt_pow2; lia). lia.
Qed.

Lemma IsFree_testbit i : IsFree i = Z.testbit (alloc_size_ i) 31.
Proof. unfold IsFree. apply (land_pow2_testbit _ 31). lia. Qed.

Lemma IsZygoteObject_testbit i :
  IsZygoteObject i = Z.testbit (alloc_size_ i) 30.
Proof. unfold IsZygoteObject. apply (land_pow2_testbit _ 30). lia. Qed.

Lemma AlignSize_mod i : AlignSize i = alloc_size_ i mod 2 ^ 30.
Proof.
  unfold AlignSize. change kFlagsMask with (Z.ones 30).
  apply Z.land_ones. lia.
Qed.

Lemma to_uint32_testbit z i :
  0 <= i < 32 -> Z.testbit (to_uint32 z) i = Z.testbit z i.
Proof.
  intros Hi. unfold to_uint32. change 4294967296 with (2 ^ 32).
  apply Z.mod_pow2_bits_low. lia.
Qed.

Lemma lor_flag_free n : 0 <= n < 2 ^ 30 -> Z.lor n (2 ^ 31) = n + 2 ^ 31.
Proof.
  intros Hn.
  assert (H0 : Z.land n (2 ^ 31) = 0).
  { apply Z.bits_inj'. intros i Hi.
    rewrite Z.land_spec, Z.bits_0, Z.pow2_bits_eqb by lia.
    destruct (Z.eqb_spec 31 i) as [<-|_].
    - rewrite (small_testbit n 30 31) by lia. reflexivity.
    - apply andb_false_r. }
  rewrite (Z.add_nocarry_lxor n (2 ^ 31) H0). symmetry.
  apply Z.lxor_lor. exact H0.
Qed.

Lemma size_word n (free : bool) :
  0 <= n < 2 ^ 30 ->
  to_uint32 (Z.lor n (if free then kFlagFree else 0))
  = Z.lor n (if free then 2 ^ 31 else 0).
Proof.
  intros Hn. change kFlagFree with (2 ^ 31).
  unfold to_uint32. apply Z.mod_small.
  destruct free.
  - rewrite lor_flag_free by exact Hn. lia.
  - rewrite Z.lor_0_r. lia.
Qed.

Lemma size_word_testbit n (free : bool) j :
  0 <= n < 2 ^ 30 -> 30 <= j ->
  Z.testbit (Z.lor n (if free then 2 ^ 31 else 0)) j = free && (31 =? j).
Proof.
  intros Hn Hj. rewrite Z.lor_spec, (small_testbit n 30 j) by lia.
  destruct free.
  - rewrite Z.pow2_bits_eqb by lia. reflexivity.
  - apply Z.bits_0.
Qed.

End AllocationInfoWord.

Lemma SetByteSize_readers (kPageSize n : Z) (free : bool)
        (i : AllocationInfo) :
  0 < kPageSize -> 0 <= n < 2 ^ 30 ->
  let i' := SetByteSize kPageSize (n * kPageSize) free i in
  ByteSize kPageSize i' = n * kPageSize /\
  AlignSize i' = n /\
  IsFree i' = free /\
  IsZygoteObject i' = false /\
  GetPrevFree i' = GetPrevFree i.
Proof.
  intros Hp Hn i'.
  assert (Hw : alloc_size_ i' = Z.lor n (if free then 2 ^ 31 else 0)).
  { unfold i', SetByteSize, kAlignment; simpl.
    rewrite Z.div_mul by lia. apply size_word. exact Hn. }
  assert (Ha : AlignSize i' = n).
  { rewrite AlignSize_mod, Hw. destruct free.
    - rewrite lor_flag_free by exact Hn. change (2 ^ 31) with (2 * 2 ^ 30).
      rewrite Z.mod_add by lia. apply Z.mod_small. lia.
    - rewrite Z.lor_0_r. apply Z.mod_small. lia. }
  repeat split.
  - unfold ByteSize, kAlignment. rewrite Ha. reflexivity.
  - exact Ha.
  - rewrite IsFree_testbit, Hw, size_word_testbit by lia.
    apply andb_true_r.
  - rewrite IsZygoteObject_testbit, Hw, size_word_testbit by lia.
    apply andb_false_r.
Qed.

(** X1.  [SetByteSize] followed by the readers: for a size of [n] pages,
    [n] below 2^30, [ByteSize] gives the size back, [AlignSize] is [n],
    [IsFree] is the flag that was passed, the zygote flag is cleared
    whatever it was, and [prev_free_] is untouched. *)
Theorem SetByteSize_round_trip (kPageSize n : Z) (free : bool)
        (i : AllocationInfo) :
  0 < kPageSize -> 0 <= n < 2 ^ 30 ->
  let i' := SetByteSize kPageSize (n * kPageSize) free i in
  ByteSize kPageSize i' = n * kPageSize /\
  AlignSize i' = n /\
  IsFree i' = free /\
  IsZygoteObject i' = false /\
  GetPrevFree i' = GetPrevFree i.
Proof. apply SetByteSize_readers. Qed.

Lemma SetByteSize_round_trip_witness :
  let i' := SetByteSize 4096 (3 * 4096) true (mkAllocationInfo 2 kFlagZygote) in
  ByteSize 4096 i' = 3 * 4096 /\ AlignSize i' = 3 /\ IsFree i' = true /\
  IsZygoteObject i' = false /\ GetPrevFree i' = 2.
Proof.
  apply (SetByteSize_round_trip 4096 3 true (mkAllocationInfo 2 kFlagZygote));
    lia.
Defined.

(** X2.  [SetZygoteObject] on a 32-bit word sets the zygote flag and keeps
    the size in pages, the free flag and [prev_free_]; the word stays a
    32-bit word. *)
Theorem SetZygoteObject_keeps_size (i : AllocationInfo) :
  0 <= alloc_size_ i < 2 ^ 32 ->
  IsZygoteObject (SetZygoteObject i) = true /\
  AlignSize (SetZygoteObject i) = AlignSize i /\
  IsFree (SetZygoteObject i) = IsFree i /\
  GetPrevFree (SetZygoteObject i) = GetPrevFree i /\
  0 <= alloc_size_ (SetZygoteObject i) < 2 ^ 32.
Proof.
  intros Hr.
  assert (Hz : kFlagZygote = 2 ^ 30) by reflexivity.
  assert (Hnn : 0 <= Z.lor (alloc_size_ i) kFlagZygote).
  { apply Z.lor_nonneg. rewrite Hz. lia. }
  repeat split.
  - rewrite IsZygoteObject_testbit.
    unfold SetZygoteObject; cbn [alloc_size_ prev_free_]. rewrite Hz.
    rewrite Z.lor_spec, Z.pow2_bits_true by lia. apply orb_true_r.
  - unfold AlignSize, SetZygoteObject; cbn [alloc_size_ prev_free_].
    apply Z.bits_inj'. intros j Hj.
    rewrite !Z.land_spec, Z.lor_spec, Hz.
    change kFlagsMask with (Z.ones 30).
    rewrite Z.pow2_bits_eqb by lia.
    destruct (Z.eqb_spec 30 j) as [<-|_].
    + rewrite Z.ones_spec_high by lia. rewrite !andb_false_r. reflexivity.
    + rewrite orb_false_r. reflexivity.
  - rewrite !IsFree_testbit.
    unfold SetZygoteObject; cbn [alloc_size_ prev_free_]. rewrite Hz.
    rewrite Z.lor_spec, Z.pow2_bits_false by lia. apply orb_false_r.
  - exact Hnn.
  - unfold SetZygoteObject; cbn [alloc_size_ prev_free_].
    destruct (Z.eq_dec (Z.lor (alloc_size_ i) kFlagZygote) 0) as [->|Hne];
      [lia|].
    apply Z.log2_lt_pow2; [lia|].
    rewrite Z.log2_lor by (try rewrite Hz; lia).
    rewrite Hz, Z.log2_pow2 by lia.
    destruct (Z.eq_dec (alloc_size_ i) 0) as [->|Hz0]; [simpl; lia|].
    assert (Z.log2 (alloc_size_ i) < 32) by (apply Z.log2_lt_pow2; lia).
    lia.
Qed.

Lemma SetZygoteObject_keeps_size_witness :
  let i := mkAllocationInfo 0 (3 + kFlagFree) in
  IsZygoteObject (SetZygoteObject i) = true /\
  AlignSize (SetZygoteObject i) = AlignSize i /\
  IsFree (SetZygoteObject i) = IsFree i /\
  GetPrevFree (SetZygoteObject i) = GetPrevFree i /\
  0 <= alloc_size_ (SetZygoteObject i) < 2 ^ 32.
Proof.
  apply (SetZygoteObject_keeps_size (mkAllocationInfo 0 (3 + kFlagFree))).
  vm_compute. split; congruence.
Defined.

(** X3.  [SetPrevFreeBytes] followed by [GetPrevFreeBytes] gives back a
    size of [n] pages, [n] below 2^32, and leaves the size word with its
    flags alone. *)
Theorem SetPrevFreeBytes_round_trip (kPageSize n : Z) (i : AllocationInfo) :
  0 < kPageSize -> 0 <= n < 2 ^ 32 ->
  GetPrevFreeBytes kPageSize (SetPrevFreeBytes kPageSize (n * kPageSize) i)
  = n * kPageSize /\
  alloc_size_ (SetPrevFreeBytes kPageSize (n * kPageSize) i) = alloc_size_ i.
Proof.
  intros Hp Hn. split; [|reflexivity].
  unfold GetPrevFreeBytes, SetPrevFreeBytes, GetPrevFree, kAlignment; simpl.
  rewrite Z.div_mul by lia. unfold to_uint32.
  rewrite Z.mod_small by lia. reflexivity.
Qed.

Lemma SetPrevFreeBytes_round_trip_witness :
  GetPrevFreeBytes 4096 (SetPrevFreeBytes 4096 (5 * 4096)
                                          (mkAllocationInfo 9 kFlagFree))
  = 5 * 4096 /\
  alloc_size_ (SetPrevFreeBytes 4096 (5 * 4096) (mkAllocationInfo 9 kFlagFree))
  = kFlagFree.
Proof.
  apply (SetPrevFreeBytes_round_trip 4096 5 (mkAllocationInfo 9 kFlagFree));
    lia.
Defined.

(** X4.  [SortByPrevFree] is a strict total order on the triples
    (previous free pages, size in pages, pointer): irreflexive, transitive,
    and two operands neither of which is before the other agree on all
    three. *)
Theorem SortByPrevFree_strict_total_order :
  (forall a, SortByPrevFree a a = false) /\
  (forall a b c, SortByPrevFree a b = true -> SortByPrevFree b c = true ->
                 SortByPrevFree a c = true) /\
  (forall a b, SortByPrevFree a b = false -> SortByPrevFree b a = false ->
               GetPrevFree a.1 = GetPrevFree b.1 /\
               AlignSize a.1 = AlignSize b.1 /\ a.2 = b.2).
Proof.
  unfold SortByPrevFree. repeat split.
  - intros a. rewrite !Z.ltb_irrefl, !Z.gtb_ltb, !Z.ltb_irrefl. reflexivity.
  - intros a b c. rewrite !Z.gtb_ltb.
    repeat match goal with
           | |- context [?x <? ?y] => destruct (Z.ltb_spec x y)
           end; intros; try reflexivity; try discriminate; lia.
  - revert H H0. rewrite !Z.gtb_ltb.
    repeat match goal with
           | |- context [?x <? ?y] => destruct (Z.ltb_spec x y)
           end; intros; try discriminate; lia.
  - revert H H0. rewrite !Z.gtb_ltb.
    repeat match goal with
           | |- context [?x <? ?y] => destruct (Z.ltb_spec x y)
           end; intros; try discriminate; lia.
  - revert H H0. rewrite !Z.gtb_ltb.
    repeat match goal with
           | |- context [?x <? ?y] => destruct (Z.ltb_spec x y)
           end; intros; try discriminate; lia.
Qed.

(** ** LargeObjectMapSpace: allocation, zygote marking, red zones *)

Section MapSpaceAlloc.

Lemma to_uint64_small z : 0 <= z < 2 ^ 64 -> to_uint64 z = z.
Proof. intros H. unfold to_uint64. apply Z.mod_small. lia. Qed.

Lemma to_uint64_range z : 0 <= to_uint64 z < 2 ^ 64.
Proof. unfold to_uint64. apply Z.mod_pos_bound. lia. Qed.

Lemma forallb_false_elem {A} (f : A -> bool) (l : list A) :
  forallb f l = false <-> exists x, x ∈ l /\ f x = false.
Proof.
  induction l as [|a l IH]; cbn.
  - split; [discriminate|]. intros (x & Hx & _). inversion Hx.
  - rewrite andb_false_iff, IH. split.
    + intros [Ha|(x & Hx & Hf)].
      * exists a. split; [left|exact Ha].
      * exists x. split; [right; exact Hx|exact Hf].
    + intros (x & Hx & Hf). inversion Hx; subst.
      * left. exact Hf.
      * right. exists x. split; assumption.
Qed.

End MapSpaceAlloc.

(** X5.  [LargeObjectMapSpace::Alloc] followed by [Free] of the object it
    returned, where [Put] of a key that is not in the map inserts it:
    with a mapping at a fresh address, the object is recorded as
    live, not zygote, with the size of the mapping in all three
    out-parameters; [Free] returns that size and puts [large_objects_],
    [num_bytes_allocated_] and [num_objects_allocated_] back to what they
    were.  The two running totals keep the allocation, and [Begin()] and
    [End()] stay widened around the mapping. *)
Theorem LargeObjectMapSpace_Alloc_Free_round_trip
        (Put : Z -> LargeObject -> gmap Z LargeObject -> gmap Z LargeObject)
        (self num_bytes obj size : Z) (sp : LargeObjectMapSpace) (t : Totals) :
  (forall k v m, m !! k = None -> Put k v m = <[k := v]> m) ->
  large_objects_ sp !! obj = None ->
  0 <= size -> 0 < obj -> obj + size < 2 ^ 64 ->
  0 <= num_bytes_allocated_ (map_base sp) ->
  num_bytes_allocated_ (map_base sp) + size < 2 ^ 64 ->
  0 <= num_objects_allocated_ (map_base sp) ->
  num_objects_allocated_ (map_base sp) + 1 < 2 ^ 64 ->
  exists sp1 t1 sp2,
    LargeObjectMapSpace_Alloc Put self num_bytes (Some (obj, size)) sp t
    = (Some (mkAllocOut obj size size size), sp1, t1) /\
    LargeObjectMapSpace_Contains obj sp1 = true /\
    LargeObjectMapSpace_IsZygoteLargeObject self obj sp1 = Some false /\
    LargeObjectMapSpace_AllocationSize obj sp1 = Some size /\
    begin_ (map_base sp1) <= obj /\ obj + size <= end_ (map_base sp1) /\
    LargeObjectMapSpace_Free self obj sp1 = (Some size, sp2) /\
    large_objects_ sp2 = large_objects_ sp /\
    num_bytes_allocated_ (map_base sp2) = num_bytes_allocated_ (map_base sp) /\
    num_objects_allocated_ (map_base sp2)
    = num_objects_allocated_ (map_base sp) /\
    begin_ (map_base sp2) = begin_ (map_base sp1) /\
    end_ (map_base sp2) = end_ (map_base sp1) /\
    total_bytes_allocated_ t1 = to_uint64 (total_bytes_allocated_ t + size) /\
    total_objects_allocated_ t1 = to_uint64 (total_objects_allocated_ t + 1).
Proof.
  intros HPut Hfresh Hsize Hobj Hend Hb0 Hb1 Ho0 Ho1.
  unfold LargeObjectMapSpace_Alloc. rewrite HPut by exact Hfresh.
  eexists _, _, _. split; [reflexivity|].
  unfold LargeObjectMapSpace_Contains, LargeObjectMapSpace_IsZygoteLargeObject,
    LargeObjectMapSpace_AllocationSize, LargeObjectMapSpace_Free.
  cbn [large_objects_ map_base].
  rewrite !lookup_insert_eq.
  cbn [is_zygote mem_map_BaseSize].
  repeat split.
  - unfold los_account_alloc; cbn [begin_].
    destruct ((begin_ (map_base sp) =? 0) || (obj <? begin_ (map_base sp)))
      eqn:Hc; [lia|].
    apply orb_false_iff in Hc as [_ Hc]. apply Z.ltb_ge in Hc. exact Hc.
  - unfold los_account_alloc; cbn [end_].
    rewrite (to_uint64_small (obj + size)) by lia. lia.
  - cbn [large_objects_]. apply delete_insert_id. exact Hfresh.
  - cbn [map_base]. unfold los_emit, los_account_free, GcRecordFree, los_emit,
      los_account_alloc. cbn [num_bytes_allocated_].
    rewrite (to_uint64_small (_ + size)) by lia.
    replace (num_bytes_allocated_ (map_base sp) + size - size)
      with (num_bytes_allocated_ (map_base sp)) by lia.
    apply to_uint64_small. lia.
  - cbn [map_base]. unfold los_emit, los_account_free, GcRecordFree, los_emit,
      los_account_alloc. cbn [num_objects_allocated_].
    rewrite (to_uint64_small (_ + 1)) by lia.
    replace (num_objects_allocated_ (map_base sp) + 1 - 1)
      with (num_objects_allocated_ (map_base sp)) by lia.
    apply to_uint64_small. lia.
Qed.

Lemma LargeObjectMapSpace_Alloc_Free_round_trip_witness :
  exists sp1 t1 sp2,
    LargeObjectMapSpace_Alloc
      (fun k v m => <[k := v]> m) 1 4000 (Some (8192, 4096))
      (mkLargeObjectMapSpace (mkLargeObjectSpace 0 0 0 0 ∅ []) ∅)
      (mkTotals 0 0)
    = (Some (mkAllocOut 8192 4096 4096 4096), sp1, t1) /\
    LargeObjectMapSpace_Free 1 8192 sp1 = (Some 4096, sp2) /\
    large_objects_ sp2 = ∅ /\
    total_bytes_allocated_ t1 = 4096.
Proof.
  destruct (LargeObjectMapSpace_Alloc_Free_round_trip
              (fun k v m => <[k := v]> m) 1 4000 8192 4096
              (mkLargeObjectMapSpace (mkLargeObjectSpace 0 0 0 0 ∅ []) ∅)
              (mkTotals 0 0))
    as (sp1 & t1 & sp2 & Ha & _ & _ & _ & _ & _ & Hf & Hm & _ & _ & _ & _
        & Ht & _);
    [reflexivity | reflexivity | simpl; lia ..|].
  exists sp1, t1, sp2. repeat split; assumption.
Defined.

(** X6.  [LargeObjectMapSpace::Free] of a pointer that is not live: the
    free notification has already been sent when the lookup fails, the call
    ends in [LOG(FATAL)], and neither the map nor the counters were
    touched. *)
Theorem LargeObjectMapSpace_Free_not_live
        (self ptr : Z) (sp : LargeObjectMapSpace) :
  large_objects_ sp !! ptr = None ->
  exists sp',
    LargeObjectMapSpace_Free self ptr sp = (None, sp') /\
    large_objects_ sp' = large_objects_ sp /\
    num_bytes_allocated_ (map_base sp') = num_bytes_allocated_ (map_base sp) /\
    num_objects_allocated_ (map_base sp')
    = num_objects_allocated_ (map_base sp) /\
    los_log (map_base sp')
    = los_log (map_base sp) ++ [LosGcRecordFree self ptr; LosFatal].
Proof.
  intros Hnone. unfold LargeObjectMapSpace_Free. rewrite Hnone.
  eexists. split; [reflexivity|]. repeat split.
  cbn. rewrite <- app_assoc. reflexivity.
Qed.

Lemma LargeObjectMapSpace_Free_not_live_witness :
  exists sp',
    LargeObjectMapSpace_Free
      1 8192 (mkLargeObjectMapSpace (mkLargeObjectSpace 0 0 0 0 ∅ []) ∅)
    = (None, sp') /\
    los_log (map_base sp') = [LosGcRecordFree 1 8192; LosFatal].
Proof.
  destruct (LargeObjectMapSpace_Free_not_live
              1 8192 (mkLargeObjectMapSpace (mkLargeObjectSpace 0 0 0 0 ∅ []) ∅))
    as (sp' & Hf & _ & _ & _ & Hl); [reflexivity|].
  exists sp'. split; assumption.
Defined.

(** X7.  [SetAllLargeObjectsAsZygoteObjects] without the mark bit, where
    [Put] of a key that is not in the map inserts it: every
    live object becomes a zygote large object and keeps its size; the set of
    live objects and the counters are unchanged; an object allocated
    afterwards at a fresh address is not a zygote large object.  With the
    mark bit, the call fails its [CHECK] exactly when the mark bit of some
    live object cannot be set. *)
Theorem SetAllLargeObjectsAsZygoteObjects_marks_live
        (Put : Z -> LargeObject -> gmap Z LargeObject -> gmap Z LargeObject)
        (mark : Z -> bool) (self : Z) (sp : LargeObjectMapSpace) :
  (forall k v m, m !! k = None -> Put k v m = <[k := v]> m) ->
  (exists sp',
     LargeObjectMapSpace_SetAllLargeObjectsAsZygoteObjects mark self false sp
     = Some sp' /\
     map_base sp' = map_base sp /\
     (forall obj,
        LargeObjectMapSpace_Contains obj sp'
        = LargeObjectMapSpace_Contains obj sp /\
        LargeObjectMapSpace_AllocationSize obj sp'
        = LargeObjectMapSpace_AllocationSize obj sp /\
        (LargeObjectMapSpace_Contains obj sp = true ->
         LargeObjectMapSpace_IsZygoteLargeObject self obj sp' = Some true)) /\
     (forall num_bytes obj size t,
        large_objects_ sp !! obj = None ->
        LargeObjectMapSpace_IsZygoteLargeObject
          self obj
          (LargeObjectMapSpace_Alloc Put self num_bytes (Some (obj, size))
                                     sp' t).1.2
        = Some false)) /\
  (LargeObjectMapSpace_SetAllLargeObjectsAsZygoteObjects mark self true sp
   = None <->
   exists obj, LargeObjectMapSpace_Contains obj sp = true /\ mark obj = false).
Proof.
  intros HPut. split.
  - eexists. split; [reflexivity|]. split; [reflexivity|]. split.
    + intros obj.
      unfold LargeObjectMapSpace_Contains, LargeObjectMapSpace_AllocationSize,
        LargeObjectMapSpace_IsZygoteLargeObject.
      cbn [large_objects_]. rewrite lookup_fmap.
      destruct (large_objects_ sp !! obj) as [lo|]; cbn;
        repeat split; congruence.
    + intros num_bytes obj size t Hfresh.
      unfold LargeObjectMapSpace_Alloc, LargeObjectMapSpace_IsZygoteLargeObject.
      cbn [large_objects_ fst snd].
      rewrite HPut by (rewrite lookup_fmap, Hfresh; reflexivity).
      rewrite lookup_insert_eq. reflexivity.
  - unfold LargeObjectMapSpace_SetAllLargeObjectsAsZygoteObjects.
    cbn [andb].
    assert (Hlive : forall obj,
               obj ∈ elements (dom (large_objects_ sp))
               <-> LargeObjectMapSpace_Contains obj sp = true).
    { intros obj. rewrite elem_of_elements, elem_of_dom.
      unfold LargeObjectMapSpace_Contains.
      destruct (large_objects_ sp !! obj) as [lo|]; split;
        try reflexivity; try discriminate.
      - intros _. exists lo. reflexivity.
      - intros [lo Hlo]. discriminate. }
    destruct (forallb mark (elements (dom (large_objects_ sp)))) eqn:Hall;
      cbn [negb].
    + split; [discriminate|]. intros (obj & Hc & Hm). exfalso.
      assert (Hf : forallb mark (elements (dom (large_objects_ sp))) = false).
      { apply forallb_false_elem. exists obj. split; [|exact Hm].
        apply Hlive. exact Hc. }
      congruence.
    + split; [|reflexivity]. intros _.
      apply forallb_false_elem in Hall as (obj & Hin & Hm).
      exists obj. split; [|exact Hm]. apply Hlive. exact Hin.
Qed.

Lemma SetAllLargeObjectsAsZygoteObjects_marks_live_witness :
  LargeObjectMapSpace_SetAllLargeObjectsAsZygoteObjects
    (fun obj => negb (obj =? 8192)) 1 true
    (mkLargeObjectMapSpace (mkLargeObjectSpace 4096 1 8192 12288 ∅ [])
                           {[ 8192 := mkLargeObject 4096 false ]})
  = None <->
  exists obj,
    LargeObjectMapSpace_Contains
      obj (mkLargeObjectMapSpace (mkLargeObjectSpace 4096 1 8192 12288 ∅ [])
                                 {[ 8192 := mkLargeObject 4096 false ]})
    = true /\
    (fun obj => negb (obj =? 8192)) obj = false.
Proof.
  apply (SetAllLargeObjectsAsZygoteObjects_marks_live
           (fun k v m => <[k := v]> m) (fun obj => negb (obj =? 8192)) 1
           (mkLargeObjectMapSpace (mkLargeObjectSpace 4096 1 8192 12288 ∅ [])
                                  {[ 8192 := mkLargeObject 4096 false ]})).
  reflexivity.
Defined.

(** X8.  The red zones of [MemoryToolLargeObjectMapSpace], where [Put] of
    a key that is not in the map inserts it: [Alloc] returns
    the address one page after the start of the mapping and reports
    [num_bytes] as usable; [Free] of that address steps back over the red
    zone, so the free notification, the release and the map entry are those
    of the start of the mapping, and the live objects are as before the
    allocation. *)
Theorem MemoryTool_red_zone_round_trip
        (Put : Z -> LargeObject -> gmap Z LargeObject -> gmap Z LargeObject)
        (kPageSize self num_bytes base size : Z)
        (sp : LargeObjectMapSpace) (t : Totals) :
  (forall k v m, m !! k = None -> Put k v m = <[k := v]> m) ->
  0 < kPageSize -> 0 < base -> base + kPageSize < 2 ^ 64 ->
  large_objects_ sp !! base = None ->
  exists sp1 t1 sp2,
    MemoryToolLargeObjectMapSpace_Alloc
      kPageSize Put self num_bytes (Some (base, size)) sp t
    = (base + kPageSize, num_bytes,
       Some (mkAllocOut base size size size), sp1, t1) /\
    MemoryToolLargeObjectMapSpace_AllocationSize
      kPageSize (base + kPageSize) sp1 = Some size /\
    MemoryToolLargeObjectMapSpace_Free kPageSize self (base + kPageSize) sp1
    = (Some size, sp2) /\
    large_objects_ sp2 = large_objects_ sp /\
    los_log (map_base sp2)
    = los_log (map_base sp)
      ++ [LosGcRecordFree self base; LosRelease self base;
          LosInstRecordFree size 1].
Proof.
  intros HPut Hp Hb Hr Hfresh.
  assert (Hback : ObjectWithRedzone kPageSize (base + kPageSize) = base).
  { unfold ObjectWithRedzone, kMemoryToolRedZoneBytes.
    replace (base + kPageSize - kPageSize) with base by lia.
    apply to_uint64_small. lia. }
  unfold MemoryToolLargeObjectMapSpace_Alloc, LargeObjectMapSpace_Alloc.
  rewrite HPut by exact Hfresh. cbn [out_obj].
  unfold kMemoryToolRedZoneBytes.
  rewrite (to_uint64_small (base + kPageSize)) by lia.
  eexists _, _, _. split; [reflexivity|].
  unfold MemoryToolLargeObjectMapSpace_Free,
    MemoryToolLargeObjectMapSpace_AllocationSize,
    LargeObjectMapSpace_AllocationSize, LargeObjectMapSpace_Free.
  rewrite Hback. cbn [large_objects_ map_base].
  rewrite !lookup_insert_eq. cbn [mem_map_BaseSize].
  split; [reflexivity|]. split; [reflexivity|]. split.
  - cbn [large_objects_]. apply delete_insert_id. exact Hfresh.
  - cbn. rewrite <- !app_assoc. reflexivity.
Qed.

Lemma MemoryTool_red_zone_round_trip_witness :
  exists sp1 t1 sp2,
    MemoryToolLargeObjectMapSpace_Alloc
      4096 (fun k v m => <[k := v]> m) 1 100 (Some (8192, 12288))
      (mkLargeObjectMapSpace (mkLargeObjectSpace 0 0 0 0 ∅ []) ∅)
      (mkTotals 0 0)
    = (12288, 100, Some (mkAllocOut 8192 12288 12288 12288), sp1, t1) /\
    MemoryToolLargeObjectMapSpace_Free 4096 1 12288 sp1 = (Some 12288, sp2) /\
    los_log (map_base sp2)
    = [LosGcRecordFree 1 8192; LosRelease 1 8192; LosInstRecordFree 12288 1].
Proof.
  destruct (MemoryTool_red_zone_round_trip
              (fun k v m => <[k := v]> m) 4096 1 100 8192 12288
              (mkLargeObjectMapSpace (mkLargeObjectSpace 0 0 0 0 ∅ []) ∅)
              (mkTotals 0 0))
    as (sp1 & t1 & sp2 & Ha & _ & Hf & _ & Hl);
    [reflexivity | lia | lia | lia | reflexivity |].
  exists sp1, t1, sp2. repeat split; assumption.
Defined.

(** X9.  When the mapping fails, [MemoryToolLargeObjectMapSpace::Alloc]
    still adds the red zone to the null pointer of the base class: the
    caller gets the address [kPageSize], which is not null, and
    [num_bytes] as usable size, while the space is unchanged and the base
    class reported no allocation.  [MemoryToolLargeObjectMapSpace::Free] of
    an address whose mapping is not live dies in the [CHECK] of
    [AllocationSize] before any free notification is sent. *)
Theorem MemoryTool_failure_paths
        (Put : Z -> LargeObject -> gmap Z LargeObject -> gmap Z LargeObject)
        (kPageSize self num_bytes obj : Z)
        (sp : LargeObjectMapSpace) (t : Totals) :
  0 < kPageSize < 2 ^ 64 ->
  large_objects_ sp !! ObjectWithRedzone kPageSize obj = None ->
  MemoryToolLargeObjectMapSpace_Alloc kPageSize Put self num_bytes None sp t
  = (kPageSize, num_bytes, None, sp, t) /\
  kPageSize <> 0 /\
  exists sp',
    MemoryToolLargeObjectMapSpace_Free kPageSize self obj sp = (None, sp') /\
    large_objects_ sp' = large_objects_ sp /\
    los_log (map_base sp') = los_log (map_base sp) ++ [LosFatal].
Proof.
  intros Hp Hnone. split; [|split; [lia|]].
  - unfold MemoryToolLargeObjectMapSpace_Alloc, LargeObjectMapSpace_Alloc,
      kMemoryToolRedZoneBytes.
    rewrite Z.add_0_l, to_uint64_small by lia. reflexivity.
  - unfold MemoryToolLargeObjectMapSpace_Free,
      MemoryToolLargeObjectMapSpace_AllocationSize,
      LargeObjectMapSpace_AllocationSize.
    rewrite Hnone. eexists. repeat split.
Qed.

Lemma MemoryTool_failure_paths_witness :
  MemoryToolLargeObjectMapSpace_Alloc
    4096 (fun k v m => <[k := v]> m) 1 100 None
    (mkLargeObjectMapSpace (mkLargeObjectSpace 0 0 0 0 ∅ []) ∅) (mkTotals 0 0)
  = (4096, 100, None,
     mkLargeObjectMapSpace (mkLargeObjectSpace 0 0 0 0 ∅ []) ∅, mkTotals 0 0).
Proof.
  apply (MemoryTool_failure_paths
           (fun k v m => <[k := v]> m) 4096 1 100 12288
           (mkLargeObjectMapSpace (mkLargeObjectSpace 0 0 0 0 ∅ []) ∅)
           (mkTotals 0 0)); [lia | reflexivity].
Defined.

(** ** FreeListSpace: best fit, the free end, coalescing *)

Section FreeListAllocProps.

Variable kPageSize : Z.
Hypothesis kPageSize_pos : 0 < kPageSize.
Variable RoundUp : Z -> Z -> Z.
Variables allocation_info_ptr temp_info_ptr : Z.

Lemma SortByPrevFree_irrefl a : SortByPrevFree a a = false.
Proof.
  unfold SortByPrevFree.
  rewrite !Z.gtb_ltb, !Z.ltb_irrefl. reflexivity.
Qed.

Lemma SortByPrevFree_trans a b c :
  SortByPrevFree a b = true -> SortByPrevFree b c = true ->
  SortByPrevFree a c = true.
Proof.
  unfold SortByPrevFree. rewrite !Z.gtb_ltb.
  repeat match goal with
         | |- context [?x <? ?y] => destruct (Z.ltb_spec x y)
         end; intros; try reflexivity; try discriminate; lia.
Qed.

Lemma lower_bound_spec sp temp :
  match lower_bound allocation_info_ptr sp temp with
  | Some c =>
      c ∈ free_blocks_ sp /\
      SortByPrevFree (info_operand allocation_info_ptr sp c) temp = false /\
      forall s, s ∈ free_blocks_ sp ->
                SortByPrevFree (info_operand allocation_info_ptr sp s) temp
                = false ->
                SortByPrevFree (info_operand allocation_info_ptr sp s)
                               (info_operand allocation_info_ptr sp c) = false
  | None =>
      forall s, s ∈ free_blocks_ sp ->
                SortByPrevFree (info_operand allocation_info_ptr sp s) temp
                = true
  end.
Proof.
  unfold lower_bound.
  assert (Hl : forall s, s ∈ free_blocks_ sp
                         <-> s ∈ elements (free_blocks_ sp)).
  { intros s. symmetry. apply elem_of_elements. }
  revert Hl. generalize (elements (free_blocks_ sp)) as l.
  generalize (free_blocks_ sp) as fb. intros fb l. revert fb.
  induction l as [|a l IH]; intros fb Hl; cbn [foldr].
  - intros s Hs. apply Hl in Hs. inversion Hs.
  - specialize (IH (list_to_set l)).
    assert (Hl' : forall s, s ∈ (list_to_set l : gset Z) <-> s ∈ l).
    { intros s. apply elem_of_list_to_set. }
    specialize (IH Hl').
    set (best := foldr _ None l) in *.
    destruct (SortByPrevFree (info_operand allocation_info_ptr sp a) temp)
      eqn:Ha.
    + destruct best as [c|].
      * destruct IH as (Hc & Hct & Hmin). repeat split.
        -- apply Hl. right. apply Hl'. exact Hc.
        -- exact Hct.
        -- intros s Hs Hst. apply Hl in Hs. inversion Hs; subst.
           ++ congruence.
           ++ apply Hmin; [apply Hl'; assumption|exact Hst].
      * intros s Hs. apply Hl in Hs. inversion Hs; subst.
        -- exact Ha.
        -- apply IH. apply Hl'. assumption.
    + destruct best as [c|].
      * destruct IH as (Hc & Hct & Hmin).
        destruct (SortByPrevFree (info_operand allocation_info_ptr sp a)
                                 (info_operand allocation_info_ptr sp c))
          eqn:Hac.
        -- repeat split.
           ++ apply Hl. left.
           ++ exact Ha.
           ++ intros s Hs Hst. apply Hl in Hs. inversion Hs; subst.
              ** apply SortByPrevFree_irrefl.
              ** destruct (SortByPrevFree
                             (info_operand allocation_info_ptr sp s)
                             (info_operand allocation_info_ptr sp a))
                   eqn:Hsa; [|reflexivity].
                 assert (Hsc := SortByPrevFree_trans _ _ _ Hsa Hac).
                 rewrite Hmin in Hsc; [discriminate| |exact Hst].
                 apply Hl'. assumption.
        -- repeat split.
           ++ apply Hl. right. apply Hl'. exact Hc.
           ++ exact Hct.
           ++ intros s Hs Hst. apply Hl in Hs. inversion Hs; subst.
              ** exact Hac.
              ** apply Hmin; [apply Hl'; assumption|exact Hst].
      * repeat split.
        -- apply Hl. left.
        -- exact Ha.
        -- intros s Hs Hst. apply Hl in Hs. inversion Hs; subst.
           ++ apply SortByPrevFree_irrefl.
           ++ rewrite IH in Hst; [discriminate|]. apply Hl'. assumption.
Qed.

Lemma request_fields n :
  0 <= n < 2 ^ 32 -> GetPrevFree (request kPageSize n) = n /\ AlignSize (request kPageSize n) = 0.
Proof.
  intros Hn. unfold request, SetByteSize, SetPrevFreeBytes, GetPrevFree,
    AlignSize, kAlignment; cbn [prev_free_ alloc_size_].
  rewrite Z.div_mul by lia. rewrite Z.div_0_l by lia. split.
  - unfold to_uint32. apply Z.mod_small. lia.
  - reflexivity.
Qed.

Lemma before_request_small sp n s :
  0 <= n < 2 ^ 32 ->
  GetPrevFree (info_at sp s) < n ->
  SortByPrevFree (info_operand allocation_info_ptr sp s)
                 (request kPageSize n, temp_info_ptr) = true.
Proof.
  intros Hn Hlt. destruct (request_fields n Hn) as [Hp Ha].
  unfold SortByPrevFree, info_operand; cbn [fst snd]. rewrite Hp.
  destruct (Z.ltb_spec (GetPrevFree (info_at sp s)) n); [reflexivity|lia].
Qed.

Lemma before_request sp n s :
  0 <= n < 2 ^ 32 -> 0 < AlignSize (info_at sp s) ->
  SortByPrevFree (info_operand allocation_info_ptr sp s)
                 (request kPageSize n, temp_info_ptr)
  = (GetPrevFree (info_at sp s) <? n).
Proof.
  intros Hn Hsz. destruct (request_fields n Hn) as [Hp Ha].
  unfold SortByPrevFree, info_operand; cbn [fst snd]. rewrite Hp, Ha.
  rewrite !Z.gtb_ltb.
  destruct (Z.ltb_spec (GetPrevFree (info_at sp s)) n); [reflexivity|].
  destruct (Z.ltb_spec n (GetPrevFree (info_at sp s))); [reflexivity|].
  destruct (Z.ltb_spec (AlignSize (info_at sp s)) 0); [lia|].
  destruct (Z.ltb_spec 0 (AlignSize (info_at sp s))); [reflexivity|lia].
Qed.

Lemma lower_bound_none sp n :
  0 <= n < 2 ^ 32 ->
  (forall s, s ∈ free_blocks_ sp -> GetPrevFree (info_at sp s) < n) ->
  lower_bound allocation_info_ptr sp (request kPageSize n, temp_info_ptr) = None.
Proof.
  intros Hn Hall.
  pose proof (lower_bound_spec sp (request kPageSize n, temp_info_ptr)) as H.
  destruct (lower_bound allocation_info_ptr sp (request kPageSize n, temp_info_ptr))
    as [c|]; [|reflexivity].
  destruct H as (Hc & Hct & _).
  rewrite before_request_small in Hct; [discriminate|exact Hn|].
  apply Hall. exact Hc.
Qed.

End FreeListAllocProps.

(** X10.  [FreeListSpace::Alloc] is best fit.  For a request that rounds to
    [n] pages, with every element of [free_blocks_] a block of positive
    size: the call returns [nullptr] exactly when no hole in the free list
    has [n] pages and the free end is smaller than the request; otherwise
    all three out-parameters are the rounded size, and the object is placed
    at the start of a hole of the free list that has at least [n] pages and
    no more pages than any other hole that would do, or, when the free list
    has no such hole, at the start of the free end. *)
Theorem FreeListSpace_Alloc_best_fit
        (kPageSize : Z) (RoundUp : Z -> Z -> Z)
        (allocation_info_ptr temp_info_ptr self num_bytes n : Z)
        (sp : FreeListSpace) (t : Totals) :
  0 < kPageSize ->
  RoundUp num_bytes (kAlignment kPageSize) = n * kPageSize ->
  0 <= n < 2 ^ 32 ->
  (forall s, s ∈ free_blocks_ sp -> 0 < AlignSize (info_at sp s)) ->
  match (FreeListSpace_Alloc kPageSize RoundUp allocation_info_ptr
                             temp_info_ptr self num_bytes sp t).1.1 with
  | None =>
      (forall s, s ∈ free_blocks_ sp -> GetPrevFree (info_at sp s) < n) /\
      free_end_ sp < n * kPageSize
  | Some o =>
      out_bytes_allocated o = n * kPageSize /\
      out_usable_size o = n * kPageSize /\
      out_bytes_tl_bulk_allocated o = n * kPageSize /\
      ((exists c,
          c ∈ free_blocks_ sp /\
          n <= GetPrevFree (info_at sp c) /\
          (forall s, s ∈ free_blocks_ sp -> n <= GetPrevFree (info_at sp s) ->
                     GetPrevFree (info_at sp c) <= GetPrevFree (info_at sp s)) /\
          out_obj o
          = GetAddressForAllocationInfo kPageSize sp
              (c - GetPrevFree (info_at sp c))) \/
       ((forall s, s ∈ free_blocks_ sp -> GetPrevFree (info_at sp s) < n) /\
        n * kPageSize <= free_end_ sp /\
        out_obj o
        = GetAddressForAllocationInfo kPageSize sp
            (GetAllocationInfoForAddress kPageSize sp
               (to_uint64 (end_ (fl_base sp) - free_end_ sp)))))
  end.
Proof.
  intros Hp Hround Hn Hsizes.
  unfold FreeListSpace_Alloc. rewrite Hround.
  change (SetByteSize kPageSize 0 false
            (SetPrevFreeBytes kPageSize (n * kPageSize) (mkAllocationInfo 0 0)))
    with (request kPageSize n).
  pose proof (lower_bound_spec allocation_info_ptr sp
                               (request kPageSize n, temp_info_ptr)) as Hlb.
  assert (Hcmp : forall s, s ∈ free_blocks_ sp ->
             SortByPrevFree (info_operand allocation_info_ptr sp s)
                            (request kPageSize n, temp_info_ptr)
             = (GetPrevFree (info_at sp s) <? n)).
  { intros s Hs. apply before_request; [exact Hp|exact Hn|]. apply Hsizes.
    exact Hs. }
  destruct (lower_bound allocation_info_ptr sp
                        (request kPageSize n, temp_info_ptr)) as [c|].
  - destruct Hlb as (Hc & Hct & Hmin).
    rewrite Hcmp in Hct by exact Hc. apply Z.ltb_ge in Hct.
    unfold FreeListSpace_Alloc_finish. cbn [fst snd out_bytes_allocated
      out_usable_size out_bytes_tl_bulk_allocated out_obj].
    repeat split. left. exists c. repeat split.
    + exact Hc.
    + exact Hct.
    + intros s Hs Hfit.
      specialize (Hmin s Hs). rewrite Hcmp in Hmin by exact Hs.
      assert (Hsc : SortByPrevFree (info_operand allocation_info_ptr sp s)
                                   (info_operand allocation_info_ptr sp c)
                    = false).
      { apply Hmin. apply Z.ltb_ge. exact Hfit. }
      unfold SortByPrevFree, info_operand in Hsc; cbn [fst snd] in Hsc.
      destruct (Z.ltb_spec (GetPrevFree (info_at sp s))
                           (GetPrevFree (info_at sp c))); [discriminate|lia].
    + unfold GetAddressForAllocationInfo, GetPrevFreeInfo.
      match goal with
      | |- context [if ?b then _ else _] => destruct b
      end; reflexivity.
  - destruct (Z.leb_spec (n * kPageSize) (free_end_ sp)) as [Hfit|Hno].
    + unfold FreeListSpace_Alloc_finish. cbn [fst snd out_bytes_allocated
        out_usable_size out_bytes_tl_bulk_allocated out_obj].
      repeat split. right. repeat split.
      * intros s Hs. specialize (Hlb s Hs). rewrite Hcmp in Hlb by exact Hs.
        apply Z.ltb_lt. exact Hlb.
      * exact Hfit.
    + cbn [fst snd]. split; [|exact Hno].
      intros s Hs. specialize (Hlb s Hs). rewrite Hcmp in Hlb by exact Hs.
      apply Z.ltb_lt. exact Hlb.
Qed.

Lemma default_insert_eq (m : gmap Z AllocationInfo) s i d :
  default d (<[s := i]> m !! s) = i.
Proof. rewrite lookup_insert_eq. reflexivity. Qed.

Lemma default_insert_ne (m : gmap Z AllocationInfo) s s' i d :
  s <> s' -> default d (<[s := i]> m !! s') = default d (m !! s').
Proof. intros H. rewrite lookup_insert_ne by exact H. reflexivity. Qed.

Ltac info_simpl :=
  repeat first
    [ rewrite default_insert_eq
    | match goal with
      | |- context [default ?d (<[?a := ?v]> ?m !! ?b)] =>
          rewrite (default_insert_ne m a b v d) by lia
      end ].

Ltac fl_proj :=
  cbn [fl_base allocation_info_ free_end_ free_blocks_ begin_ end_
       num_bytes_allocated_ num_objects_allocated_ live_bitmap_ los_log].

Ltac fl_proj_in H :=
  cbn [fl_base allocation_info_ free_end_ free_blocks_ begin_ end_
       num_bytes_allocated_ num_objects_allocated_ live_bitmap_ los_log] in H.

Section FreeListFree.

Variable kPageSize : Z.
Hypothesis kPageSize_pos : 0 < kPageSize.

Lemma AlignSize_range i : 0 <= AlignSize i < 2 ^ 30.
Proof. rewrite AlignSize_mod. apply Z.mod_pos_bound. lia. Qed.

Lemma slot_of_address B s :
  0 <= s -> s * kPageSize < 2 ^ 64 ->
  to_uint64 (B + s * kPageSize - B) / kAlignment kPageSize = s.
Proof.
  intros Hs Hr. replace (B + s * kPageSize - B) with (s * kPageSize) by lia.
  rewrite to_uint64_small by nia. unfold kAlignment. apply Z.div_mul. lia.
Qed.

Lemma Free_into_free_end_state self s nb no B E lb lg m F fb :
  let sp := mkFreeListSpace (mkLargeObjectSpace nb no B E lb lg) m F fb in
  let i := info_at sp s in
  let n := AlignSize i in
  let p := GetPrevFree i in
  0 <= B -> 0 <= s -> 0 <= F -> E < 2 ^ 64 ->
  B + (s + n) * kPageSize = E - F ->
  0 <= p <= s -> (p = 0 \/ s ∈ fb) ->
  FreeListSpace_Free kPageSize self (B + s * kPageSize) sp
  = (Some (n * kPageSize),
     mkFreeListSpace
       (mkLargeObjectSpace
          (to_uint64 (nb - n * kPageSize)) (to_uint64 (no - 1)) B E lb
          (lg ++ [LosGcRecordFree self (B + s * kPageSize);
                  LosMadvise (B + s * kPageSize) (n * kPageSize);
                  LosRelease self (B + s * kPageSize);
                  LosInstRecordFree (n * kPageSize) 1]))
       (<[s := SetByteSize kPageSize (n * kPageSize) true i]> m)
       (F + (n + p) * kPageSize)
       (if p =? 0 then fb else fb ∖ {[ s ]})).
Proof.
  intros sp i n p HB Hs HF HE Hend Hp Hfb.
  pose proof (AlignSize_range i) as Hn. fold n in Hn.
  unfold FreeListSpace_Free, sp.
  cbv zeta.
  unfold fl_emit, fl_with_base, set_info, GcRecordFree, los_emit. fl_proj.
  unfold GetAllocationInfoForAddress, GetSlotIndexForAddress. fl_proj.
  rewrite !slot_of_address by nia.
  unfold GetNextInfo, info_at. fl_proj.
  rewrite !default_insert_eq.
  change (default {| prev_free_ := 0; alloc_size_ := 0 |} (m !! s)) with i.
  assert (Hbs : ByteSize kPageSize i = n * kPageSize) by reflexivity.
  rewrite !Hbs.
  destruct (SetByteSize_readers kPageSize n true i kPageSize_pos Hn)
    as (_ & Ha & Hfree & _ & Hprev).
  set (i' := SetByteSize kPageSize (n * kPageSize) true i) in *.
  rewrite !Ha.
  assert (Hpb : GetPrevFreeBytes kPageSize i' = p * kPageSize).
  { unfold GetPrevFreeBytes, kAlignment. rewrite Hprev. reflexivity. }
  rewrite !Hpb.
  assert (Hstart : to_uint64 (E - F) = E - F).
  { apply to_uint64_small. nia. }
  rewrite !Hstart.
  destruct (Z.eqb_spec p 0) as [Hp0|Hp0].
  - rewrite Hp0, Z.mul_0_l. cbn [Z.eqb].
    unfold GetAddressForAllocationInfo, kAlignment. fl_proj.
    rewrite Hend, Hstart, Z.leb_refl, Z.eqb_refl.
    unfold FreeListSpace_Free_finish, fl_with_base, los_emit, los_account_free.
    fl_proj. rewrite Z.add_0_r.
    rewrite (to_uint64_small (F + n * kPageSize)) by nia.
    rewrite <- !app_assoc. reflexivity.
  - destruct (Z.eqb_spec (p * kPageSize) 0) as [Hz|_]; [nia|].
    destruct Hfb as [Hfb|Hfb]; [contradiction|].
    unfold RemoveFreePrev, info_at. fl_proj.
    rewrite default_insert_eq.
    rewrite Hprev. fold p.
    destruct (Z.ltb_spec 0 p) as [_|Hc]; [|lia].
    rewrite bool_decide_eq_true_2 by exact Hfb. cbn [andb].
    unfold GetAddressForAllocationInfo, kAlignment. fl_proj.
    rewrite Hend, Hstart, Z.leb_refl, Z.eqb_refl.
    unfold FreeListSpace_Free_finish, fl_with_base, los_emit, los_account_free.
    fl_proj.
    rewrite (to_uint64_small (n * kPageSize + p * kPageSize)) by nia.
    rewrite (to_uint64_small (F + _)) by nia.
    rewrite <- !app_assoc.
    replace (n * kPageSize + p * kPageSize) with ((n + p) * kPageSize) by lia.
    reflexivity.
Qed.

Lemma Free_before_live_block_state self s nb no B E lb lg m F fb :
  let sp := mkFreeListSpace (mkLargeObjectSpace nb no B E lb lg) m F fb in
  let i := info_at sp s in
  let n := AlignSize i in
  let p := GetPrevFree i in
  let inext := info_at sp (s + n) in
  0 <= B -> 0 <= s -> 0 <= F -> E < 2 ^ 64 -> 0 < n ->
  B + (s + n) * kPageSize < E - F ->
  IsFree inext = false ->
  0 <= p <= s -> (p = 0 \/ s ∈ fb) ->
  FreeListSpace_Free kPageSize self (B + s * kPageSize) sp
  = (Some (n * kPageSize),
     mkFreeListSpace
       (mkLargeObjectSpace
          (to_uint64 (nb - n * kPageSize)) (to_uint64 (no - 1)) B E lb
          (lg ++ [LosGcRecordFree self (B + s * kPageSize);
                  LosMadvise (B + s * kPageSize) (n * kPageSize);
                  LosRelease self (B + s * kPageSize);
                  LosInstRecordFree (n * kPageSize) 1]))
       (<[s - p := SetByteSize kPageSize ((n + p) * kPageSize) true
                     (if p =? 0
                      then SetByteSize kPageSize (n * kPageSize) true i
                      else info_at sp (s - p))]>
          (<[s + n := SetPrevFreeBytes kPageSize ((n + p) * kPageSize) inext]>
             (<[s := SetByteSize kPageSize (n * kPageSize) true i]> m)))
       F
       ({[ s + n ]} ∪ (if p =? 0 then fb else fb ∖ {[ s ]}))).
Proof.
  intros sp i n p inext HB Hs HF HE Hpos Hend Hlive Hp Hfb.
  pose proof (AlignSize_range i) as Hn. fold n in Hn.
  unfold FreeListSpace_Free, sp.
  cbv zeta.
  unfold fl_emit, fl_with_base, set_info, GcRecordFree, los_emit. fl_proj.
  unfold GetAllocationInfoForAddress, GetSlotIndexForAddress. fl_proj.
  rewrite !slot_of_address by nia.
  unfold GetNextInfo, info_at. fl_proj.
  rewrite !default_insert_eq.
  change (default {| prev_free_ := 0; alloc_size_ := 0 |} (m !! s)) with i.
  assert (Hbs : ByteSize kPageSize i = n * kPageSize) by reflexivity.
  rewrite !Hbs.
  destruct (SetByteSize_readers kPageSize n true i kPageSize_pos Hn)
    as (_ & Ha & Hfree & _ & Hprev).
  set (i' := SetByteSize kPageSize (n * kPageSize) true i) in *.
  rewrite !Ha.
  assert (Hpb : GetPrevFreeBytes kPageSize i' = p * kPageSize).
  { unfold GetPrevFreeBytes, kAlignment. rewrite Hprev. reflexivity. }
  rewrite !Hpb.
  assert (Hstart : to_uint64 (E - F) = E - F).
  { apply to_uint64_small. nia. }
  rewrite !Hstart.
  assert (Hnext : to_uint64 (B + (s + n) * kPageSize)
                  = B + (s + n) * kPageSize).
  { apply to_uint64_small. nia. }
  assert (Hlive' : IsFree (default {| prev_free_ := 0; alloc_size_ := 0 |}
                                   (<[s := i']> m !! (s + n))) = false).
  { rewrite default_insert_ne by lia. exact Hlive. }
  destruct (Z.eqb_spec p 0) as [Hp0|Hp0].
  - rewrite Hp0, Z.mul_0_l. cbn [Z.eqb].
    unfold GetAddressForAllocationInfo, kAlignment. fl_proj.
    rewrite Hnext.
    destruct (Z.leb_spec (E - F) (B + (s + n) * kPageSize)) as [Hc|_]; [lia|].
    rewrite Hlive'.
    unfold FreeListSpace_Free_finish, fl_with_base, los_emit, los_account_free.
    fl_proj.
    info_simpl. fold inext.
    rewrite Z.add_0_r, Z.sub_0_r.
    rewrite <- !app_assoc. reflexivity.
  - destruct (Z.eqb_spec (p * kPageSize) 0) as [Hz|_]; [nia|].
    destruct Hfb as [Hfb|Hfb]; [contradiction|].
    unfold RemoveFreePrev, info_at. fl_proj.
    rewrite default_insert_eq.
    rewrite Hprev. fold p.
    destruct (Z.ltb_spec 0 p) as [_|Hc]; [|lia].
    rewrite bool_decide_eq_true_2 by exact Hfb. cbn [andb].
    unfold GetAddressForAllocationInfo, kAlignment. fl_proj.
    rewrite Hnext.
    destruct (Z.leb_spec (E - F) (B + (s + n) * kPageSize)) as [Hc|_]; [lia|].
    rewrite Hlive'.
    unfold FreeListSpace_Free_finish, fl_with_base, los_emit, los_account_free,
      GetPrevFreeInfo, info_at.
    fl_proj.
    rewrite default_insert_eq, Hprev. fold p.
    rewrite (to_uint64_small (n * kPageSize + p * kPageSize)) by nia.
    replace (n * kPageSize + p * kPageSize) with ((n + p) * kPageSize) by lia.
    info_simpl. fold inext.
    rewrite <- !app_assoc. reflexivity.
Qed.
End FreeListFree.

Section FreeListAllocEnd.

Variable kPageSize : Z.
Hypothesis kPageSize_pos : 0 < kPageSize.
Variable RoundUp : Z -> Z -> Z.
Variables allocation_info_ptr temp_info_ptr : Z.

Lemma Alloc_at_end_state self num_bytes n s nb no B E lb lg m F fb t :
  let sp := mkFreeListSpace (mkLargeObjectSpace nb no B E lb lg) m F fb in
  RoundUp num_bytes (kAlignment kPageSize) = n * kPageSize ->
  0 <= n < 2 ^ 30 ->
  (forall x, x ∈ fb -> GetPrevFree (info_at sp x) < n) ->
  0 <= B -> 0 <= s -> E < 2 ^ 64 -> n * kPageSize <= F ->
  E - F = B + s * kPageSize ->
  FreeListSpace_Alloc kPageSize RoundUp allocation_info_ptr temp_info_ptr
                      self num_bytes sp t
  = (Some (mkAllocOut (B + s * kPageSize) (n * kPageSize) (n * kPageSize)
                      (n * kPageSize)),
     mkFreeListSpace
       (mkLargeObjectSpace (to_uint64 (nb + n * kPageSize))
                           (to_uint64 (no + 1)) B E lb lg)
       (<[s := mkAllocationInfo 0 n]> m) (F - n * kPageSize) fb,
     totals_account_alloc (n * kPageSize) t).
Proof.
  intros sp Hround Hn Hsmall HB Hs HE Hfit Hend.
  unfold FreeListSpace_Alloc. rewrite Hround.
  change (SetByteSize kPageSize 0 false
            (SetPrevFreeBytes kPageSize (n * kPageSize) (mkAllocationInfo 0 0)))
    with (request kPageSize n).
  rewrite lower_bound_none; [|exact kPageSize_pos|lia|exact Hsmall].
  unfold sp at 1. fl_proj.
  destruct (Z.leb_spec (n * kPageSize) F) as [_|Hc]; [|lia].
  unfold FreeListSpace_Alloc_finish, sp, fl_with_base, set_info,
    los_account_alloc, GetAllocationInfoForAddress, GetSlotIndexForAddress,
    GetAddressForAllocationInfo, info_at.
  fl_proj. rewrite Hend.
  rewrite (to_uint64_small (B + s * kPageSize)) by nia.
  rewrite slot_of_address by (try exact kPageSize_pos; nia).
  unfold kAlignment.
  rewrite (to_uint64_small (B + s * kPageSize)) by nia.
  rewrite (to_uint64_small (F - n * kPageSize)) by nia.
  rewrite default_insert_eq, insert_insert_eq.
  unfold SetByteSize, SetPrevFreeBytes, kAlignment.
  cbn [prev_free_ alloc_size_].
  rewrite Z.div_mul, Z.div_0_l, Z.lor_0_r by lia.
  change (to_uint32 0) with 0.
  unfold to_uint32. rewrite (Z.mod_small n) by lia.
  reflexivity.
Qed.

End FreeListAllocEnd.

(** X11.  [FreeListSpace::Alloc] from the free end followed by [Free] of
    the object: when no hole of the free list is large enough, the object is
    placed where the free end starts and the free end shrinks by the rounded
    size; the block is then live, not zygote, of that size; [Free] returns
    the size and restores [free_end_], [free_blocks_] and the two current
    counters.  The two running totals keep the allocation. *)
Theorem FreeListSpace_Alloc_Free_round_trip
        (kPageSize : Z) (RoundUp : Z -> Z -> Z)
        (allocation_info_ptr temp_info_ptr self num_bytes n s : Z)
        (sp : FreeListSpace) (t : Totals) :
  0 < kPageSize ->
  RoundUp num_bytes (kAlignment kPageSize) = n * kPageSize ->
  0 <= n < 2 ^ 30 ->
  (forall x, x ∈ free_blocks_ sp -> GetPrevFree (info_at sp x) < n) ->
  0 <= begin_ (fl_base sp) -> 0 <= s -> end_ (fl_base sp) < 2 ^ 64 ->
  n * kPageSize <= free_end_ sp ->
  end_ (fl_base sp) - free_end_ sp = begin_ (fl_base sp) + s * kPageSize ->
  0 <= num_bytes_allocated_ (fl_base sp) ->
  num_bytes_allocated_ (fl_base sp) + n * kPageSize < 2 ^ 64 ->
  0 <= num_objects_allocated_ (fl_base sp) ->
  num_objects_allocated_ (fl_base sp) + 1 < 2 ^ 64 ->
  exists obj sp1 t1 sp2,
    FreeListSpace_Alloc kPageSize RoundUp allocation_info_ptr temp_info_ptr
                        self num_bytes sp t
    = (Some (mkAllocOut obj (n * kPageSize) (n * kPageSize) (n * kPageSize)),
       sp1, t1) /\
    obj = end_ (fl_base sp) - free_end_ sp /\
    free_end_ sp1 = free_end_ sp - n * kPageSize /\
    FreeListSpace_AllocationSize kPageSize obj sp1 = n * kPageSize /\
    FreeListSpace_IsZygoteLargeObject kPageSize self obj sp1 = false /\
    FreeListSpace_Free kPageSize self obj sp1 = (Some (n * kPageSize), sp2) /\
    free_end_ sp2 = free_end_ sp /\
    free_blocks_ sp2 = free_blocks_ sp /\
    num_bytes_allocated_ (fl_base sp2) = num_bytes_allocated_ (fl_base sp) /\
    num_objects_allocated_ (fl_base sp2)
    = num_objects_allocated_ (fl_base sp) /\
    t1 = totals_account_alloc (n * kPageSize) t.
Proof.
  destruct sp as [[nb no B E lb lg] m F fb]. fl_proj.
  intros Hp Hround Hn Hsmall HB Hs HE Hfit Hend Hnb0 Hnb1 Hno0 Hno1.
  pose proof (Alloc_at_end_state kPageSize Hp RoundUp allocation_info_ptr
                temp_info_ptr self num_bytes n s nb no B E lb lg m F fb t
                Hround Hn Hsmall HB Hs HE Hfit Hend) as Halloc.
  cbv zeta in Halloc.
  assert (Hinfo : forall b' f' fb',
             info_at (mkFreeListSpace b' (<[s := mkAllocationInfo 0 n]> m)
                                      f' fb') s
             = mkAllocationInfo 0 n).
  { intros. unfold info_at. fl_proj. apply default_insert_eq. }
  assert (Hal : AlignSize (mkAllocationInfo 0 n) = n).
  { rewrite AlignSize_mod. cbn [alloc_size_]. apply Z.mod_small. lia. }
  pose proof (Free_into_free_end_state
                kPageSize Hp self s (to_uint64 (nb + n * kPageSize))
                (to_uint64 (no + 1)) B E lb lg
                (<[s := mkAllocationInfo 0 n]> m) (F - n * kPageSize) fb)
    as Hfree.
  cbv zeta in Hfree. rewrite Hinfo, Hal in Hfree.
  change (GetPrevFree (mkAllocationInfo 0 n)) with 0 in Hfree.
  cbn [Z.eqb] in Hfree. rewrite Z.add_0_r in Hfree.
  specialize (Hfree HB Hs ltac:(lia) HE ltac:(lia) ltac:(lia)
                    ltac:(left; reflexivity)).
  eexists _, _, _, _. split; [exact Halloc|].
  rewrite Hend.
  split; [reflexivity|]. split; [reflexivity|].
  split.
  { unfold FreeListSpace_AllocationSize, GetAllocationInfoForAddress,
      GetSlotIndexForAddress. fl_proj.
    rewrite slot_of_address by (try exact Hp; nia).
    rewrite Hinfo. unfold ByteSize, kAlignment. rewrite Hal. reflexivity. }
  split.
  { unfold FreeListSpace_IsZygoteLargeObject, GetAllocationInfoForAddress,
      GetSlotIndexForAddress. fl_proj.
    rewrite slot_of_address by (try exact Hp; nia).
    rewrite Hinfo, IsZygoteObject_testbit. cbn [alloc_size_].
    apply (small_testbit n 30 30); lia. }
  split; [exact Hfree|]. fl_proj.
  split; [lia|]. split; [reflexivity|]. split.
  { rewrite (to_uint64_small (nb + _)) by lia.
    replace (nb + n * kPageSize - n * kPageSize) with nb by lia.
    apply to_uint64_small. lia. }
  split; [|reflexivity].
  rewrite (to_uint64_small (no + 1)) by lia.
  replace (no + 1 - 1) with no by lia.
  apply to_uint64_small. lia.
Qed.

Lemma FreeListSpace_Alloc_Free_round_trip_witness :
  exists obj sp1 t1 sp2,
    FreeListSpace_Alloc 4096 (fun x n => (x + n - 1) / n * n) 0 1 1 5000
                        (FreeListSpace_new 8192 73728) (mkTotals 0 0)
    = (Some (mkAllocOut obj 8192 8192 8192), sp1, t1) /\
    obj = 8192 /\
    FreeListSpace_Free 4096 1 obj sp1 = (Some 8192, sp2) /\
    free_end_ sp2 = 65536.
Proof.
  destruct (FreeListSpace_Alloc_Free_round_trip
              4096 (fun x n => (x + n - 1) / n * n) 0 1 1 5000 2 0
              (FreeListSpace_new 8192 73728) (mkTotals 0 0))
    as (obj & sp1 & t1 & sp2 & Ha & Ho & _ & _ & _ & Hf & He & _);
    [lia | reflexivity | lia
     | intros x Hx; apply elem_of_empty in Hx; destruct Hx
     | simpl; lia | lia | simpl; lia | vm_compute; congruence | reflexivity
     | simpl; lia | simpl; lia | simpl; lia | simpl; lia |].
  exists obj, sp1, t1, sp2. repeat split; assumption.
Defined.

Section FreeListFreeProps.

Variable kPageSize : Z.
Hypothesis kPageSize_pos : 0 < kPageSize.

Lemma prev_free_pages q i :
  0 <= q < 2 ^ 32 ->
  GetPrevFree (SetPrevFreeBytes kPageSize (q * kPageSize) i) = q.
Proof.
  intros Hq. unfold GetPrevFree, SetPrevFreeBytes, kAlignment.
  cbn [prev_free_]. rewrite Z.div_mul by lia.
  unfold to_uint32. apply Z.mod_small. lia.
Qed.

End FreeListFreeProps.

(** X12.  [FreeListSpace::Free] of the block that ends where the free end
    starts.  With [n] the size of the block in pages and [p] the pages of
    the hole before it ([p] is 0 when there is none, and the block is in
    [free_blocks_] otherwise): the call returns [n] pages in bytes, the free
    end grows by the block and the hole together, the block leaves
    [free_blocks_], the block is marked free, no other slot of the side
    table changes, and the log gains the notification, the [madvise], the
    release and the instrumentation record, in this order. *)
Theorem FreeListSpace_Free_into_free_end
        (kPageSize self s : Z) (sp : FreeListSpace) :
  let n := AlignSize (info_at sp s) in
  let p := GetPrevFree (info_at sp s) in
  let obj := begin_ (fl_base sp) + s * kPageSize in
  0 < kPageSize ->
  0 <= begin_ (fl_base sp) -> 0 <= s -> 0 <= free_end_ sp ->
  end_ (fl_base sp) < 2 ^ 64 ->
  begin_ (fl_base sp) + (s + n) * kPageSize
  = end_ (fl_base sp) - free_end_ sp ->
  0 <= p <= s -> (p = 0 \/ s ∈ free_blocks_ sp) ->
  exists sp',
    FreeListSpace_Free kPageSize self obj sp = (Some (n * kPageSize), sp') /\
    free_end_ sp' = free_end_ sp + (n + p) * kPageSize /\
    free_blocks_ sp' = (if p =? 0 then free_blocks_ sp
                        else free_blocks_ sp ∖ {[ s ]}) /\
    begin_ (fl_base sp') = begin_ (fl_base sp) /\
    end_ (fl_base sp') = end_ (fl_base sp) /\
    IsFree (info_at sp' s) = true /\
    (forall x, x <> s -> info_at sp' x = info_at sp x) /\
    los_log (fl_base sp')
    = los_log (fl_base sp)
      ++ [LosGcRecordFree self obj; LosMadvise obj (n * kPageSize);
          LosRelease self obj; LosInstRecordFree (n * kPageSize) 1].
Proof.
  cbv zeta. destruct sp as [[nb no B E lb lg] m F fb]. fl_proj.
  set (sp := mkFreeListSpace (mkLargeObjectSpace nb no B E lb lg) m F fb).
  set (n := AlignSize (info_at sp s)). set (p := GetPrevFree (info_at sp s)).
  intros Hp HB Hs HF HE Hend Hpr Hfb.
  pose proof (Free_into_free_end_state kPageSize Hp self s nb no B E lb lg
                                       m F fb HB Hs HF HE Hend Hpr Hfb)
    as Hfree.
  cbv zeta in Hfree. fold sp in Hfree. fold n p in Hfree.
  eexists. split; [exact Hfree|]. fl_proj.
  repeat split.
  - unfold info_at. fl_proj. rewrite default_insert_eq.
    apply (SetByteSize_readers kPageSize n true); [exact Hp|].
    apply AlignSize_range.
  - intros x Hx. unfold info_at. fl_proj.
    apply default_insert_ne. congruence.
Qed.

Lemma FreeListSpace_Free_into_free_end_witness :
  exists sp',
    FreeListSpace_Free
      4096 1 (8192 + 2 * 4096)
      (mkFreeListSpace (mkLargeObjectSpace 12288 1 8192 73728 ∅ [])
                       {[ 0 := mkAllocationInfo 0 (2 + kFlagFree);
                          2 := mkAllocationInfo 2 3 ]}
                       (11 * 4096) {[ 2 ]})
    = (Some (3 * 4096), sp') /\
    free_end_ sp' = 16 * 4096 /\
    free_blocks_ sp' = ({[ 2 ]} : gset Z) ∖ {[ 2 ]}.
Proof.
  destruct (FreeListSpace_Free_into_free_end
              4096 1 2
              (mkFreeListSpace (mkLargeObjectSpace 12288 1 8192 73728 ∅ [])
                               {[ 0 := mkAllocationInfo 0 (2 + kFlagFree);
                                  2 := mkAllocationInfo 2 3 ]}
                               (11 * 4096) {[ 2 ]}))
    as (sp' & Hf & He & Hb & _);
    [lia | simpl; lia | lia | simpl; lia | simpl; lia | reflexivity
     | vm_compute; split; congruence
     | right; fl_proj; apply elem_of_singleton_2; reflexivity |].
  exists sp'. repeat split; assumption.
Defined.

(** X13.  [FreeListSpace::Free] of a block that is followed by a live
    block.  With [n] and [p] as before and fewer than 2^30 pages in all:
    the free end is unchanged; the hole of [n + p] pages is recorded in
    [prev_free_] of the following block, whose size and flags are kept and
    which enters [free_blocks_]; the head of the hole, [p] slots before the
    freed block, is marked free with the size of the whole hole; the freed
    block leaves [free_blocks_] if it was there. *)
Theorem FreeListSpace_Free_before_live_block
        (kPageSize self s : Z) (sp : FreeListSpace) :
  let n := AlignSize (info_at sp s) in
  let p := GetPrevFree (info_at sp s) in
  let obj := begin_ (fl_base sp) + s * kPageSize in
  0 < kPageSize ->
  0 <= begin_ (fl_base sp) -> 0 <= s -> 0 <= free_end_ sp ->
  end_ (fl_base sp) < 2 ^ 64 -> 0 < n -> n + p < 2 ^ 30 ->
  begin_ (fl_base sp) + (s + n) * kPageSize
  < end_ (fl_base sp) - free_end_ sp ->
  IsFree (info_at sp (s + n)) = false ->
  0 <= p <= s -> (p = 0 \/ s ∈ free_blocks_ sp) ->
  exists sp',
    FreeListSpace_Free kPageSize self obj sp = (Some (n * kPageSize), sp') /\
    free_end_ sp' = free_end_ sp /\
    free_blocks_ sp' = {[ s + n ]} ∪ (if p =? 0 then free_blocks_ sp
                                      else free_blocks_ sp ∖ {[ s ]}) /\
    GetPrevFree (info_at sp' (s + n)) = n + p /\
    alloc_size_ (info_at sp' (s + n)) = alloc_size_ (info_at sp (s + n)) /\
    IsFree (info_at sp' (s - p)) = true /\
    AlignSize (info_at sp' (s - p)) = n + p /\
    IsFree (info_at sp' s) = true.
Proof.
  cbv zeta. destruct sp as [[nb no B E lb lg] m F fb]. fl_proj.
  set (sp := mkFreeListSpace (mkLargeObjectSpace nb no B E lb lg) m F fb).
  set (n := AlignSize (info_at sp s)). set (p := GetPrevFree (info_at sp s)).
  intros Hp HB Hs HF HE Hpos Hsmall Hend Hlive Hpr Hfb.
  pose proof (Free_before_live_block_state
                kPageSize Hp self s nb no B E lb lg m F fb HB Hs HF HE Hpos
                Hend Hlive Hpr Hfb) as Hfree.
  cbv zeta in Hfree. fold sp in Hfree. fold n p in Hfree.
  eexists. split; [exact Hfree|]. fl_proj.
  assert (Hnp : 0 <= n + p < 2 ^ 30) by lia.
  split; [reflexivity|]. split; [reflexivity|].
  unfold info_at. fl_proj.
  split.
  { rewrite default_insert_ne by lia. rewrite default_insert_eq.
    apply prev_free_pages; [exact Hp|lia]. }
  split.
  { rewrite default_insert_ne by lia. rewrite default_insert_eq.
    reflexivity. }
  split.
  { rewrite default_insert_eq.
    apply (SetByteSize_readers kPageSize (n + p) true); assumption. }
  split.
  { rewrite default_insert_eq.
    apply (SetByteSize_readers kPageSize (n + p) true); assumption. }
  destruct (Z.eqb_spec p 0) as [Hp0|Hp0].
  - rewrite Hp0, Z.sub_0_r, default_insert_eq.
    rewrite Z.add_0_r.
    apply (SetByteSize_readers kPageSize n true); [exact Hp|].
    apply AlignSize_range.
  - info_simpl.
    apply (SetByteSize_readers kPageSize n true); [exact Hp|].
    apply AlignSize_range.
Qed.

Lemma FreeListSpace_Free_before_live_block_witness :
  exists sp',
    FreeListSpace_Free
      4096 1 8192
      (mkFreeListSpace (mkLargeObjectSpace 20480 2 8192 73728 ∅ [])
                       {[ 0 := mkAllocationInfo 0 2;
                          2 := mkAllocationInfo 0 3 ]}
                       (11 * 4096) ∅)
    = (Some (2 * 4096), sp') /\
    free_end_ sp' = 11 * 4096 /\
    GetPrevFree (info_at sp' 2) = 2.
Proof.
  destruct (FreeListSpace_Free_before_live_block
              4096 1 0
              (mkFreeListSpace (mkLargeObjectSpace 20480 2 8192 73728 ∅ [])
                               {[ 0 := mkAllocationInfo 0 2;
                                  2 := mkAllocationInfo 0 3 ]}
                               (11 * 4096) ∅))
    as (sp' & Hf & He & _ & Hpf & _);
    [lia | simpl; lia | lia | simpl; lia | simpl; lia | reflexivity
     | reflexivity | reflexivity | reflexivity
     | vm_compute; split; congruence | left; reflexivity |].
  exists sp'. repeat split; assumption.
Defined.

Lemma FreeListSpace_Alloc_best_fit_witness :
  let sp := mkFreeListSpace (mkLargeObjectSpace 12288 1 8192 73728 ∅ [])
                            {[ 0 := mkAllocationInfo 0 (2 + kFlagFree);
                               2 := mkAllocationInfo 2 3 ]}
                            (11 * 4096) {[ 2 ]} in
  match (FreeListSpace_Alloc 4096 (fun x n => (x + n - 1) / n * n) 0 1 1 100
                             sp (mkTotals 12288 1)).1.1 with
  | None =>
      (forall s, s ∈ free_blocks_ sp -> GetPrevFree (info_at sp s) < 1) /\
      free_end_ sp < 1 * 4096
  | Some o =>
      out_bytes_allocated o = 1 * 4096 /\
      out_usable_size o = 1 * 4096 /\
      out_bytes_tl_bulk_allocated o = 1 * 4096 /\
      ((exists c,
          c ∈ free_blocks_ sp /\
          1 <= GetPrevFree (info_at sp c) /\
          (forall s, s ∈ free_blocks_ sp -> 1 <= GetPrevFree (info_at sp s) ->
                     GetPrevFree (info_at sp c) <= GetPrevFree (info_at sp s)) /\
          out_obj o
          = GetAddressForAllocationInfo 4096 sp
              (c - GetPrevFree (info_at sp c))) \/
       ((forall s, s ∈ free_blocks_ sp -> GetPrevFree (info_at sp s) < 1) /\
        1 * 4096 <= free_end_ sp /\
        out_obj o
        = GetAddressForAllocationInfo 4096 sp
            (GetAllocationInfoForAddress 4096 sp
               (to_uint64 (end_ (fl_base sp) - free_end_ sp)))))
  end.
Proof.
  intros sp.
  apply (FreeListSpace_Alloc_best_fit
           4096 (fun x n => (x + n - 1) / n * n) 0 1 1 100 1 sp
           (mkTotals 12288 1)); [lia | reflexivity | lia |].
  intros s Hs. unfold sp in Hs. fl_proj_in Hs.
  apply elem_of_singleton in Hs. subst s. reflexivity.
Defined.

Section Coalescing.

Variable kPageSize : Z.
Hypothesis kPageSize_pos : 0 < kPageSize.

Lemma Free_into_free_end_at self s nb no B E lb lg m F fb i n p :
  let sp := mkFreeListSpace (mkLargeObjectSpace nb no B E lb lg) m F fb in
  info_at sp s = i -> AlignSize i = n -> GetPrevFree i = p ->
  0 <= B -> 0 <= s -> 0 <= F -> E < 2 ^ 64 ->
  B + (s + n) * kPageSize = E - F ->
  0 <= p <= s -> (p = 0 \/ s ∈ fb) ->
  FreeListSpace_Free kPageSize self (B + s * kPageSize) sp
  = (Some (n * kPageSize),
     mkFreeListSpace
       (mkLargeObjectSpace
          (to_uint64 (nb - n * kPageSize)) (to_uint64 (no - 1)) B E lb
          (lg ++ [LosGcRecordFree self (B + s * kPageSize);
                  LosMadvise (B + s * kPageSize) (n * kPageSize);
                  LosRelease self (B + s * kPageSize);
                  LosInstRecordFree (n * kPageSize) 1]))
       (<[s := SetByteSize kPageSize (n * kPageSize) true i]> m)
       (F + (n + p) * kPageSize)
       (if p =? 0 then fb else fb ∖ {[ s ]})).
Proof.
  intros sp <- <- <-.
  apply Free_into_free_end_state. exact kPageSize_pos.
Qed.

Lemma Free_before_live_block_at self s nb no B E lb lg m F fb i n p inext :
  let sp := mkFreeListSpace (mkLargeObjectSpace nb no B E lb lg) m F fb in
  info_at sp s = i -> AlignSize i = n -> GetPrevFree i = p ->
  info_at sp (s + n) = inext ->
  0 <= B -> 0 <= s -> 0 <= F -> E < 2 ^ 64 -> 0 < n ->
  B + (s + n) * kPageSize < E - F ->
  IsFree inext = false ->
  0 <= p <= s -> (p = 0 \/ s ∈ fb) ->
  FreeListSpace_Free kPageSize self (B + s * kPageSize) sp
  = (Some (n * kPageSize),
     mkFreeListSpace
       (mkLargeObjectSpace
          (to_uint64 (nb - n * kPageSize)) (to_uint64 (no - 1)) B E lb
          (lg ++ [LosGcRecordFree self (B + s * kPageSize);
                  LosMadvise (B + s * kPageSize) (n * kPageSize);
                  LosRelease self (B + s * kPageSize);
                  LosInstRecordFree (n * kPageSize) 1]))
       (<[s - p := SetByteSize kPageSize ((n + p) * kPageSize) true
                     (if p =? 0
                      then SetByteSize kPageSize (n * kPageSize) true i
                      else info_at sp (s - p))]>
          (<[s + n := SetPrevFreeBytes kPageSize ((n + p) * kPageSize) inext]>
             (<[s := SetByteSize kPageSize (n * kPageSize) true i]> m)))
       F
       ({[ s + n ]} ∪ (if p =? 0 then fb else fb ∖ {[ s ]}))).
Proof.
  intros sp <- <- <- <-.
  apply Free_before_live_block_state. exact kPageSize_pos.
Qed.

Lemma live_block_fields q n :
  0 <= n < 2 ^ 30 ->
  AlignSize (mkAllocationInfo q n) = n /\
  IsFree (mkAllocationInfo q n) = false /\
  GetPrevFree (mkAllocationInfo q n) = q.
Proof.
  intros Hn. repeat split.
  - rewrite AlignSize_mod. cbn [alloc_size_]. apply Z.mod_small. lia.
  - rewrite IsFree_testbit. cbn [alloc_size_].
    apply (small_testbit n 30 31); lia.
Qed.

End Coalescing.

(** X14.  Two blocks allocated from a new [FreeListSpace] and freed again,
    in either order, leave the space as the constructor made it: the first
    object is at [Begin()], the second right after it; when the first is
    freed first, the second block enters [free_blocks_] with the hole
    before it, and freeing it merges hole and block into the free end; in
    both orders the free end is the whole capacity again, [free_blocks_] is
    empty and both current counters are zero. *)
Theorem FreeListSpace_two_blocks_coalesce
        (kPageSize : Z) (RoundUp : Z -> Z -> Z)
        (allocation_info_ptr temp_info_ptr self b1 b2 n1 n2 c B E : Z)
        (t : Totals) :
  0 < kPageSize ->
  RoundUp b1 (kAlignment kPageSize) = n1 * kPageSize ->
  RoundUp b2 (kAlignment kPageSize) = n2 * kPageSize ->
  0 < n1 -> 0 < n2 -> n1 + n2 <= c -> c < 2 ^ 30 ->
  0 <= B -> E = B + c * kPageSize -> E < 2 ^ 64 ->
  let Alloc := FreeListSpace_Alloc kPageSize RoundUp allocation_info_ptr
                                   temp_info_ptr self in
  let Free := FreeListSpace_Free kPageSize self in
  let pristine sp :=
    free_end_ sp = E - B /\ free_blocks_ sp = ∅ /\
    num_bytes_allocated_ (fl_base sp) = 0 /\
    num_objects_allocated_ (fl_base sp) = 0 in
  exists o1 sp1 t1 o2 sp2 t2,
    Alloc b1 (FreeListSpace_new B E) t = (Some o1, sp1, t1) /\
    out_obj o1 = B /\
    Alloc b2 sp1 t1 = (Some o2, sp2, t2) /\
    out_obj o2 = B + n1 * kPageSize /\
    (exists sp3 sp4,
       Free (out_obj o1) sp2 = (Some (n1 * kPageSize), sp3) /\
       free_blocks_ sp3 = {[ n1 ]} /\
       free_end_ sp3 = free_end_ sp2 /\
       Free (out_obj o2) sp3 = (Some (n2 * kPageSize), sp4) /\
       pristine sp4) /\
    (exists sp3 sp4,
       Free (out_obj o2) sp2 = (Some (n2 * kPageSize), sp3) /\
       free_blocks_ sp3 = ∅ /\
       free_end_ sp3 = free_end_ sp2 + n2 * kPageSize /\
       Free (out_obj o1) sp3 = (Some (n1 * kPageSize), sp4) /\
       pristine sp4).
Proof.
  intros Hp Hr1 Hr2 Hn1 Hn2 Hc Hc30 HB HE HE64 Alloc Free pristine.
  unfold Alloc, Free, pristine, FreeListSpace_new.
  assert (Hcap : to_uint64 (E - B) = c * kPageSize).
  { rewrite to_uint64_small by nia. lia. }
  rewrite Hcap.
  destruct (live_block_fields 0 n1 ltac:(lia)) as (Ha1 & Hf1 & Hq1).
  destruct (live_block_fields 0 n2 ltac:(lia)) as (Ha2 & Hf2 & Hq2).
  assert (HB0 : B + 0 * kPageSize = B) by lia.
  eexists _, _, _, _, _, _.
  split.
  { apply (Alloc_at_end_state kPageSize Hp) with (s := 0) (n := n1);
      try assumption; try lia; try nia.
    intros x Hx. apply elem_of_empty in Hx. destruct Hx. }
  cbn [out_obj]. split; [exact HB0|].
  split.
  { apply (Alloc_at_end_state kPageSize Hp) with (s := n1) (n := n2);
      try assumption; try lia; try nia.
    intros x Hx. apply elem_of_empty in Hx. destruct Hx. }
  cbn [out_obj]. split; [reflexivity|].
  rewrite (to_uint64_small (0 + n1 * kPageSize)) by nia.
  rewrite (to_uint64_small (0 + 1)) by lia.
  rewrite (to_uint64_small (0 + n1 * kPageSize + n2 * kPageSize)) by nia.
  rewrite (to_uint64_small (0 + 1 + 1)) by lia.
  split.
  - (* the first block is freed first *)
    eexists _, _. split.
    { apply (Free_before_live_block_at kPageSize Hp)
        with (i := mkAllocationInfo 0 n1) (p := 0)
             (inext := mkAllocationInfo 0 n2);
        try assumption; try lia; try nia; try (left; reflexivity);
        unfold info_at; fl_proj; rewrite ?Z.add_0_l; info_simpl; reflexivity. }
    fl_proj. cbn [Z.eqb].
    split; [rewrite Z.add_0_l; apply (right_id_L ∅ (∪))|].
    split; [reflexivity|].
    rewrite !Z.add_0_l, !Z.add_0_r, Z.sub_0_r.
    split.
    { apply (Free_into_free_end_at kPageSize Hp)
        with (i := mkAllocationInfo n1 n2) (p := n1);
        try assumption; try lia; try nia; try (right; apply elem_of_union_l, elem_of_singleton_2; reflexivity);
        try (apply live_block_fields; lia).
      unfold info_at. fl_proj. info_simpl.
      unfold SetPrevFreeBytes, kAlignment. cbn [alloc_size_].
      rewrite Z.div_mul by lia. unfold to_uint32.
      rewrite Z.mod_small by lia. reflexivity. }
    fl_proj.
    destruct (Z.eqb_spec n1 0) as [Hz|_]; [lia|].
    split; [lia|]. split; [apply set_eq; intros x; rewrite elem_of_difference, elem_of_union, elem_of_singleton; split; [intros [[->|Hx] Hne]; [contradiction|apply elem_of_empty in Hx; destruct Hx]|intros Hx; apply elem_of_empty in Hx; destruct Hx]|].
    split.
    + rewrite (to_uint64_small (n1 * kPageSize + n2 * kPageSize
                                - n1 * kPageSize)) by nia.
      replace (n1 * kPageSize + n2 * kPageSize - n1 * kPageSize
               - n2 * kPageSize) with 0 by lia.
      reflexivity.
    + rewrite (to_uint64_small (1 + 1 - 1)) by lia. reflexivity.
  - (* the second block is freed first *)
    eexists _, _. split.
    { apply (Free_into_free_end_at kPageSize Hp)
        with (i := mkAllocationInfo 0 n2) (p := 0);
        try assumption; try lia; try nia; try (left; reflexivity);
        unfold info_at; fl_proj; info_simpl; reflexivity. }
    fl_proj. cbn [Z.eqb].
    split; [reflexivity|]. split; [lia|].
    split.
    { apply (Free_into_free_end_at kPageSize Hp)
        with (i := mkAllocationInfo 0 n1) (p := 0);
        try assumption; try lia; try nia; try (left; reflexivity);
        unfold info_at; fl_proj; info_simpl; reflexivity. }
    fl_proj. cbn [Z.eqb].
    split; [lia|]. split; [reflexivity|].
    split.
    + rewrite (to_uint64_small (0 + n1 * kPageSize + n2 * kPageSize
                                - n2 * kPageSize)) by nia.
      replace (0 + n1 * kPageSize + n2 * kPageSize - n2 * kPageSize
               - n1 * kPageSize) with 0 by lia.
      reflexivity.
    + rewrite (to_uint64_small (0 + 1 + 1 - 1)) by lia. reflexivity.
Qed.

Lemma FreeListSpace_two_blocks_coalesce_witness :
  exists o1 sp1 t1 o2 sp2 t2 sp3 sp4,
    FreeListSpace_Alloc 4096 (fun x n => (x + n - 1) / n * n) 0 1 1 5000
                        (FreeListSpace_new 8192 73728) (mkTotals 0 0)
    = (Some o1, sp1, t1) /\
    FreeListSpace_Alloc 4096 (fun x n => (x + n - 1) / n * n) 0 1 1 9000
                        sp1 t1
    = (Some o2, sp2, t2) /\
    FreeListSpace_Free 4096 1 (out_obj o1) sp2 = (Some (2 * 4096), sp3) /\
    FreeListSpace_Free 4096 1 (out_obj o2) sp3 = (Some (3 * 4096), sp4) /\
    free_end_ sp4 = 73728 - 8192 /\ free_blocks_ sp4 = ∅.
Proof.
  pose proof (FreeListSpace_two_blocks_coalesce
                4096 (fun x n => (x + n - 1) / n * n) 0 1 1 5000 9000 2 3 16
                8192 73728 (mkTotals 0 0)
                ltac:(lia) ltac:(reflexivity) ltac:(reflexivity) ltac:(lia)
                ltac:(lia) ltac:(lia) ltac:(lia) ltac:(lia) ltac:(reflexivity)
                ltac:(lia)) as H.
  cbv zeta in H.
  destruct H as (o1 & sp1 & t1 & o2 & sp2 & t2 & Ha1 & _ & Ha2 & _
                 & (sp3 & sp4 & Hf1 & _ & _ & Hf2 & He & Hb & _) & _).
  exists o1, sp1, t1, o2, sp2, t2, sp3, sp4. repeat split; assumption.
Defined.

(** ** TableEntry: more on the handshake, the counter and the address *)

Section HandshakeRuns.

Implicit Types (e : TableEntry) (kernel : Kernel).

Lemma lock_run_app kernel a b :
  forall t pc e,
    lock_run kernel (a + b) t pc e
    = let '(pc', e') := lock_run kernel a t pc e in
      lock_run kernel b (a + t) pc' e'.
Proof.
  induction a as [|a IH]; intros t pc e.
  - reflexivity.
  - cbn [Nat.add lock_run].
    destruct pc;
      try (destruct (lock_step _ (kernel t e)) as [pc' e'];
           rewrite IH, Nat.add_succ_r; reflexivity).
    symmetry. apply lock_run_Returned.
Qed.

Lemma lock_run_S kernel n e :
  lock_run kernel (S n) 0 AtFirstWait e
  = let '(pc, e') := lock_run kernel n 0 AtFirstWait e in
    match pc with
    | Returned => (Returned, e')
    | _ => lock_step pc (kernel n e')
    end.
Proof.
  replace (S n) with (n + 1)%nat by lia.
  rewrite lock_run_app.
  destruct (lock_run kernel n 0 AtFirstWait e) as [pc e'].
  rewrite Nat.add_0_r. cbn [lock_run].
  destruct pc; try reflexivity;
    destruct (lock_step _ (kernel n e')); reflexivity.
Qed.

Lemma lock_run_waiting kernel d :
  (forall t e, (t < d)%nat -> GetKernelLockBit (kernel t e) = true) ->
  (forall t e, app_lock_counter_ (kernel t e) = app_lock_counter_ e) ->
  forall n t e,
    (t + n <= d)%nat ->
    exists e', lock_run kernel n t AtFirstWait e = (AtFirstWait, e') /\
               app_lock_counter_ e' = app_lock_counter_ e.
Proof.
  intros Hheld Hcnt. induction n as [|n IH]; intros t e Hle.
  - exists e. split; reflexivity.
  - cbn [lock_run lock_step]. rewrite Hheld by lia.
    destruct (IH (S t) (kernel t e) ltac:(lia)) as (e' & Hrun & Hc).
    exists e'. split; [exact Hrun|]. rewrite Hc. apply Hcnt.
Qed.

End HandshakeRuns.

(** X15.  [LockFromAppThread] against a kernel side that holds the lock
    bit for the first [d] looks of the thread and leaves it clear from then
    on, and never writes the counter: the call has not returned after fewer
    than [d + 4] steps, and has returned after [d + 4], with the counter two
    higher (modulo 256) than at the call. *)
Theorem LockFromAppThread_waits_for_release
        (kernel : Kernel) (d : nat) (e : TableEntry) :
  (forall t e, (t < d)%nat -> GetKernelLockBit (kernel t e) = true) ->
  (forall t e, (d <= t)%nat -> GetKernelLockBit (kernel t e) = false) ->
  (forall t e, app_lock_counter_ (kernel t e) = app_lock_counter_ e) ->
  (forall fuel, (fuel < d + 4)%nat -> LockFromAppThread kernel fuel e = None) /\
  (forall fuel, (d + 4 <= fuel)%nat ->
     exists e', LockFromAppThread kernel fuel e = Some e' /\
                GetAppLockCounter e'
                = to_uint8 (GetAppLockCounter e + 2)).
Proof.
  intros Hheld Hclear Hcnt.
  assert (Hafter : forall k,
             exists e0, app_lock_counter_ e0 = app_lock_counter_ e /\
               lock_run kernel (d + k) 0 AtFirstWait e
               = lock_run kernel k d AtFirstWait e0).
  { intros k. rewrite lock_run_app.
    destruct (lock_run_waiting kernel d Hheld Hcnt d 0%nat e ltac:(lia))
      as (e0 & Hrun & Hc).
    rewrite Hrun, Nat.add_0_r. exists e0. split; [exact Hc|reflexivity]. }
  split.
  - intros fuel Hlt. unfold LockFromAppThread.
    destruct (le_lt_dec fuel d) as [Hle|Hgt].
    + destruct (lock_run_waiting kernel d Hheld Hcnt fuel 0%nat e ltac:(lia))
        as (e' & Hrun & _).
      rewrite Hrun. reflexivity.
    + replace fuel with (d + (fuel - d))%nat by lia.
      destruct (Hafter (fuel - d)%nat) as (e0 & _ & ->).
      assert (Hk : (fuel - d = 1 \/ fuel - d = 2 \/ fuel - d = 3)%nat) by lia.
      destruct Hk as [-> | [-> | ->]];
        cbn [lock_run lock_step];
        rewrite ?(Hclear d) by lia;
        cbn [lock_run lock_step];
        rewrite ?(Hclear (S (S d))) by lia;
        reflexivity.
  - intros fuel Hge. unfold LockFromAppThread.
    replace fuel with (d + (4 + (fuel - d - 4)))%nat by lia.
    destruct (Hafter (4 + (fuel - d - 4))%nat) as (e0 & Hc0 & ->).
    cbn [Nat.add lock_run lock_step].
    rewrite (Hclear d) by lia. cbn [lock_run lock_step].
    rewrite (Hclear (S (S d))) by lia. cbn [lock_run lock_step].
    rewrite lock_run_Returned.
    eexists. split; [reflexivity|].
    unfold GetAppLockCounter, IncrAppLockCounter, with_app_lock_counter.
    repeat first [rewrite Hcnt | progress cbn [app_lock_counter_]].
    rewrite Hc0.
    unfold to_uint8. rewrite Zplus_mod_idemp_l. f_equal. lia.
Qed.

Lemma LockFromAppThread_waits_for_release_witness :
  LockFromAppThread
    (fun t e => if (t <? 3)%nat then SetKernelLockBit e
                else ClearKernelLockBit e)
    6 (mkTableEntry 5 254 1 4096 0) = None /\
  exists e',
    LockFromAppThread
      (fun t e => if (t <? 3)%nat then SetKernelLockBit e
                  else ClearKernelLockBit e)
      7 (mkTableEntry 5 254 1 4096 0) = Some e' /\
    GetAppLockCounter e' = 0.
Proof.
  destruct (LockFromAppThread_waits_for_release
              (fun t e => if (t <? 3)%nat then SetKernelLockBit e
                          else ClearKernelLockBit e)
              3 (mkTableEntry 5 254 1 4096 0)) as [Hnone Hsome].
  - intros t e Ht. destruct (Nat.ltb_spec t 3) as [_|Hc]; [|lia].
    apply (GetFlag_SetFlag KernelLock KernelLock).
  - intros t e Ht. destruct (Nat.ltb_spec t 3) as [Hc|_]; [lia|].
    apply (GetFlag_ClearFlag KernelLock KernelLock).
  - intros t e. destruct (t <? 3)%nat; reflexivity.
  - split; [apply Hnone; lia|]. apply Hsome. lia.
Defined.

Section TwoLooks.

Variable kernel : Kernel.
Variable e : TableEntry.

Lemma lock_run_looks n :
  match fst (lock_run kernel n 0 AtFirstWait e) with
  | AtFirstWait => True
  | AtFirstIncr | AtSecondWait =>
      exists t1 e1,
        (t1 < n)%nat /\
        lock_run kernel t1 0 AtFirstWait e = (AtFirstWait, e1) /\
        GetKernelLockBit (kernel t1 e1) = false
  | AtSecondIncr | Returned =>
      exists t1 t2 e1 e2,
        (t1 < t2 < n)%nat /\
        lock_run kernel t1 0 AtFirstWait e = (AtFirstWait, e1) /\
        GetKernelLockBit (kernel t1 e1) = false /\
        lock_run kernel t2 0 AtFirstWait e = (AtSecondWait, e2) /\
        GetKernelLockBit (kernel t2 e2) = false
  end.
Proof.
  induction n as [|n IH].
  - exact I.
  - rewrite lock_run_S.
    destruct (lock_run kernel n 0 AtFirstWait e) as [pc e'] eqn:Hrun.
    cbn [fst] in IH.
    destruct pc; cbn [lock_step fst].
    + destruct (GetKernelLockBit (kernel n e')) eqn:Hbit; cbn [fst].
      * exact I.
      * exists n, e'. split; [lia|]. split; [exact Hrun|exact Hbit].
    + destruct IH as (t1 & e1 & Ht1 & H1). exists t1, e1.
      split; [lia|exact H1].
    + destruct IH as (t1 & e1 & Ht1 & Hr1 & Hb1).
      destruct (GetKernelLockBit (kernel n e')) eqn:Hbit; cbn [fst].
      * exists t1, e1. split; [lia|]. split; assumption.
      * exists t1, n, e1, e'. split; [lia|].
        repeat split; assumption.
    + destruct IH as (t1 & t2 & e1 & e2 & Ht & H).
      exists t1, t2, e1, e2. split; [lia|exact H].
    + destruct IH as (t1 & t2 & e1 & e2 & Ht & H).
      exists t1, t2, e1, e2. split; [lia|exact H].
Qed.

End TwoLooks.

(** X16.  [LockFromAppThread] returns only after two looks at a clear lock
    bit, whatever the kernel side does: if the call has returned within
    [fuel] steps, then at some step [t1] the thread stood in its first loop
    and read the bit clear, and at a later step [t2] it stood in its second
    loop and read the bit clear again. *)
Theorem LockFromAppThread_looks_twice
        (kernel : Kernel) (fuel : nat) (e e' : TableEntry) :
  LockFromAppThread kernel fuel e = Some e' ->
  exists t1 t2 e1 e2,
    (t1 < t2 < fuel)%nat /\
    lock_run kernel t1 0 AtFirstWait e = (AtFirstWait, e1) /\
    GetKernelLockBit (kernel t1 e1) = false /\
    lock_run kernel t2 0 AtFirstWait e = (AtSecondWait, e2) /\
    GetKernelLockBit (kernel t2 e2) = false.
Proof.
  unfold LockFromAppThread. intros Hret.
  pose proof (lock_run_looks kernel e fuel) as H.
  destruct (lock_run kernel fuel 0 AtFirstWait e) as [pc e0].
  destruct pc; try discriminate. cbn [fst] in H.
  destruct H as (t1 & t2 & e1 & e2 & Ht & H).
  exists t1, t2, e1, e2. split; [exact Ht|exact H].
Qed.

Lemma LockFromAppThread_looks_twice_witness :
  exists t1 t2 e1 e2,
    (t1 < t2 < 4)%nat /\
    lock_run idle_kernel t1 0 AtFirstWait (mkTableEntry 5 0 1 4096 0)
    = (AtFirstWait, e1) /\
    GetKernelLockBit (idle_kernel t1 e1) = false /\
    lock_run idle_kernel t2 0 AtFirstWait (mkTableEntry 5 0 1 4096 0)
    = (AtSecondWait, e2) /\
    GetKernelLockBit (idle_kernel t2 e2) = false.
Proof.
  apply (LockFromAppThread_looks_twice
           idle_kernel 4 (mkTableEntry 5 0 1 4096 0)
           (mkTableEntry 5 2 1 4096 0)).
  reflexivity.
Defined.

(** X17.  On a counter that is a [uint8_t] value, [DecrAppLockCounter]
    undoes [IncrAppLockCounter] and the other way round, at the wrap from
    255 to 0 as well; so [UnlockFromAppThread] takes back exactly one of the
    two increments of [LockFromAppThread]. *)
Theorem AppLockCounter_incr_decr_inverse (e : TableEntry) :
  0 <= app_lock_counter_ e < 256 ->
  DecrAppLockCounter (IncrAppLockCounter e) = e /\
  IncrAppLockCounter (DecrAppLockCounter e) = e /\
  UnlockFromAppThread (IncrAppLockCounter (IncrAppLockCounter e))
  = IncrAppLockCounter e.
Proof.
  intros Hc. destruct e as [f c np oa sb]. cbn [app_lock_counter_] in Hc.
  unfold UnlockFromAppThread, DecrAppLockCounter, IncrAppLockCounter,
    with_app_lock_counter.
  cbn [app_lock_counter_ bit_flags_ num_pages_ object_address_
       stub_back_pointer_].
  assert (H1 : to_uint8 (to_uint8 (c + 1) - 1) = c).
  { unfold to_uint8. rewrite Zminus_mod_idemp_l.
    replace (c + 1 - 1) with c by lia. apply Z.mod_small. lia. }
  assert (H2 : to_uint8 (to_uint8 (c - 1) + 1) = c).
  { unfold to_uint8. rewrite Zplus_mod_idemp_l.
    replace (c - 1 + 1) with c by lia. apply Z.mod_small. lia. }
  assert (H3 : to_uint8 (to_uint8 (to_uint8 (c + 1) + 1) - 1)
               = to_uint8 (c + 1)) by apply counter_after_pair.
  rewrite H1, H2, H3. repeat split.
Qed.

Lemma AppLockCounter_incr_decr_inverse_witness :
  DecrAppLockCounter (IncrAppLockCounter (mkTableEntry 5 255 1 4096 0))
  = mkTableEntry 5 255 1 4096 0 /\
  IncrAppLockCounter (DecrAppLockCounter (mkTableEntry 5 255 1 4096 0))
  = mkTableEntry 5 255 1 4096 0 /\
  UnlockFromAppThread
    (IncrAppLockCounter (IncrAppLockCounter (mkTableEntry 5 255 1 4096 0)))
  = IncrAppLockCounter (mkTableEntry 5 255 1 4096 0).
Proof.
  apply (AppLockCounter_incr_decr_inverse (mkTableEntry 5 255 1 4096 0)).
  simpl. lia.
Defined.

(** X18.  [SetObjectAddress] keeps the low 32 bits of the pointer:
    [GetObjectAddress] gives back [obj] modulo 2^32, which is [obj] exactly
    when the object lies below 4 GiB; the other four members are
    unchanged. *)
Theorem SetObjectAddress_keeps_low_32_bits (obj : Z) (e : TableEntry) :
  GetObjectAddress (SetObjectAddress obj e) = obj mod 2 ^ 32 /\
  (GetObjectAddress (SetObjectAddress obj e) = obj <-> 0 <= obj < 2 ^ 32) /\
  bit_flags_ (SetObjectAddress obj e) = bit_flags_ e /\
  app_lock_counter_ (SetObjectAddress obj e) = app_lock_counter_ e /\
  num_pages_ (SetObjectAddress obj e) = num_pages_ e /\
  stub_back_pointer_ (SetObjectAddress obj e) = stub_back_pointer_ e.
Proof.
  unfold GetObjectAddress, SetObjectAddress, to_uint32.
  cbn [object_address_ bit_flags_ app_lock_counter_ num_pages_
       stub_back_pointer_].
  change 4294967296 with (2 ^ 32).
  split; [reflexivity|]. split; [|repeat split].
  split.
  - intros H. rewrite <- H. apply Z.mod_pos_bound. lia.
  - intros H. apply Z.mod_small. exact H.
Qed.

(** X19.  Setting a flag that was clear and clearing it again gives the
    entry back, and so does clearing a flag that was set and setting it
    again, on a flags byte that is a [uint8_t] value. *)
Theorem flag_set_clear_round_trip (b : FlagBit) (e : TableEntry) :
  0 <= bit_flags_ e < 256 ->
  (GetFlag b e = false -> ClearFlag b (SetFlag b e) = e) /\
  (GetFlag b e = true -> SetFlag b (ClearFlag b e) = e).
Proof.
  intros Hr.
  assert (Hbyte : forall e1 e2 : TableEntry,
             0 <= bit_flags_ e1 < 256 -> 0 <= bit_flags_ e2 < 256 ->
             (forall i, 0 <= i < 8 ->
                        Z.testbit (bit_flags_ e1) i = Z.testbit (bit_flags_ e2) i) ->
             bit_flags_ e1 = bit_flags_ e2).
  { intros e1 e2 H1 H2 Hbits. apply Z.bits_inj'. intros i Hi.
    destruct (Z.lt_ge_cases i 8) as [Hlt|Hge].
    - apply Hbits. lia.
    - rewrite (small_testbit (bit_flags_ e1) 8 i) by lia.
      rewrite (small_testbit (bit_flags_ e2) 8 i) by lia. reflexivity. }
  assert (Hrest : forall e1 : TableEntry,
             bit_flags_ e1 = bit_flags_ e ->
             app_lock_counter_ e1 = app_lock_counter_ e ->
             num_pages_ e1 = num_pages_ e ->
             object_address_ e1 = object_address_ e ->
             stub_back_pointer_ e1 = stub_back_pointer_ e -> e1 = e).
  { intros [f1 c1 n1 o1 s1]. destruct e as [f c n o s]. cbn.
    intros -> -> -> -> ->. reflexivity. }
  pose proof (flag_offset_range b) as Hoff.
  rewrite GetFlag_testbit, !SetFlag_SetBit, !ClearFlag_ClearBit.
  split; intros Hflag; apply Hrest; try reflexivity.
  - apply Hbyte; [apply to_uint8_range|exact Hr|].
    intros i Hi. rewrite ClearBit_testbit, SetBit_testbit by lia.
    destruct (Z.eqb_spec (flag_offset b) i) as [<-|_].
    + rewrite Hflag. reflexivity.
    + reflexivity.
  - apply Hbyte; [apply to_uint8_range|exact Hr|].
    intros i Hi. rewrite SetBit_testbit, ClearBit_testbit by lia.
    destruct (Z.eqb_spec (flag_offset b) i) as [<-|_].
    + rewrite Hflag. reflexivity.
    + reflexivity.
Qed.

Lemma flag_set_clear_round_trip_witness :
  (GetFlag KernelLock (mkTableEntry 5 0 1 4096 0) = false ->
   ClearFlag KernelLock (SetFlag KernelLock (mkTableEntry 5 0 1 4096 0))
   = mkTableEntry 5 0 1 4096 0) /\
  (GetFlag KernelLock (mkTableEntry 5 0 1 4096 0) = true ->
   SetFlag KernelLock (ClearFlag KernelLock (mkTableEntry 5 0 1 4096 0))
   = mkTableEntry 5 0 1 4096 0).
Proof.
  apply (flag_set_clear_round_trip KernelLock (mkTableEntry 5 0 1 4096 0)).
  simpl. lia.
Defined.

(** ** JavaVMExt: the chain of environment hooks *)

Section GetEnvChain.

Variables JNI_OK JNI_EVERSION : Z.
Hypothesis OK_is_not_EVERSION : JNI_OK <> JNI_EVERSION.

Lemma HandleGetEnv_app pre rest env version :
  HandleGetEnv JNI_OK JNI_EVERSION (pre ++ rest) env version
  = let '(res, env') := HandleGetEnv JNI_OK JNI_EVERSION pre env version in
    if res =? JNI_EVERSION
    then HandleGetEnv JNI_OK JNI_EVERSION rest env' version
    else (res, env').
Proof.
  revert env. induction pre as [|hook pre IH]; intros env.
  - cbn. rewrite Z.eqb_refl. reflexivity.
  - cbn [app HandleGetEnv].
    destruct (hook env version) as [res env'].
    destruct (Z.eqb_spec res JNI_OK) as [->|Hne].
    + destruct (Z.eqb_spec JNI_OK JNI_EVERSION) as [Hc|_]; [contradiction|].
      reflexivity.
    + destruct (Z.eqb_spec res JNI_EVERSION) as [->|Hne'];
        cbn [negb].
      * apply IH.
      * destruct (Z.eqb_spec res JNI_EVERSION) as [Hc|_]; [contradiction|].
        reflexivity.
Qed.

End GetEnvChain.

(** X20.  [HandleGetEnv] asks the hooks in the order in which
    [AddEnvironmentHook] added them.  An answer of a hook other than
    [JNI_EVERSION] is final: hooks added later are not asked and cannot
    change the result or [*env].  [JNI_EVERSION] from every hook so far
    passes the question on; with no hook left, the result is
    [JNI_EVERSION]. *)
Theorem HandleGetEnv_first_answer_wins
        (JNI_OK JNI_EVERSION : Z) (hooks : list GetEnvHook)
        (hook : GetEnvHook) (env version : Z) :
  JNI_OK <> JNI_EVERSION ->
  let '(res, env') := HandleGetEnv JNI_OK JNI_EVERSION hooks env version in
  HandleGetEnv JNI_OK JNI_EVERSION (AddEnvironmentHook hook hooks) env version
  = (if res =? JNI_EVERSION
     then (let '(r, e) := hook env' version in
           if r =? JNI_OK then (JNI_OK, e)
           else if r =? JNI_EVERSION then (JNI_EVERSION, e) else (r, e))
     else (res, env')) /\
  HandleGetEnv JNI_OK JNI_EVERSION [] env version = (JNI_EVERSION, env).
Proof.
  intros Hne. unfold AddEnvironmentHook.
  rewrite (HandleGetEnv_app JNI_OK JNI_EVERSION Hne).
  destruct (HandleGetEnv JNI_OK JNI_EVERSION hooks env version) as [res env'].
  split; [|reflexivity].
  destruct (res =? JNI_EVERSION); [|reflexivity].
  cbn [HandleGetEnv]. destruct (hook env' version) as [r e].
  destruct (r =? JNI_OK); [reflexivity|].
  destruct (Z.eqb_spec r JNI_EVERSION) as [->|_]; reflexivity.
Qed.

Lemma HandleGetEnv_first_answer_wins_witness :
  HandleGetEnv 0 (-3) (AddEnvironmentHook (fun e _ => (0, e + 1))
                                          [fun e _ => (-1, 7)]) 5 65542
  = (-1, 7) /\
  HandleGetEnv 0 (-3) [] 5 65542 = (-3, 5).
Proof.
  apply (HandleGetEnv_first_answer_wins
           0 (-3) [fun e _ => (-1, 7)] (fun e _ => (0, e + 1)) 5 65542).
  lia.
Defined.

(** ** JavaVMExt: allocation tracking near exhaustion of the globals *)

Section Tracking.

(** The check after each of a series of changes of the table of globals,
    given by the free capacity it finds each time. *)
Lemma tracking_invariant (h0 : bool) (capacities : list Z) :
  forall g,
    (if allocation_tracking_enabled_ g
     then IsAllocTrackingEnabled g = true /\
          old_allocation_tracking_state_ g = h0
     else IsAllocTrackingEnabled g = h0) ->
    let g' := foldl (fun g c => CheckGlobalRefAllocationTracking c g)
                    g capacities in
    (if allocation_tracking_enabled_ g'
     then IsAllocTrackingEnabled g' = true /\
          old_allocation_tracking_state_ g' = h0
     else IsAllocTrackingEnabled g' = h0) /\
    enable_allocation_tracking_delta_ g' = enable_allocation_tracking_delta_ g.
Proof.
  induction capacities as [|c cs IH]; intros g Hinv; cbn [foldl].
  - split; [exact Hinv|reflexivity].
  - assert (Hstep :
      (if allocation_tracking_enabled_ (CheckGlobalRefAllocationTracking c g)
       then IsAllocTrackingEnabled (CheckGlobalRefAllocationTracking c g)
            = true /\
            old_allocation_tracking_state_
              (CheckGlobalRefAllocationTracking c g) = h0
       else IsAllocTrackingEnabled (CheckGlobalRefAllocationTracking c g)
            = h0) /\
      enable_allocation_tracking_delta_ (CheckGlobalRefAllocationTracking c g)
      = enable_allocation_tracking_delta_ g).
    { unfold CheckGlobalRefAllocationTracking.
      destruct g as [delta en old heap_on]. cbn in *.
      destruct (delta =? 0); [split; [exact Hinv|reflexivity]|].
      destruct (c <=? delta); destruct en; cbn.
      - split; [exact Hinv|reflexivity].
      - subst heap_on. destruct h0; cbn; repeat split.
      - destruct Hinv as [-> ->]. destruct h0; cbn; repeat split.
      - split; [exact Hinv|reflexivity]. }
    destruct Hstep as [Hinv' Hdelta].
    destruct (IH _ Hinv') as [H1 H2]. split; [exact H1|].
    cbv zeta in H2. rewrite H2. exact Hdelta.
Qed.

End Tracking.

(** X21.  [CheckGlobalRefAllocationTracking] only borrows the switch of
    the heap.  Starting with [allocation_tracking_enabled_] false, after any
    series of checks: while the member is true, allocation tracking is on;
    once it is false again, allocation tracking is what it was at the start,
    so tracking that was on before is never switched off and tracking that
    was off is never left on.  With a delta of zero no check changes
    anything. *)
Theorem CheckGlobalRefAllocationTracking_restores
        (capacities : list Z) (g : GlobalRefTracking) :
  allocation_tracking_enabled_ g = false ->
  let g' := foldl (fun g c => CheckGlobalRefAllocationTracking c g)
                  g capacities in
  (allocation_tracking_enabled_ g' = true ->
   IsAllocTrackingEnabled g' = true) /\
  (allocation_tracking_enabled_ g' = false ->
   IsAllocTrackingEnabled g' = IsAllocTrackingEnabled g) /\
  (IsAllocTrackingEnabled g = true -> IsAllocTrackingEnabled g' = true) /\
  (enable_allocation_tracking_delta_ g = 0 -> g' = g).
Proof.
  intros Hoff g'.
  destruct (tracking_invariant (IsAllocTrackingEnabled g) capacities g)
    as [Hinv _].
  { rewrite Hoff. reflexivity. }
  fold g' in Hinv.
  repeat split.
  - intros Hen. rewrite Hen in Hinv. apply Hinv.
  - intros Hen. rewrite Hen in Hinv. exact Hinv.
  - intros Hon. destruct (allocation_tracking_enabled_ g').
    + apply Hinv.
    + rewrite Hinv. exact Hon.
  - intros Hz. unfold g'. clear Hinv g'.
    induction capacities as [|c cs IH]; cbn [foldl]; [reflexivity|].
    assert (Hc : CheckGlobalRefAllocationTracking c g = g).
    { unfold CheckGlobalRefAllocationTracking. rewrite Hz. reflexivity. }
    rewrite Hc. exact IH.
Qed.

Lemma CheckGlobalRefAllocationTracking_restores_witness :
  let g := mkGlobalRefTracking 16 false false false in
  let g' := foldl (fun g c => CheckGlobalRefAllocationTracking c g)
                  g [100; 10; 5; 40] in
  (allocation_tracking_enabled_ g' = true ->
   IsAllocTrackingEnabled g' = true) /\
  (allocation_tracking_enabled_ g' = false ->
   IsAllocTrackingEnabled g' = IsAllocTrackingEnabled g) /\
  (IsAllocTrackingEnabled g = true -> IsAllocTrackingEnabled g' = true) /\
  (enable_allocation_tracking_delta_ g = 0 -> g' = g).
Proof.
  apply (CheckGlobalRefAllocationTracking_restores
           [100; 10; 5; 40] (mkGlobalRefTracking 16 false false false)).
  reflexivity.
Defined.

(** X22.  [SweepJniWeakGlobals] keeps the table as long as it was and
    keeps null entries apart from cleared ones: a null entry stays null, an
    entry whose object is marked becomes what the visitor returned, and an
    entry whose object is not marked becomes the cleared sentinel; so, with
    a sentinel that is not null, exactly the null entries are null
    afterwards. *)
Theorem SweepJniWeakGlobals_keeps_null_apart
        (IsMarked : Z -> Z) (cleared : Z) (weak_globals : list Z) :
  cleared <> 0 ->
  length (SweepJniWeakGlobals IsMarked cleared weak_globals)
  = length weak_globals /\
  forall i entry,
    weak_globals !! i = Some entry ->
    exists entry',
      SweepJniWeakGlobals IsMarked cleared weak_globals !! i = Some entry' /\
      (entry' = 0 <-> entry = 0) /\
      (entry <> 0 -> IsMarked entry <> 0 -> entry' = IsMarked entry) /\
      (entry <> 0 -> IsMarked entry = 0 -> entry' = cleared).
Proof.
  intros Hc. unfold SweepJniWeakGlobals. split.
  - apply length_fmap.
  - intros i entry Hi. rewrite list_lookup_fmap, Hi. cbn.
    eexists. split; [reflexivity|].
    destruct (Z.eqb_spec entry 0) as [->|Hne]; cbn.
    + repeat split; intros; congruence.
    + destruct (Z.eqb_spec (IsMarked entry) 0) as [Hm|Hm].
      * repeat split; intros; congruence.
      * repeat split; intros; congruence.
Qed.

Lemma SweepJniWeakGlobals_keeps_null_apart_witness :
  length (SweepJniWeakGlobals (fun a => if a =? 8 then 0 else a + 16) 1
                              [0; 8; 24])
  = length [0; 8; 24] /\
  forall i entry,
    [0; 8; 24] !! i = Some entry ->
    exists entry',
      SweepJniWeakGlobals (fun a => if a =? 8 then 0 else a + 16) 1
                          [0; 8; 24] !! i = Some entry' /\
      (entry' = 0 <-> entry = 0) /\
      (entry <> 0 -> (fun a => if a =? 8 then 0 else a + 16) entry <> 0 ->
       entry' = (fun a => if a =? 8 then 0 else a + 16) entry) /\
      (entry <> 0 -> (fun a => if a =? 8 then 0 else a + 16) entry = 0 ->
       entry' = 1).
Proof.
  apply (SweepJniWeakGlobals_keeps_null_apart
           (fun a => if a =? 8 then 0 else a + 16) 1 [0; 8; 24]).
  lia.
Defined.

(** ** Heap::IsOutOfMemoryOnAllocation *)

(** X23.  [IsOutOfMemoryOnAllocation] when the new footprint does not
    wrap around: the answer and the new target depend only on where the new
    footprint lies, not on how often the weak compare-exchange fails.  At or
    below the target: not out of memory, nothing changes.  Above the growth
    limit: out of memory.  In between: not out of memory when a concurrent
    collector will help; otherwise the target is raised to the new footprint
    if the caller allows growth, and the answer is out of memory if not.
    The target never shrinks and never passes a growth limit it was
    under. *)
Theorem IsOutOfMemoryOnAllocation_cases
        (spurious : nat) (concurrent grow : bool) (alloc_size : Z)
        (h : HeapLimits) :
  0 <= heap_num_bytes_allocated_ h + alloc_size < 2 ^ 64 ->
  let new_footprint := heap_num_bytes_allocated_ h + alloc_size in
  let '(oom, h') :=
    IsOutOfMemoryOnAllocation spurious concurrent alloc_size grow h in
  (new_footprint <= target_footprint_ h -> oom = false /\ h' = h) /\
  (target_footprint_ h < new_footprint -> growth_limit_ h < new_footprint ->
   oom = true /\ h' = h) /\
  (target_footprint_ h < new_footprint <= growth_limit_ h ->
   (concurrent = true -> oom = false /\ h' = h) /\
   (concurrent = false -> grow = true ->
    oom = false /\
    h' = mkHeapLimits new_footprint (heap_num_bytes_allocated_ h)
                      (growth_limit_ h)) /\
   (concurrent = false -> grow = false -> oom = true /\ h' = h)) /\
  target_footprint_ h <= target_footprint_ h' /\
  (target_footprint_ h <= growth_limit_ h ->
   target_footprint_ h' <= growth_limit_ h') /\
  heap_num_bytes_allocated_ h' = heap_num_bytes_allocated_ h /\
  growth_limit_ h' = growth_limit_ h.
Proof.
  intros Hr new_footprint.
  induction spurious as [|n IH].
  - cbn [IsOutOfMemoryOnAllocation].
    rewrite to_uint64_small by exact Hr. fold new_footprint.
    destruct (Z.leb_spec new_footprint (target_footprint_ h)).
    { repeat split; intros; try lia; try reflexivity. }
    destruct (Z.ltb_spec (growth_limit_ h) new_footprint).
    { repeat split; intros; try lia; try reflexivity. }
    destruct concurrent.
    { repeat split; intros; try lia; try reflexivity; try discriminate. }
    destruct grow; cbn [target_footprint_ growth_limit_
                        heap_num_bytes_allocated_];
      repeat split; intros; try lia; try reflexivity; try discriminate.
  - cbn [IsOutOfMemoryOnAllocation].
    rewrite to_uint64_small by exact Hr. fold new_footprint.
    destruct (Z.leb_spec new_footprint (target_footprint_ h)).
    { repeat split; intros; try lia; try reflexivity. }
    destruct (Z.ltb_spec (growth_limit_ h) new_footprint).
    { repeat split; intros; try lia; try reflexivity. }
    destruct concurrent.
    { repeat split; intros; try lia; try reflexivity; try discriminate. }
    destruct grow.
    + exact IH.
    + repeat split; intros; try lia; try reflexivity; try discriminate.
Qed.

Lemma IsOutOfMemoryOnAllocation_cases_witness :
  IsOutOfMemoryOnAllocation 3 false 4096 true (mkHeapLimits 8192 8000 65536)
  = (false, mkHeapLimits 12096 8000 65536).
Proof.
  pose proof (IsOutOfMemoryOnAllocation_cases
                3 false true 4096 (mkHeapLimits 8192 8000 65536)) as H.
  cbv zeta in H.
  destruct (IsOutOfMemoryOnAllocation 3 false 4096 true
                                      (mkHeapLimits 8192 8000 65536))
    as [oom h'].
  destruct H as (_ & _ & H & _); [simpl; lia|].
  destruct H as (_ & H & _); [simpl; lia|].
  destruct H as [-> ->]; reflexivity.
Defined.

(** ** Object::VisitFieldsReferences *)

Section BitmapWalk.

Variables kObjectHeaderSize kClassWalkSuper ClassOffset : Z.
Variable sizeof_HeapReference : Z.
Hypothesis sizeof_HeapReference_pos : 0 < sizeof_HeapReference.

Lemma no_bits_no_visits (f : nat -> Z) (l : list nat) :
  flat_map (fun i => if Z.testbit 0 (Z.of_nat i) then [f i] else []) l = [].
Proof.
  induction l as [|a l IH]; cbn; [reflexivity|].
  rewrite Z.bits_0. exact IH.
Qed.

Lemma flat_map_over_map {A B C : Type} (g : B -> list C) (h : A -> B) l :
  flat_map g (map h l) = flat_map (fun a => g (h a)) l.
Proof.
  induction l as [|a l IH]; cbn; [reflexivity|]. rewrite IH. reflexivity.
Qed.

Lemma to_uint32_small z : 0 <= z < 2 ^ 32 -> to_uint32 z = z.
Proof. intros H. unfold to_uint32. apply Z.mod_small. lia. Qed.

Lemma half_range n r :
  0 <= r < 2 ^ Z.of_nat (S n) -> 0 <= Z.shiftr r 1 < 2 ^ Z.of_nat n.
Proof.
  intros Hr. rewrite Z.shiftr_div_pow2 by lia. change (2 ^ 1) with 2.
  rewrite Nat2Z.inj_succ, Z.pow_succ_r in Hr by lia.
  split; [apply Z.div_pos; lia|].
  apply Z.div_lt_upper_bound; lia.
Qed.

Lemma visit_bitmap_bits :
  forall n ref_offsets field_offset,
    0 <= ref_offsets < 2 ^ Z.of_nat n ->
    0 <= field_offset ->
    field_offset + sizeof_HeapReference * Z.of_nat n < 2 ^ 32 ->
    visit_bitmap sizeof_HeapReference n ref_offsets field_offset
    = flat_map (fun i => if Z.testbit ref_offsets (Z.of_nat i)
                         then [field_offset
                               + sizeof_HeapReference * Z.of_nat i]
                         else [])
               (seq 0 n).
Proof.
  induction n as [|n IH]; intros r f Hr Hf Hfit.
  - reflexivity.
  - cbn [visit_bitmap].
    destruct (Z.eqb_spec r 0) as [->|Hne].
    { symmetry. apply (no_bits_no_visits
                         (fun i => f + sizeof_HeapReference * Z.of_nat i)). }
    cbn [seq flat_map].
    assert (Hlow : negb (Z.land r 1 =? 0) = Z.testbit r (Z.of_nat 0)).
    { change 1 with (2 ^ 0). apply land_pow2_testbit. lia. }
    rewrite Hlow. cbn [Z.of_nat]. rewrite Z.mul_0_r, Z.add_0_r.
    f_equal.
    rewrite <- seq_shift, flat_map_over_map.
    rewrite (to_uint32_small (f + sizeof_HeapReference)) by nia.
    rewrite IH; [|apply half_range; exact Hr|lia|nia].
    apply flat_map_ext. intros i.
    rewrite Z.shiftr_spec by lia.
    replace (Z.of_nat i + 1) with (Z.of_nat (S i)) by lia.
    replace (f + sizeof_HeapReference + sizeof_HeapReference * Z.of_nat i)
      with (f + sizeof_HeapReference * Z.of_nat (S i)) by lia.
    reflexivity.
Qed.

Lemma visit_bitmap_fuel :
  forall n fuel ref_offsets field_offset,
    0 <= ref_offsets < 2 ^ Z.of_nat n -> (n <= fuel)%nat ->
    visit_bitmap sizeof_HeapReference fuel ref_offsets field_offset
    = visit_bitmap sizeof_HeapReference n ref_offsets field_offset.
Proof.
  induction n as [|n IH]; intros fuel r f Hr Hfuel.
  - assert (r = 0) by (cbn in Hr; lia). subst r.
    destruct fuel; reflexivity.
  - destruct fuel as [|fuel]; [lia|]. cbn [visit_bitmap].
    destruct (r =? 0); [reflexivity|]. f_equal.
    apply IH; [|lia]. apply half_range. exact Hr.
Qed.

Lemma visit_class_fields_skips_class n :
  forall field_offset,
    ~ In ClassOffset
         (visit_class_fields ClassOffset sizeof_HeapReference n field_offset).
Proof.
  induction n as [|n IH]; intros f; cbn [visit_class_fields].
  - intros [].
  - intros Hin. apply in_app_or in Hin as [Hin|Hin].
    + destruct (f =? ClassOffset) eqn:E; cbn in Hin.
      * exact Hin.
      * destruct Hin as [Heq|[]]. subst f. rewrite Z.eqb_refl in E.
        discriminate.
    + exact (IH _ Hin).
Qed.

End BitmapWalk.

(** X24.  The fast path of [VisitFieldsReferences], for an instance walk
    with a bitmap other than [kClassWalkSuper]: with [size] the size of a
    heap reference, the visitor is called for exactly the offsets
    [kObjectHeaderSize + size * i] of the bits [i] that are set in
    [ref_offsets], lowest bit first, and the loop is over after at most 32
    rounds however many more it is allowed. *)
Theorem VisitFieldsReferences_fast_path
        (kObjectHeaderSize kClassWalkSuper ClassOffset size ref_offsets : Z)
        (as_class : ClassRefs) (class_chain : list ClassRefs) :
  0 < size ->
  0 <= ref_offsets < 2 ^ 32 -> ref_offsets <> kClassWalkSuper ->
  0 <= kObjectHeaderSize -> kObjectHeaderSize + size * 32 < 2 ^ 32 ->
  VisitFieldsReferences_body kObjectHeaderSize kClassWalkSuper ClassOffset
                             size false ref_offsets as_class class_chain
  = flat_map (fun i => if Z.testbit ref_offsets (Z.of_nat i)
                       then [kObjectHeaderSize + size * Z.of_nat i] else [])
             (seq 0 32) /\
  forall fuel, (32 <= fuel)%nat ->
    visit_bitmap size fuel ref_offsets kObjectHeaderSize
    = visit_bitmap size 32 ref_offsets kObjectHeaderSize.
Proof.
  intros Hsize Hr Hne Hh Hfit. split.
  - unfold VisitFieldsReferences_body. cbn [negb andb].
    destruct (Z.eqb_spec ref_offsets kClassWalkSuper) as [Hc|_];
      [contradiction|].
    cbn [negb]. apply visit_bitmap_bits; try assumption; lia.
  - intros fuel Hfuel. apply visit_bitmap_fuel; assumption.
Qed.

Lemma VisitFieldsReferences_fast_path_witness :
  VisitFieldsReferences_body 8 3221225472 0 4 false 5
                             (mkClassRefs 0 0) []
  = flat_map (fun i => if Z.testbit 5 (Z.of_nat i)
                       then [8 + 4 * Z.of_nat i] else [])
             (seq 0 32) /\
  forall fuel, (32 <= fuel)%nat ->
    visit_bitmap 4 fuel 5 8 = visit_bitmap 4 32 5 8.
Proof.
  apply (VisitFieldsReferences_fast_path 8 3221225472 0 4 5
                                         (mkClassRefs 0 0) []);
    lia.
Defined.

(** X25.  [VisitFieldsReferences] never hands the class field to the
    visitor: the slow path leaves the offset [ClassOffset()] out, and the
    fast path starts at [kObjectHeaderSize], above it. *)
Theorem VisitFieldsReferences_skips_class_field
        (kObjectHeaderSize kClassWalkSuper ClassOffset size ref_offsets : Z)
        (kIsStatic : bool)
        (as_class : ClassRefs) (class_chain : list ClassRefs) :
  0 < size ->
  0 <= ref_offsets < 2 ^ 32 ->
  0 <= ClassOffset < kObjectHeaderSize ->
  kObjectHeaderSize + size * 32 < 2 ^ 32 ->
  ~ In ClassOffset
       (VisitFieldsReferences_body kObjectHeaderSize kClassWalkSuper
                                   ClassOffset size kIsStatic ref_offsets
                                   as_class class_chain).
Proof.
  intros Hsize Hr Hc Hfit. unfold VisitFieldsReferences_body.
  destruct (negb kIsStatic && negb (ref_offsets =? kClassWalkSuper)).
  - rewrite visit_bitmap_bits; [|exact Hsize|assumption|lia|lia].
    intros Hin. apply in_flat_map in Hin as (i & _ & Hin).
    destruct (Z.testbit ref_offsets (Z.of_nat i)); cbn in Hin.
    + destruct Hin as [Heq|[]]. nia.
    + exact Hin.
  - intros Hin. apply in_flat_map in Hin as (klass & _ & Hin).
    destruct (NumReferenceFields klass =? 0); [exact Hin|].
    exact (visit_class_fields_skips_class ClassOffset size _ _ Hin).
Qed.

Lemma VisitFieldsReferences_skips_class_field_witness :
  ~ In 0 (VisitFieldsReferences_body 8 3221225472 0 4 false 3221225472
                                     (mkClassRefs 0 0)
                                     [mkClassRefs 2 8; mkClassRefs 1 0]).
Proof.
  apply (VisitFieldsReferences_skips_class_field
           8 3221225472 0 4 3221225472 false (mkClassRefs 0 0)
           [mkClassRefs 2 8; mkClassRefs 1 0]); lia.
Defined.

(** ** Array::CreateMultiArray *)

Section MultiArray.

Lemma first_negative_spec dimensions :
  forall i0,
    match first_negative i0 dimensions with
    | Some (i, d) =>
        exists k, i = i0 + Z.of_nat k /\ dimensions !! k = Some d /\ d < 0 /\
                  forall j d', (j < k)%nat -> dimensions !! j = Some d' ->
                               0 <= d'
    | None => Forall (fun d => 0 <= d) dimensions
    end.
Proof.
  induction dimensions as [|d rest IH]; intros i0; cbn [first_negative].
  - constructor.
  - destruct (Z.ltb_spec d 0) as [Hneg|Hpos].
    + exists 0%nat. repeat split; [lia|exact Hneg|].
      intros j d' Hj. lia.
    + specialize (IH (i0 + 1)).
      destruct (first_negative (i0 + 1) rest) as [[i d0]|].
      * destruct IH as (k & Hi & Hk & Hd & Hbefore).
        exists (S k). repeat split; [lia|exact Hk|exact Hd|].
        intros j d' Hj Hlook. destruct j as [|j].
        -- cbn in Hlook. injection Hlook as <-. exact Hpos.
        -- apply (Hbefore j); [lia|exact Hlook].
      * constructor; assumption.
Qed.

Lemma find_array_classes_ok n :
  forall w,
    (forall k, find_class_answer w k = true) ->
    exists w',
      find_array_classes n w = (true, w') /\
      alloc_answer w' = alloc_answer w /\
      find_class_answer w' = find_class_answer w /\
      allocs_done w' = allocs_done w /\
      finds_done w' = (finds_done w + n)%nat.
Proof.
  induction n as [|n IH]; intros w Hok; cbn [find_array_classes].
  - exists w. repeat split. lia.
  - unfold FindArrayClass. rewrite Hok.
    destruct (IH (mkArrayWorld (alloc_answer w) (find_class_answer w)
                               (allocs_done w) (S (finds_done w))
                               (array_log w ++ [EvFindArrayClass])) Hok)
      as (w' & Hrun & Ha & Hf & Hc & Hd).
    exists w'. split; [exact Hrun|]. cbn in *. repeat split; try assumption.
    lia.
Qed.

Lemma RecursiveCreateMultiArray_all dimensions :
  dimensions <> [] ->
  Forall (fun d => 0 <= d) dimensions ->
  forall w,
    (forall k, alloc_answer w k <> 0) ->
    exists w',
      RecursiveCreateMultiArray dimensions w
      = (alloc_answer w (allocs_done w), w') /\
      alloc_answer w' = alloc_answer w /\
      find_class_answer w' = find_class_answer w /\
      finds_done w' = finds_done w /\
      allocs_done w'
      = (allocs_done w
         + foldr (fun d acc => S (Z.to_nat d * acc)) 0 dimensions)%nat.
Proof.
  induction dimensions as [|d rest IH]; intros Hne Hpos w Hok;
    [contradiction|].
  apply Forall_cons in Hpos as [Hd Hrest].
  cbn [RecursiveCreateMultiArray foldr]. unfold Array_Alloc.
  destruct (Z.eqb_spec (alloc_answer w (allocs_done w)) 0) as [Hz|_];
    [destruct (Hok _ Hz)|].
  destruct rest as [|d2 rest2].
  - eexists. split; [reflexivity|]. cbn. repeat split. lia.
  - specialize (IH ltac:(discriminate) Hrest).
    set (count := foldr (fun d acc => S (Z.to_nat d * acc)) 0%nat
                        (d2 :: rest2)) in *.
    set (new_array := alloc_answer w (allocs_done w)).
    match goal with
    | |- context [?loop (Z.to_nat d) 0 ?w1] =>
        assert (Hloop : forall n i w0,
                   alloc_answer w0 = alloc_answer w ->
                   exists w',
                     loop n i w0 = (new_array, w') /\
                     alloc_answer w' = alloc_answer w /\
                     find_class_answer w' = find_class_answer w0 /\
                     finds_done w' = finds_done w0 /\
                     allocs_done w' = (allocs_done w0 + n * count)%nat)
    end.
    { induction n as [|n IHn]; intros i w0 Hsame.
      - exists w0. repeat split; [exact Hsame|lia].
      - destruct (IH w0) as (w1 & Hrun & Ha & Hf & Hfd & Hc).
        { intros k. rewrite Hsame. apply Hok. }
        rewrite Hrun.
        destruct (Z.eqb_spec (alloc_answer w0 (allocs_done w0)) 0) as [Hz|_].
        { rewrite Hsame in Hz. destruct (Hok _ Hz). }
        destruct (IHn (i + 1)
                      (array_emit
                         (EvSetElement new_array i
                                       (alloc_answer w0 (allocs_done w0)))
                         w1)) as (w2 & Hrun2 & Ha2 & Hf2 & Hfd2 & Hc2).
        { cbn. rewrite Ha. exact Hsame. }
        exists w2. split; [exact Hrun2|]. cbn in *.
        repeat split; try congruence. lia. }
    destruct (Hloop (Z.to_nat d) 0
                    (mkArrayWorld (alloc_answer w) (find_class_answer w)
                                  (S (allocs_done w)) (finds_done w)
                                  (array_log w ++ [EvArrayAlloc d new_array])))
      as (w' & Hrun & Ha & Hf & Hfd & Hc); [reflexivity|].
    exists w'. split; [exact Hrun|]. cbn in *.
    repeat split; try assumption. lia.
Qed.

End MultiArray.

(** X26.  [CreateMultiArray].  With a negative dimension the call throws
    for the first such dimension and returns [nullptr] before any class is
    looked up or any array allocated.  With no negative dimension, and every
    lookup and allocation succeeding, it looks up one array class per
    dimension and returns the array that was allocated first, having
    allocated one array for the outermost dimension and, for each element of
    it, all arrays of the remaining dimensions. *)
Theorem CreateMultiArray_dimensions (dimensions : list Z) (w : ArrayWorld) :
  dimensions <> [] ->
  (forall k, alloc_answer w k <> 0) ->
  (forall k, find_class_answer w k = true) ->
  (Exists (fun d => d < 0) dimensions ->
   exists i d,
     CreateMultiArray dimensions w
     = (0, array_emit (EvThrowNegativeArraySize (Z.of_nat i) d) w) /\
     dimensions !! i = Some d /\ d < 0 /\
     forall j d', (j < i)%nat -> dimensions !! j = Some d' -> 0 <= d') /\
  (Forall (fun d => 0 <= d) dimensions ->
   exists w',
     CreateMultiArray dimensions w = (alloc_answer w (allocs_done w), w') /\
     finds_done w' = (finds_done w + length dimensions)%nat /\
     allocs_done w'
     = (allocs_done w
        + foldr (fun d acc => S (Z.to_nat d * acc)) 0 dimensions)%nat).
Proof.
  intros Hne Halloc Hfind. unfold CreateMultiArray.
  pose proof (first_negative_spec dimensions 0) as Hfirst.
  destruct (first_negative 0 dimensions) as [[i d]|].
  - destruct Hfirst as (k & -> & Hk & Hd & Hbefore). split.
    + intros _. exists k, d. rewrite Z.add_0_l. repeat split; assumption.
    + intros Hall. rewrite Forall_forall in Hall.
      assert (0 <= d).
      { apply Hall. eapply list_elem_of_lookup_2. exact Hk. }
      lia.
  - split.
    + intros Hex. apply Exists_exists in Hex as (d & Hin & Hd).
      rewrite Forall_forall in Hfirst. specialize (Hfirst d Hin). lia.
    + intros _.
      destruct (find_array_classes_ok (S (length dimensions - 1)) w Hfind)
        as (w1 & Hrun & Ha & Hf & Hc & Hfd).
      rewrite Hrun.
      destruct (RecursiveCreateMultiArray_all dimensions Hne Hfirst w1)
        as (w2 & Hrun2 & Ha2 & Hf2 & Hfd2 & Hc2).
      { intros k. rewrite Ha. apply Halloc. }
      exists w2. rewrite Hrun2, Ha, Hc. split; [reflexivity|].
      split.
      * rewrite Hfd2, Hfd. destruct dimensions; [contradiction|]. cbn. lia.
      * rewrite Hc2, Hc. reflexivity.
Qed.

Lemma CreateMultiArray_dimensions_witness :
  let w := mkArrayWorld (fun k => Z.of_nat (S k) * 4096) (fun _ => true)
                        0 0 [] in
  exists w',
    CreateMultiArray [2; 3] w = (4096, w') /\
    finds_done w' = 2%nat /\ allocs_done w' = 3%nat.
Proof.
  intros w.
  destruct (CreateMultiArray_dimensions [2; 3] w) as [_ H];
    [discriminate | intros k; simpl; lia | reflexivity |].
  destruct H as (w' & Hrun & Hf & Ha).
  { repeat constructor; lia. }
  exists w'. repeat split; assumption.
Defined.

(** ** Heap::AllocObjectWithAllocator: failure and the flag outside the zygote *)

Lemma allocate_with_flags allocator sets w obj w' :
  allocate_with allocator sets w = Some (obj, w') ->
  (forall a, no_swap_at (aw_heap w') a = true ->
             no_swap_at (aw_heap w) a = true) /\
  (forall ev, ev ∈ aw_log w' ->
              ev ∈ aw_log w \/ forall o, ev <> AeSetNoSwapFlag o).
Proof.
  unfold allocate_with. destruct (aw_answers w) as [|[addr|pending] rest];
    [discriminate| |]; intros [= <- <-]; cbn [aw_heap aw_log]; split.
  - intros a. unfold no_swap_at.
    destruct (Z.eq_dec a addr) as [->|Hne].
    + rewrite lookup_insert_eq. cbn. discriminate.
    + rewrite lookup_insert_ne by congruence. auto.
  - intros ev Hin. apply elem_of_app in Hin as [Hin|Hin]; [left; exact Hin|].
    right. apply list_elem_of_singleton in Hin. subst ev. discriminate.
  - auto.
  - auto.
Qed.

(** X27.  [AllocObjectWithAllocator] returns [nullptr] only with an
    exception pending: a failure without one restarts the call with the
    updated allocator, and the failure of a large object allocation clears
    its exception and falls back to the normal spaces. *)
Theorem AllocObjectWithAllocator_null_has_exception
        (GetUpdatedAllocator : AllocatorType -> AllocatorType)
        (fuel : nat) (kCheckLargeObject : bool) (self : Z) (klass : Class)
        (byte_count : Z) (allocator : AllocatorType) (w w' : AllocWorld) :
  AllocObjectWithAllocator GetUpdatedAllocator fuel kCheckLargeObject self
                           klass byte_count allocator w = Some (0, w') ->
  aw_exception_pending w' = true.
Proof.
  revert kCheckLargeObject self klass byte_count allocator w w'.
  induction fuel as [|fuel IH];
    intros kCheck self klass bc allocator w w' Hrun; [discriminate|].
  cbn [AllocObjectWithAllocator] in Hrun.
  destruct (kCheck && ShouldAllocLargeObject w klass bc).
  - destruct (AllocObjectWithAllocator GetUpdatedAllocator fuel false self klass
                bc kAllocatorTypeLOS w) as [[obj1 w1]|]; [|discriminate].
    destruct (Z.eqb_spec obj1 0) as [->|Hne]; cbn [negb] in Hrun.
    + exact (IH _ _ _ _ _ _ _ Hrun).
    + destruct (aw_is_zygote w1).
      * destruct (aw_SetNoSwapFlag obj1 w1); [|discriminate].
        injection Hrun as Hobj _. contradiction.
      * injection Hrun as Hobj _. contradiction.
  - destruct (allocate_with allocator false w) as [[obj1 w1]|];
      [|discriminate].
    destruct (Z.eqb_spec obj1 0) as [->|Hne]; cbn [negb] in Hrun.
    + destruct (allocate_with allocator true w1) as [[obj2 w2]|];
        [|discriminate].
      destruct (Z.eqb_spec obj2 0) as [->|Hne2]; cbn [negb] in Hrun.
      * destruct (aw_exception_pending w2) eqn:Hpend; cbn [negb] in Hrun.
        -- injection Hrun as <-. exact Hpend.
        -- exact (IH _ _ _ _ _ _ _ Hrun).
      * injection Hrun as Hobj _. contradiction.
    + injection Hrun as Hobj _. contradiction.
Qed.

Lemma AllocObjectWithAllocator_null_has_exception_witness :
  let w := mkAllocWorld ∅ ∅ false 12288 false
                        [Failed false; Failed false; Failed false;
                         Failed true] [] in
  let run := AllocObjectWithAllocator (fun a => a) 4 true 1
                                      (mkClass false false) 64
                                      kAllocatorTypeRosAlloc w in
  aw_exception_pending (default (1, w) run).2 = true.
Proof.
  intros w run.
  apply (AllocObjectWithAllocator_null_has_exception
           (fun a => a) 4 true 1 (mkClass false false) 64
           kAllocatorTypeRosAlloc w).
  vm_compute. reflexivity.
Defined.

(** X28.  Outside the zygote [AllocObjectWithAllocator] sets no no-swap
    flag: every object that carries the flag after the call carried it
    before, and the call performs no [SetNoSwapFlag]. *)
Theorem AllocObjectWithAllocator_flags_only_in_zygote
        (GetUpdatedAllocator : AllocatorType -> AllocatorType)
        (fuel : nat) (kCheckLargeObject : bool) (self : Z) (klass : Class)
        (byte_count : Z) (allocator : AllocatorType) (w : AllocWorld)
        (obj : Z) (w' : AllocWorld) :
  aw_is_zygote w = false ->
  AllocObjectWithAllocator GetUpdatedAllocator fuel kCheckLargeObject self
                           klass byte_count allocator w = Some (obj, w') ->
  (forall a, no_swap_at (aw_heap w') a = true ->
             no_swap_at (aw_heap w) a = true) /\
  (forall ev, ev ∈ aw_log w' ->
              ev ∈ aw_log w \/ forall o, ev <> AeSetNoSwapFlag o).
Proof.
  revert kCheckLargeObject self klass byte_count allocator w obj w'.
  induction fuel as [|fuel IH];
    intros kCheck self klass bc allocator w obj w' Hz Hrun; [discriminate|].
  cbn [AllocObjectWithAllocator] in Hrun.
  destruct (kCheck && ShouldAllocLargeObject w klass bc).
  - destruct (AllocObjectWithAllocator GetUpdatedAllocator fuel false self klass
                bc kAllocatorTypeLOS w) as [[obj1 w1]|] eqn:Hinner;
      [|discriminate].
    pose proof (AllocObjectWithAllocator_zygote
                  GetUpdatedAllocator _ _ _ _ _ _ _ _ _ Hinner) as Hz1.
    rewrite Hz in Hz1.
    destruct (IH _ _ _ _ _ _ _ _ Hz Hinner) as [Hh1 Hl1].
    destruct (negb (obj1 =? 0)).
    + rewrite Hz1 in Hrun. injection Hrun as <- <-. split; assumption.
    + assert (Hz1' : aw_is_zygote (aw_ClearException w1) = false)
        by exact Hz1.
      destruct (IH _ _ _ _ _ _ _ _ Hz1' Hrun) as [Hh2 Hl2].
      cbn [aw_ClearException aw_heap aw_log] in Hh2, Hl2. split.
      * intros a Ha. apply Hh1, Hh2, Ha.
      * intros ev Hin. destruct (Hl2 ev Hin) as [Hin'|Hno]; [|right; exact Hno].
        apply elem_of_app in Hin' as [Hin'|Hin'].
        -- apply Hl1, Hin'.
        -- right. apply list_elem_of_singleton in Hin'. subst ev.
           discriminate.
  - destruct (allocate_with allocator false w) as [[obj1 w1]|] eqn:H1;
      [|discriminate].
    pose proof (allocate_with_zygote _ _ _ _ _ H1) as Hz1. rewrite Hz in Hz1.
    destruct (allocate_with_flags _ _ _ _ _ H1) as [Hh1 Hl1].
    destruct (negb (obj1 =? 0)).
    + injection Hrun as <- <-. cbn [aw_emit aw_heap aw_log]. split.
      * exact Hh1.
      * intros ev Hin. apply elem_of_app in Hin as [Hin|Hin].
        -- apply Hl1, Hin.
        -- right. apply list_elem_of_singleton in Hin. subst ev.
           discriminate.
    + destruct (allocate_with allocator true w1) as [[obj2 w2]|] eqn:H2;
        [|discriminate].
      pose proof (allocate_with_zygote _ _ _ _ _ H2) as Hz2.
      rewrite Hz1 in Hz2.
      destruct (allocate_with_flags _ _ _ _ _ H2) as [Hh2 Hl2].
      assert (Hh12 : forall a, no_swap_at (aw_heap w2) a = true ->
                               no_swap_at (aw_heap w) a = true).
      { intros a Ha. apply Hh1, Hh2, Ha. }
      assert (Hl12 : forall ev, ev ∈ aw_log w2 ->
                 ev ∈ aw_log w \/ forall o, ev <> AeSetNoSwapFlag o).
      { intros ev Hin. destruct (Hl2 ev Hin) as [Hin'|Hno];
          [apply Hl1, Hin'|right; exact Hno]. }
      destruct (negb (obj2 =? 0)).
      * injection Hrun as <- <-. cbn [aw_emit aw_heap aw_log]. split.
        -- exact Hh12.
        -- intros ev Hin. apply elem_of_app in Hin as [Hin|Hin].
           ++ apply Hl12, Hin.
           ++ right. apply list_elem_of_singleton in Hin. subst ev.
              discriminate.
      * destruct (negb (aw_exception_pending w2)).
        -- destruct (IH _ _ _ _ _ _ _ _ Hz2 Hrun) as [Hh3 Hl3]. split.
           ++ intros a Ha. apply Hh12, Hh3, Ha.
           ++ intros ev Hin. destruct (Hl3 ev Hin) as [Hin'|Hno];
                [apply Hl12, Hin'|right; exact Hno].
        -- injection Hrun as <- <-. split; assumption.
Qed.

Lemma AllocObjectWithAllocator_flags_only_in_zygote_witness :
  let w := mkAllocWorld ∅ ∅ false 12288 false [Allocated 8192] [] in
  let run := AllocObjectWithAllocator (fun a => a) 4 true 1
                                      (mkClass true false) 16384
                                      kAllocatorTypeRosAlloc w in
  let w' := (default (0, w) run).2 in
  (forall a, no_swap_at (aw_heap w') a = true ->
             no_swap_at (aw_heap w) a = true) /\
  (forall ev, ev ∈ aw_log w' ->
              ev ∈ aw_log w \/ forall o, ev <> AeSetNoSwapFlag o).
Proof.
  intros w run w'.
  apply (AllocObjectWithAllocator_flags_only_in_zygote
           (fun a => a) 4 true 1 (mkClass true false) 16384
           kAllocatorTypeRosAlloc w 8192 w').
  - reflexivity.
  - vm_compute. reflexivity.
Defined.

(** ** Reference compare-and-set and the path on a resident object *)

(** X29.  [CasFieldObject] on an object that is present.  The call
    succeeds exactly when the field holds the expected value and the weak
    form does not fail spuriously.  On success the field holds the new value
    and the last thing the call does is the write barrier for it; on failure
    the heap is untouched and no store and no write barrier happens.  The
    transaction record, when active, is made before the field is read,
    whether or not the call succeeds. *)
Theorem CasFieldObject_barrier_iff_success
        (tx weak_fails : bool) (s : State) (this : Z) (o : ObjectRep)
        (off ov nv : Z) :
  heap s !! this = Some o ->
  let success := (field_value o off =? ov) && negb weak_fails in
  exists s',
    CasFieldObject tx weak_fails this off ov nv s = Some (success, s') /\
    table s' = table s /\ storage s' = storage s /\
    heap s'
    = (if success
       then <[this := with_fields (<[off := nv]> (obj_fields o)) o]> (heap s)
       else heap s) /\
    log s'
    = log s ++ (if tx then [EvRecordWrite this off ov] else [])
            ++ [EvLoad this off]
            ++ (if success
                then [EvStore this off nv; EvWriteBarrier this off nv]
                else []).
Proof.
  intros Ho success. subst success.
  unfold CasFieldObject, CasFieldObjectWithoutWriteBarrier, compare_and_set,
    load_field, store_field, emit, read_object, write_object, bind, ret.
  destruct tx; crunch;
    destruct ((field_value o off =? ov) && negb weak_fails); crunch;
    eexists; repeat split.
Qed.

Lemma CasFieldObject_barrier_iff_success_witness :
  exists s',
    CasFieldObject false false 4096 8 41 42
      (mkState {[ 4096 := with_fields {[ 8 := 41 ]} fresh_object ]} [] ∅ [])
    = Some (true, s') /\
    log s' = [EvLoad 4096 8; EvStore 4096 8 42; EvWriteBarrier 4096 8 42].
Proof.
  destruct (CasFieldObject_barrier_iff_success
              false false
              (mkState {[ 4096 := with_fields {[ 8 := 41 ]} fresh_object ]}
                       [] ∅ [])
              4096 (with_fields {[ 8 := 41 ]} fresh_object) 8 41 42)
    as (s' & Hrun & _ & _ & _ & Hlog); [reflexivity|].
  exists s'. split; [exact Hrun|exact Hlog].
Defined.

(** X30.  [SetFieldObject] followed by [GetFieldObject] on a resident
    object, that is, one whose stub flag is clear: the load returns the
    stored reference; no table entry is touched; the object has its write
    and dirty bits set, and its read bit unless reads of it are ignored;
    and the store raised the write barrier exactly when the reference is
    not null. *)
Theorem resident_set_get_round_trip
        (sizeof_Object : Z) (fuel_set fuel_get : nat) (tx : bool)
        (s : State) (this : Z) (p : ObjectRep) (off v : Z) :
  heap s !! this = Some p ->
  x_stub_flag p = false ->
  exists s1 s2 p',
    SetFieldObject sizeof_Object (S fuel_set) tx this off v s = Some (tt, s1) /\
    GetFieldObject sizeof_Object (S fuel_get) this off s1 = Some (v, s2) /\
    table s2 = table s /\ storage s2 = storage s /\
    heap s2 !! this = Some p' /\
    x_write_bit p' = true /\ x_dirty_bit p' = true /\
    (x_ignore_read_flag p = false -> x_read_bit p' = true) /\
    x_stub_flag p' = false /\
    (EvWriteBarrier this off v ∈ log s1 <->
     v <> 0 \/ EvWriteBarrier this off v ∈ log s).
Proof.
  intros Hp Hflag.
  unfold SetFieldObject.
  pose proof (SetFieldObjectWithoutWriteBarrier_direct
                sizeof_Object fuel_set tx s this p off v Hp Hflag) as Hset.
  set (s0 := mkState (<[this := after_store tx off v p]> (heap s)) (table s)
                     (storage s)
                     (log s ++ direct_store_events sizeof_Object tx this off
                                                   (field_value p off) v))
    in *.
  assert (Hp0 : heap s0 !! this = Some (after_store tx off v p)).
  { unfold s0. cbn [heap]. apply lookup_insert_eq. }
  assert (Hno : forall l, EvWriteBarrier this off v ∈
                            l ++ direct_store_events sizeof_Object tx this off
                                   (field_value p off) v ->
                          EvWriteBarrier this off v ∈ l).
  { intros l Hin. apply elem_of_app in Hin as [Hin|Hin]; [exact Hin|].
    exfalso. unfold direct_store_events, direct_load_events in Hin.
    destruct tx, (sizeof_Object <=? off); cbn in Hin;
      repeat match goal with
             | H : _ ∈ _ :: _ |- _ =>
                 apply elem_of_cons in H as [H|H]; [discriminate|]
             | H : _ ∈ [] |- _ => apply elem_of_nil in H; destruct H
             end. }
  destruct (Z.eqb_spec v 0) as [Hv|Hv].
  - exists s0.
    pose proof (GetFieldObject_direct sizeof_Object fuel_get s0 this
                  (after_store tx off v p) off Hp0) as Hget.
    specialize (Hget ltac:(destruct tx; exact Hflag)).
    eexists _, _. split.
    { unfold bind. rewrite Hset. reflexivity. }
    split.
    { rewrite Hget. f_equal. f_equal.
      unfold field_value, after_store. cbn [obj_fields].
      rewrite lookup_insert_eq. reflexivity. }
    cbn [table storage heap]. split; [reflexivity|]. split; [reflexivity|].
    split; [apply lookup_insert_eq|].
    unfold after_read, after_store.
    cbn [x_write_bit x_dirty_bit x_read_bit x_ignore_read_flag x_stub_flag].
    repeat split.
    + intros Hig. destruct tx; cbn; rewrite Hig; reflexivity.
    + destruct tx; exact Hflag.
    + intros Hin. right. apply Hno. exact Hin.
    + intros [Hc|Hin]; [contradiction|].
      unfold s0. cbn [log]. apply elem_of_app. left. exact Hin.
  - set (s1 := mkState (heap s0) (table s0) (storage s0)
                       (log s0 ++ [EvWriteBarrier this off v])).
    exists s1.
    pose proof (GetFieldObject_direct sizeof_Object fuel_get s1 this
                  (after_store tx off v p) off Hp0) as Hget.
    specialize (Hget ltac:(destruct tx; exact Hflag)).
    eexists _, _. split.
    { unfold bind. rewrite Hset. reflexivity. }
    split.
    { rewrite Hget. f_equal. f_equal.
      unfold field_value, after_store. cbn [obj_fields].
      rewrite lookup_insert_eq. reflexivity. }
    cbn [table storage heap]. split; [reflexivity|]. split; [reflexivity|].
    split; [apply lookup_insert_eq|].
    unfold after_read, after_store.
    cbn [x_write_bit x_dirty_bit x_read_bit x_ignore_read_flag x_stub_flag].
    repeat split.
    + intros Hig. destruct tx; cbn; rewrite Hig; reflexivity.
    + destruct tx; exact Hflag.
    + intros _. left. exact Hv.
    + intros _. unfold s1. cbn [log]. apply elem_of_app. right.
      apply list_elem_of_singleton. reflexivity.
Qed.

Lemma resident_set_get_round_trip_witness :
  exists s1 s2 p',
    SetFieldObject 8 1 false 4096 8 12288
      (mkState {[ 4096 := fresh_object ]} [] ∅ []) = Some (tt, s1) /\
    GetFieldObject 8 1 4096 8 s1 = Some (12288, s2) /\
    heap s2 !! 4096 = Some p' /\
    x_write_bit p' = true /\ x_dirty_bit p' = true.
Proof.
  destruct (resident_set_get_round_trip
              8 0 0 false (mkState {[ 4096 := fresh_object ]} [] ∅ [])
              4096 fresh_object 8 12288)
    as (s1 & s2 & p' & Hs & Hg & _ & _ & Hp & Hw & Hd & _);
    [reflexivity | reflexivity |].
  exists s1, s2, p'. repeat split; assumption.
Defined.
